(** * RealNVP bijector: coupling layers and their composition

    A shallow embedding of [sac/distributions/real_nvp_bijector.py]:
    [checkerboard], [CouplingBijector] and [RealNVPBijector], together with
    the TensorFlow operations they are written with, and the properties of the
    flow that the rest of the policy code relies on. *)

From Stdlib Require Import String DecimalString.
From Stdlib Require Import Reals Lra ZArith Bool Lia PeanoNat List.
From Stdlib Require FinFun DecimalZ DecimalPos.
Import ListNotations.

Local Open Scope string_scope.
Local Open Scope R_scope.

(* ================================================================== *)
(** ** Tensor elements

    An element of a floating tensor is a real number or one of the three
    IEEE-754 special values.  Arithmetic on finite elements is exact (no
    rounding and no overflow: the finite elements are the reals); as soon as
    a special value is involved it follows the IEEE rules that TensorFlow's
    kernels implement, so that [0 * inf] is [nan], [exp (-inf)] is [0], and
    so on.  The sign of zero is not tracked. *)

Inductive num : Type :=
| Fin (r : R)
| PInf
| NInf
| NaN.

(** [tf.is_finite] *)
Definition is_finite (a : num) : bool :=
  match a with
  | Fin _ => true
  | _ => false
  end.

(** an infinity of sign [pos] multiplied by the real [r] *)
Definition inf_times (pos : bool) (r : R) : num :=
  if Rlt_dec 0 r then (if pos then PInf else NInf)
  else if Rlt_dec r 0 then (if pos then NInf else PInf)
  else NaN.

Definition mul (a b : num) : num :=
  match a, b with
  | NaN, _ | _, NaN => NaN
  | Fin x, Fin y => Fin (x * y)
  | Fin x, PInf | PInf, Fin x => inf_times true x
  | Fin x, NInf | NInf, Fin x => inf_times false x
  | PInf, PInf | NInf, NInf => PInf
  | PInf, NInf | NInf, PInf => NInf
  end.

Definition add (a b : num) : num :=
  match a, b with
  | NaN, _ | _, NaN => NaN
  | Fin x, Fin y => Fin (x + y)
  | PInf, NInf | NInf, PInf => NaN
  | PInf, _ | _, PInf => PInf
  | NInf, _ | _, NInf => NInf
  end.

Definition neg (a : num) : num :=
  match a with
  | Fin x => Fin (- x)
  | PInf => NInf
  | NInf => PInf
  | NaN => NaN
  end.

Definition sub (a b : num) : num :=
  match a, b with
  | NaN, _ | _, NaN => NaN
  | Fin x, Fin y => Fin (x - y)
  | PInf, PInf | NInf, NInf => NaN
  | PInf, _ | _, NInf => PInf
  | NInf, _ | _, PInf => NInf
  end.

(** [tf.exp] on one element *)
Definition nexp (a : num) : num :=
  match a with
  | Fin x => Fin (exp x)
  | PInf => PInf
  | NInf => Fin 0
  | NaN => NaN
  end.

(** [tf.cast] of a boolean to a floating dtype *)
Definition cast (b : bool) : num := if b then Fin 1 else Fin 0.

(* ================================================================== *)
(** ** Exceptions *)

Inductive exn : Type :=
| NotImplementedError (msg : string)
| InvalidArgumentError (msg : string)
| ValueError
| AssertionError.

Inductive result (A : Type) : Type :=
| Ok (a : A)
| Raise (e : exn).

Arguments Ok {A} a.
Arguments Raise {A} e.

Definition bind {A B : Type} (m : result A) (k : A -> result B) : result B :=
  match m with
  | Ok a => k a
  | Raise e => Raise e
  end.

Notation "x <- m ;; k" := (bind m (fun x => k))
  (at level 61, m at next level, right associativity).

(** Python's [assert] *)
Definition assert (b : bool) : result unit :=
  if b then Ok tt else Raise AssertionError.

(* ================================================================== *)
(** ** Tensors

    The coupling transform indexes columns 0 and 1 of its input, so an input
    is a tensor of shape [[batch, 2]]: a list of rows, a row being a pair.
    A tensor of shape [[batch]] is a list of elements. *)

Definition row : Type := (num * num)%type.
Definition tensor : Type := list row.
Definition vector : Type := list num.

(** [t[:, 0]] and [t[:, 1]] *)
Definition col0 (t : tensor) : vector := map fst t.
Definition col1 (t : tensor) : vector := map snd t.

(** [x * mask] and [mask * t], the mask of shape [[2]] broadcast over the
    batch axis *)
Definition mul_mask_r (x : tensor) (mask : row) : tensor :=
  map (fun r => (mul (fst r) (fst mask), mul (snd r) (snd mask))) x.

Definition mul_mask_l (mask : row) (t : tensor) : tensor :=
  map (fun r => (mul (fst mask) (fst r), mul (snd mask) (snd r))) t.

(** [tf.exp] *)
Definition texp (t : tensor) : tensor :=
  map (fun r => (nexp (fst r), nexp (snd r))) t.

Definition row_finite (r : row) : bool := is_finite (fst r) && is_finite (snd r).

(** [tf.check_numerics]: the tensor itself, or an error when one of its
    elements is a NaN or an infinity *)
Definition check_numerics (t : tensor) (message : string) : result tensor :=
  if forallb row_finite t then Ok t else Raise (InvalidArgumentError message).

(** [tf.reduce_sum(t, axis=(1,))] *)
Definition reduce_sum_axis1 (t : tensor) : vector :=
  map (fun r => add (fst r) (snd r)) t.

(** [tf.zeros_like] *)
Definition zeros_like (t : tensor) : tensor := map (fun _ => (Fin 0, Fin 0)) t.

(** unary minus on a vector *)
Definition vneg (v : vector) : vector := map neg v.

Definition zip_with (f : num -> num -> num) (a b : vector) : vector :=
  map (fun p => f (fst p) (snd p)) (combine a b).

(** An elementwise binary operation on two tensors of shapes [[n]] and
    [[m]], with NumPy broadcasting: the shapes must agree unless one of them
    is [[1]]. *)
Definition broadcast (f : num -> num -> num) (a b : vector) : result vector :=
  if Nat.eqb (length a) (length b) then Ok (zip_with f a b)
  else match a, b with
       | [a0], _ => Ok (map (f a0) b)
       | _, [b0] => Ok (map (fun x => f x b0) a)
       | _, _ => Raise ValueError
       end.

(** [tf.stack((a, b), axis=1)]: both columns must have the same shape *)
Definition stack_axis1 (a b : vector) : result tensor :=
  if Nat.eqb (length a) (length b) then Ok (combine a b) else Raise ValueError.

(* ================================================================== *)
(** ** [checkerboard] *)

Definition np_prod (shape : list nat) : nat := fold_right Nat.mul 1%nat shape.

(** [tf.tile(unit, (n,))] *)
Definition tile {A : Type} (unit : list A) (n : nat) : list A :=
  concat (repeat unit n).

(** The tensor is returned flattened; [tf.reshape] fails when the number of
    elements does not fit the shape. *)
Definition checkerboard (shape : list nat) (parity : string) : result (list num) :=
  let unit := if String.eqb parity "even" then [true; false] else [false; true] in
  let tiled := tile unit (np_prod shape / 2) in
  if Nat.eqb (length tiled) (np_prod shape)
  then Ok (map cast tiled)
  else Raise ValueError.

(* ================================================================== *)
(** ** The bijector interface

    [ConditionalBijector] is TensorFlow's base class.  Its public methods
    [forward], [inverse], [forward_log_det_jacobian] and
    [inverse_log_det_jacobian] hand their argument and the conditioning
    keyword arguments to the underscore method of the subclass (the cache
    that the base class keeps of the pairs it has computed does not change
    the values returned).  [C] is the type of the conditioning keyword
    arguments. *)

Class ConditionalBijector (C B : Type) : Type := {
  _forward : B -> tensor -> C -> result tensor;
  _forward_log_det_jacobian : B -> tensor -> C -> result vector;
  _inverse : B -> tensor -> C -> result tensor;
  _inverse_log_det_jacobian : B -> tensor -> C -> result vector
}.

Definition forward {C B} `{ConditionalBijector C B} (b : B) (x : tensor) (c : C) :=
  _forward b x c.

Definition forward_log_det_jacobian {C B} `{ConditionalBijector C B}
  (b : B) (x : tensor) (c : C) :=
  _forward_log_det_jacobian b x c.

Definition inverse {C B} `{ConditionalBijector C B} (b : B) (y : tensor) (c : C) :=
  _inverse b y c.

Definition inverse_log_det_jacobian {C B} `{ConditionalBijector C B}
  (b : B) (y : tensor) (c : C) :=
  _inverse_log_det_jacobian b y c.

Arguments forward : simpl never.
Arguments forward_log_det_jacobian : simpl never.
Arguments inverse : simpl never.
Arguments inverse_log_det_jacobian : simpl never.

(* ================================================================== *)
(** ** [CouplingBijector]

    [translation_fn] and [scale_fn] are called inside a
    [tf.variable_scope], from which the networks of this repository fetch
    their weights: the scope is their first argument here. *)

Definition net (C : Type) : Type := string -> tensor -> C -> tensor.

Module CouplingBijector.

Record t (C : Type) : Type := {
  parity : string;
  translation_fn : net C;
  scale_fn : net C;
  validate_args : bool;
  name : string
}.

Arguments parity {C} _.
Arguments translation_fn {C} _.
Arguments scale_fn {C} _.
Arguments validate_args {C} _.
Arguments name {C} _.

(** the constructor, with the default values of its keyword arguments *)
Definition default_validate_args : bool := false.
Definition default_name : string := "coupling_bijector".

Definition __init__ {C} (parity : string) (translation_fn scale_fn : net C)
  (validate_args : bool) (name : string) : t C :=
  {| parity := parity;
     translation_fn := translation_fn;
     scale_fn := scale_fn;
     validate_args := validate_args;
     name := name |}.

Definition _maybe_assert_valid_x {C} (self : t C) (x : tensor) : result tensor :=
  if negb (validate_args self) then Ok x
  else Raise (NotImplementedError "_maybe_assert_valid_x").

Definition _maybe_assert_valid_y {C} (self : t C) (y : tensor) : result tensor :=
  if negb (validate_args self) then Ok y
  else Raise (NotImplementedError "_maybe_assert_valid_y").

(** [x.get_shape()[1:]] is [[2]] for every tensor of rows *)
Definition get_mask {C} (self : t C) (x : tensor) : result row :=
  mask <- checkerboard [2%nat] (parity self) ;;
  match mask with
  | [m0; m1] => Ok (m0, m1)
  | _ => Raise AssertionError
  end.

Definition scale_scope {C} (self : t C) : string :=
  String.append (name self) "/scale".

Definition translation_scope {C} (self : t C) : string :=
  String.append (name self) "/translation".

Definition _forward {C} (self : t C) (x : tensor) (c : C) : result tensor :=
  _ <- _maybe_assert_valid_x self x ;;
  mask <- get_mask self x ;;
  let masked_x := mul_mask_r x mask in
  let scale := mul_mask_l mask (scale_fn self (scale_scope self) masked_x c) in
  let translation :=
    mul_mask_l mask (translation_fn self (translation_scope self) masked_x c) in
  exp_scale <- check_numerics (texp scale) "tf.exp(scale) contains NaNs or Infs." ;;
  if String.eqb (parity self) "odd" then
    scaled <- broadcast mul (col0 x) (col1 exp_scale) ;;
    moved <- broadcast add scaled (col1 translation) ;;
    stack_axis1 moved (col1 x)
  else
    scaled <- broadcast mul (col1 x) (col0 exp_scale) ;;
    moved <- broadcast add scaled (col0 translation) ;;
    stack_axis1 (col0 x) moved.

Definition _forward_log_det_jacobian {C} (self : t C) (x : tensor) (c : C)
  : result vector :=
  _ <- _maybe_assert_valid_x self x ;;
  mask <- get_mask self x ;;
  let masked_x := mul_mask_r x mask in
  let scale := mul_mask_l mask (scale_fn self (scale_scope self) masked_x c) in
  let log_det_jacobian := reduce_sum_axis1 scale in
  Ok log_det_jacobian.

Definition _inverse {C} (self : t C) (y : tensor) (c : C) : result tensor :=
  _ <- _maybe_assert_valid_y self y ;;
  mask <- get_mask self y ;;
  let masked_y := mul_mask_r y mask in
  let scale := mul_mask_l mask (scale_fn self (scale_scope self) masked_y c) in
  let translation :=
    mul_mask_l mask (translation_fn self (translation_scope self) masked_y c) in
  if String.eqb (parity self) "odd" then
    moved <- broadcast sub (col0 y) (col1 translation) ;;
    scaled <- broadcast mul moved (map nexp (vneg (col1 scale))) ;;
    stack_axis1 scaled (col1 y)
  else
    moved <- broadcast sub (col1 y) (col0 translation) ;;
    scaled <- broadcast mul moved (map nexp (vneg (col0 scale))) ;;
    stack_axis1 (col0 y) scaled.

Definition _inverse_log_det_jacobian {C} (self : t C) (y : tensor) (c : C)
  : result vector :=
  _ <- _maybe_assert_valid_y self y ;;
  mask <- get_mask self y ;;
  let masked_y := mul_mask_r y mask in
  let scale := mul_mask_l mask (scale_fn self (scale_scope self) masked_y c) in
  let log_det_jacobian := vneg (reduce_sum_axis1 scale) in
  Ok log_det_jacobian.

End CouplingBijector.

#[export] Instance CouplingBijector_bijector (C : Type)
  : ConditionalBijector C (CouplingBijector.t C) :=
  Build_ConditionalBijector C (CouplingBijector.t C)
    CouplingBijector._forward
    CouplingBijector._forward_log_det_jacobian
    CouplingBijector._inverse
    CouplingBijector._inverse_log_det_jacobian.

(* ================================================================== *)
(** ** [RealNVPBijector] *)

(** [range(lo, hi)] *)
Definition range (lo hi : Z) : list Z :=
  map (fun k => (lo + Z.of_nat k)%Z) (seq 0 (Z.to_nat (hi - lo))).

(** ["coupling_{i}".format(i=i)] *)
Definition coupling_name (i : Z) : string :=
  String.append "coupling_" (NilZero.string_of_int (Z.to_int i)).

Module RealNVPBijector.

Record Config : Type := {
  num_coupling_layers : Z;
  translation_hidden_sizes : list Z;
  scale_hidden_sizes : list Z;
  scale_regularization : R
}.

Definition DEFAULT_CONFIG : Config :=
  {| num_coupling_layers := 2;
     translation_hidden_sizes := [25%Z];
     scale_hidden_sizes := [25%Z];
     scale_regularization := 500 |}.

(** The [config] argument of the constructor: the keys it has override the
    defaults. *)
Record Overrides : Type := {
  o_num_coupling_layers : option Z;
  o_translation_hidden_sizes : option (list Z);
  o_scale_hidden_sizes : option (list Z);
  o_scale_regularization : option R
}.

Definition no_overrides : Overrides :=
  {| o_num_coupling_layers := None;
     o_translation_hidden_sizes := None;
     o_scale_hidden_sizes := None;
     o_scale_regularization := None |}.

Definition override {A : Type} (default : A) (o : option A) : A :=
  match o with
  | Some a => a
  | None => default
  end.

(** [dict(DEFAULT_CONFIG, **(config or {}))] *)
Definition merge_config (config : option Overrides) : Config :=
  let o := match config with Some o => o | None => no_overrides end in
  {| num_coupling_layers :=
       override (num_coupling_layers DEFAULT_CONFIG) (o_num_coupling_layers o);
     translation_hidden_sizes :=
       override (translation_hidden_sizes DEFAULT_CONFIG)
                (o_translation_hidden_sizes o);
     scale_hidden_sizes :=
       override (scale_hidden_sizes DEFAULT_CONFIG) (o_scale_hidden_sizes o);
     scale_regularization :=
       override (scale_regularization DEFAULT_CONFIG) (o_scale_regularization o) |}.

Record t (C : Type) : Type := {
  config : Config;
  layers : list (CouplingBijector.t C);
  validate_args : bool
}.

Arguments config {C} _.
Arguments layers {C} _.
Arguments validate_args {C} _.

(** the default value of the constructor's keyword argument *)
Definition default_validate_args : bool := false.

(** [("even", "odd")[k]]; [build] calls it with 0 and 1 only *)
Definition parity_of_index (k : Z) : string :=
  nth (Z.to_nat k) ["even"; "odd"] "".

(** [translation_wrapper] and [scale_wrapper] are the two feedforward
    networks that [build] closes over; every layer receives the same two
    closures and a name of its own. *)
Definition build {C} (config : Config) (translation_wrapper scale_wrapper : net C)
  : list (CouplingBijector.t C) :=
  map (fun i =>
         CouplingBijector.__init__
           (parity_of_index (i mod 2))
           translation_wrapper
           scale_wrapper
           CouplingBijector.default_validate_args
           (coupling_name i))
      (range 1 (num_coupling_layers config + 1)).

Definition __init__ {C} (config : option Overrides)
  (translation_wrapper scale_wrapper : net C) (validate_args : bool) : t C :=
  let config := merge_config config in
  {| config := config;
     layers := build config translation_wrapper scale_wrapper;
     validate_args := validate_args |}.

Definition _maybe_assert_valid_x {C} (self : t C) (x : tensor) : result tensor :=
  if negb (validate_args self) then Ok x
  else Raise (NotImplementedError "_maybe_assert_valid_x").

Definition _maybe_assert_valid_y {C} (self : t C) (y : tensor) : result tensor :=
  if negb (validate_args self) then Ok y
  else Raise (NotImplementedError "_maybe_assert_valid_y").

(** [for layer in layers: out = layer.forward(out, **condition_kwargs)] *)
Fixpoint forward_loop {C} (layers : list (CouplingBijector.t C))
  (out : tensor) (c : C) : result tensor :=
  match layers with
  | [] => Ok out
  | layer :: rest =>
      out <- forward layer out c ;;
      forward_loop rest out c
  end.

Definition _forward {C} (self : t C) (x : tensor) (c : C) : result tensor :=
  _ <- _maybe_assert_valid_x self x ;;
  forward_loop (layers self) x c.

Fixpoint forward_log_det_jacobian_loop {C} (layers : list (CouplingBijector.t C))
  (sum_log_det_jacobians : vector) (out : tensor) (c : C) : result vector :=
  match layers with
  | [] => Ok sum_log_det_jacobians
  | layer :: rest =>
      log_det_jacobian <- forward_log_det_jacobian layer out c ;;
      out <- forward layer out c ;;
      _ <- assert (Nat.eqb (length sum_log_det_jacobians)
                           (length log_det_jacobian)) ;;
      sum_log_det_jacobians <-
        broadcast add sum_log_det_jacobians log_det_jacobian ;;
      forward_log_det_jacobian_loop rest sum_log_det_jacobians out c
  end.

Definition _forward_log_det_jacobian {C} (self : t C) (x : tensor) (c : C)
  : result vector :=
  _ <- _maybe_assert_valid_x self x ;;
  let sum_log_det_jacobians := reduce_sum_axis1 (zeros_like x) in
  forward_log_det_jacobian_loop (layers self) sum_log_det_jacobians x c.

(** [for layer in reversed(layers): out = layer.inverse(out, **condition_kwargs)],
    the argument being the reversed list *)
Fixpoint inverse_loop {C} (reversed_layers : list (CouplingBijector.t C))
  (out : tensor) (c : C) : result tensor :=
  match reversed_layers with
  | [] => Ok out
  | layer :: rest =>
      out <- inverse layer out c ;;
      inverse_loop rest out c
  end.

Definition _inverse {C} (self : t C) (y : tensor) (c : C) : result tensor :=
  _ <- _maybe_assert_valid_y self y ;;
  inverse_loop (rev (layers self)) y c.

Fixpoint inverse_log_det_jacobian_loop {C}
  (reversed_layers : list (CouplingBijector.t C))
  (sum_log_det_jacobians : vector) (out : tensor) (c : C) : result vector :=
  match reversed_layers with
  | [] => Ok sum_log_det_jacobians
  | layer :: rest =>
      log_det_jacobian <- inverse_log_det_jacobian layer out c ;;
      out <- inverse layer out c ;;
      _ <- assert (Nat.eqb (length sum_log_det_jacobians)
                           (length log_det_jacobian)) ;;
      sum_log_det_jacobians <-
        broadcast add sum_log_det_jacobians log_det_jacobian ;;
      inverse_log_det_jacobian_loop rest sum_log_det_jacobians out c
  end.

Definition _inverse_log_det_jacobian {C} (self : t C) (y : tensor) (c : C)
  : result vector :=
  _ <- _maybe_assert_valid_y self y ;;
  let sum_log_det_jacobians := reduce_sum_axis1 (zeros_like y) in
  inverse_log_det_jacobian_loop (rev (layers self)) sum_log_det_jacobians y c.

End RealNVPBijector.

#[export] Instance RealNVPBijector_bijector (C : Type)
  : ConditionalBijector C (RealNVPBijector.t C) :=
  Build_ConditionalBijector C (RealNVPBijector.t C)
    RealNVPBijector._forward
    RealNVPBijector._forward_log_det_jacobian
    RealNVPBijector._inverse
    RealNVPBijector._inverse_log_det_jacobian.

(* ================================================================== *)
(** ** Vocabulary of the statements *)

Definition mask_of (parity : string) : row :=
  if String.eqb parity "even" then (Fin 1, Fin 0) else (Fin 0, Fin 1).

(** the parity of layer [i], layers counted from 1 *)
Definition layer_parity {C} (flow : RealNVPBijector.t C) (i : Z) : option string :=
  option_map CouplingBijector.parity
    (nth_error (RealNVPBijector.layers flow) (Z.to_nat (i - 1))).

(** the identity network, used to exhibit concrete flows *)
Definition echo_net : net unit := fun _ inputs _ => inputs.

(** a layer and a flow whose validation is switched on, and the same two
    with validation off *)
Definition checked_layer : CouplingBijector.t unit :=
  CouplingBijector.__init__ "even" echo_net echo_net true "coupling_1".

Definition checked_flow : RealNVPBijector.t unit :=
  RealNVPBijector.__init__ None echo_net echo_net true.

Definition plain_layer : CouplingBijector.t unit :=
  CouplingBijector.__init__ "even" echo_net echo_net
    CouplingBijector.default_validate_args "coupling_1".

Definition plain_flow : RealNVPBijector.t unit :=
  RealNVPBijector.__init__ None echo_net echo_net
    RealNVPBijector.default_validate_args.

(** The local variables [masked_x], [scale], [translation] and [exp_scale]
    of the four methods of the coupling layer, as functions of the layer,
    its input and the conditioning arguments. *)
Definition masked_input {C} (self : CouplingBijector.t C) (x : tensor) : tensor :=
  mul_mask_r x (mask_of (CouplingBijector.parity self)).

Definition scale_at {C} (self : CouplingBijector.t C) (x : tensor) (c : C) : tensor :=
  mul_mask_l (mask_of (CouplingBijector.parity self))
    (CouplingBijector.scale_fn self (CouplingBijector.scale_scope self)
       (masked_input self x) c).

Definition translation_at {C} (self : CouplingBijector.t C) (x : tensor) (c : C)
  : tensor :=
  mul_mask_l (mask_of (CouplingBijector.parity self))
    (CouplingBijector.translation_fn self (CouplingBijector.translation_scope self)
       (masked_input self x) c).

Definition exp_scale_at {C} (self : CouplingBijector.t C) (x : tensor) (c : C)
  : tensor :=
  texp (scale_at self x c).

(** a network that returns the row [r] for every row of every input *)
Definition constant_net {C} (r : row) : net C := fun _ inputs _ => map (fun _ => r) inputs.

(** a coupling layer constructed with the default keyword arguments *)
Definition coupling {C} (parity : string) (translation_fn scale_fn : net C)
  : CouplingBijector.t C :=
  CouplingBijector.__init__ parity translation_fn scale_fn
    CouplingBijector.default_validate_args CouplingBijector.default_name.

(** What a coupling layer does to one row [a] of its input, [s] and [t]
    being the rows of [scale] and [translation] at the same position, and
    [odd] the outcome of the test [parity == "odd"]. *)
Definition forward_row (odd : bool) (a s t : row) : row :=
  if odd
  then (add (mul (fst a) (nexp (snd s))) (snd t), snd a)
  else (fst a, add (mul (snd a) (nexp (fst s))) (fst t)).

Definition inverse_row (odd : bool) (a s t : row) : row :=
  if odd
  then (mul (sub (fst a) (snd t)) (nexp (neg (snd s))), snd a)
  else (fst a, mul (sub (snd a) (fst t)) (nexp (neg (fst s)))).

Definition zip3 (f : row -> row -> row -> row) (x s t : tensor) : tensor :=
  map (fun p => f (fst p) (fst (snd p)) (snd (snd p))) (combine x (combine s t)).

Definition is_odd {C} (self : CouplingBijector.t C) : bool :=
  String.eqb (CouplingBijector.parity self) "odd".

(** no element of the tensor is a NaN or an infinity *)
Definition all_finite (t : tensor) : bool := forallb row_finite t.

(** some element of the tensor is a NaN or an infinity *)
Definition contains_nan_or_inf (t : tensor) : Prop :=
  exists r, In r t /\ row_finite r = false.

(** [scale] and [translation] have the shape of the input *)
Definition shapes_agree {C} (self : CouplingBijector.t C) (x : tensor) (c : C) : Prop :=
  length (scale_at self x c) = length x /\
  length (translation_at self x c) = length x.

(** a layer of parity "even" whose scale network returns a NaN next to a
    zero, and whose translation network returns zeros *)
Definition nan_scale_layer : CouplingBijector.t unit :=
  coupling "even" (constant_net (Fin 0, Fin 0)) (constant_net (NaN, Fin 0)).

(** layers of either parity with constant finite networks *)
Definition even_layer : CouplingBijector.t unit :=
  coupling "even" (constant_net (Fin 3, Fin 5)) (constant_net (Fin 0, Fin 0)).

Definition odd_layer : CouplingBijector.t unit :=
  coupling "odd" (constant_net (Fin 3, Fin 5)) (constant_net (Fin 0, Fin 0)).

(** a flow over a given list of layers, with the default configuration and
    validation off *)
Definition flow_of {C} (layers : list (CouplingBijector.t C)) : RealNVPBijector.t C :=
  {| RealNVPBijector.config := RealNVPBijector.DEFAULT_CONFIG;
     RealNVPBijector.layers := layers;
     RealNVPBijector.validate_args := false |}.

(** One more layer applied to the outcome of the layers before it. *)
Definition then_forward {C} (c : C) (before : result tensor)
  (layer : CouplingBijector.t C) : result tensor :=
  out <- before ;; forward layer out c.

Definition then_inverse {C} (c : C) (layer : CouplingBijector.t C)
  (before : result tensor) : result tensor :=
  out <- before ;; inverse layer out c.

(** no element of the vector is a NaN or an infinity *)
Definition vector_finite (v : vector) : bool := forallb is_finite v.

(** A network is regular for the conditioning arguments [c] when, fed a
    finite tensor, it returns a finite tensor of the same shape: what a
    feedforward network computes in exact arithmetic. *)
Definition regular_net {C} (f : net C) (scope : string) (c : C) : Prop :=
  forall z, all_finite z = true ->
            all_finite (f scope z c) = true /\ length (f scope z c) = length z.

(** a layer with validation off and regular networks *)
Definition regular_layer {C} (c : C) (self : CouplingBijector.t C) : Prop :=
  CouplingBijector.validate_args self = false /\
  regular_net (CouplingBijector.scale_fn self) (CouplingBijector.scale_scope self) c /\
  regular_net (CouplingBijector.translation_fn self)
              (CouplingBijector.translation_scope self) c.

(** a network whose output depends on its input: a row [(a, b)] is sent to
    [(a + b, a - b)] *)
Definition mix_net : net unit :=
  fun _ inputs _ => map (fun r => (add (fst r) (snd r), sub (fst r) (snd r))) inputs.

Definition mix_even_layer : CouplingBijector.t unit := coupling "even" mix_net mix_net.
Definition mix_odd_layer : CouplingBijector.t unit := coupling "odd" mix_net mix_net.

(** the real number held by a finite element *)
Definition to_R (a : num) : R :=
  match a with
  | Fin r => r
  | _ => 0
  end.

(** the real number at position [k] of a vector *)
Definition at_R (v : vector) (k : nat) : R := to_R (nth k v (Fin 0)).

(** Coordinate [j] (0 or 1) of a row, and the row with that coordinate
    replaced. *)
Definition coord (j : nat) (r : row) : num :=
  match j with
  | O => fst r
  | S _ => snd r
  end.

Definition set_coord (j : nat) (v : num) (r : row) : row :=
  match j with
  | O => (v, snd r)
  | S _ => (fst r, v)
  end.

(** the element [x[k, j]], and [x] with that element replaced by [v] *)
Definition entry (x : tensor) (k j : nat) : num := coord j (nth k x (NaN, NaN)).

Fixpoint set_entry (x : tensor) (k j : nat) (v : num) : tensor :=
  match x with
  | [] => []
  | r :: rest =>
      match k with
      | O => set_coord j v r :: rest
      | S k' => r :: set_entry rest k' j v
      end
  end.

(** the real number [forward(x, c)[k, i]] *)
Definition output_entry {C} (self : CouplingBijector.t C) (c : C) (x : tensor)
  (k i : nat) : R :=
  match forward self x c with
  | Ok y => to_R (entry y k i)
  | Raise _ => 0
  end.

(** [D] is the partial derivative, at [x], of coordinate [i] of row [k] of
    the output of the forward transform with respect to coordinate [j] of
    row [k] of its input. *)
Definition partial_derivative {C} (self : CouplingBijector.t C) (c : C) (x : tensor)
  (k i j : nat) (D : R) : Prop :=
  derivable_pt_lim
    (fun v => output_entry self c (set_entry x k j (Fin v)) k i)
    (to_R (entry x k j)) D.

(** the column that a layer transforms and the one that it leaves alone *)
Definition transformed_index {C} (self : CouplingBijector.t C) : nat :=
  if is_odd self then 0%nat else 1%nat.

Definition unchanged_index {C} (self : CouplingBijector.t C) : nat :=
  if is_odd self then 1%nat else 0%nat.

(** a layer of parity "even" that doubles the coordinate it transforms *)
Definition doubling_layer : CouplingBijector.t unit :=
  coupling "even" (constant_net (Fin 3, Fin 5)) (constant_net (Fin (ln 2), Fin 7)).

(** the flow of the default configuration over [mix_net] *)
Definition mix_flow : RealNVPBijector.t unit :=
  RealNVPBijector.__init__ None mix_net mix_net
    RealNVPBijector.default_validate_args.

(** a network that returns one row whatever the batch *)
Definition one_row_net : net unit := fun _ _ _ => [(Fin 0, Fin 0)].

Definition one_row_layer : CouplingBijector.t unit :=
  coupling "even" one_row_net one_row_net.

(** a layer whose parity is neither "even" nor "odd" *)
Definition stray_layer : CouplingBijector.t unit :=
  coupling "Even" (constant_net (Fin 3, Fin 5)) (constant_net (Fin 2, Fin 7)).

(** the last character of a string *)
Fixpoint last_char (s : string) : option Ascii.ascii :=
  match s with
  | EmptyString => None
  | String a EmptyString => Some a
  | String _ rest => last_char rest
  end.

(** a configuration argument that only sets the number of coupling layers *)
Definition with_layers (n : Z) : RealNVPBijector.Overrides :=
  {| RealNVPBijector.o_num_coupling_layers := Some n;
     RealNVPBijector.o_translation_hidden_sizes := None;
     RealNVPBijector.o_scale_hidden_sizes := None;
     RealNVPBijector.o_scale_regularization := None |}.

(** the variable scopes that the layers of a flow open for their networks *)
Definition variable_scopes {C} (flow : RealNVPBijector.t C) : list string :=
  (map CouplingBijector.scale_scope (RealNVPBijector.layers flow)
   ++ map CouplingBijector.translation_scope (RealNVPBijector.layers flow))%list.

(* ================================================================== *)
(** ** [feedforward_net]

    The networks are built out of graph variables.  A tensor of rank 2 of
    any width is kept with its static width; a variable is kept with its
    static shape and its value, row by row (the value of a bias, of shape
    [(n,)], is one row). *)

Record matrix : Type := {
  n_cols : nat;
  m_rows : list (list num)
}.

Record variable : Type := {
  var_shape : list nat;
  var_value : list (list num)
}.

(** the [reuse] argument of [tf.variable_scope] *)
Inductive reuse_mode : Type :=
| NO_REUSE
| REUSE
| AUTO_REUSE.

Record variable_scope : Type := {
  vs_name : string;
  vs_reuse : reuse_mode
}.

(** A regularizer maps a variable to a loss, or to nothing. *)
Definition regularizer_fn : Type := variable -> option num.

(** The state of the graph that [tf.get_variable] reads and extends: the
    variables by full name, in the order of their creation, and the
    collection of the regularization losses. *)
Record graph : Type := {
  variables : list (string * variable);
  regularization_losses : list (string * num)
}.

Fixpoint lookup {A : Type} (name : string) (l : list (string * A)) : option A :=
  match l with
  | [] => None
  | (n, a) :: rest => if String.eqb n name then Some a else lookup name rest
  end.

(** Code that reads and extends the graph and may raise. *)
Definition graph_op (A : Type) : Type := graph -> result (A * graph).

Definition gret {A : Type} (a : A) : graph_op A := fun g => Ok (a, g).

Definition gbind {A B : Type} (m : graph_op A) (k : A -> graph_op B) : graph_op B :=
  fun g =>
    match m g with
    | Ok (a, g') => k a g'
    | Raise e => Raise e
    end.

Definition glift {A : Type} (r : result A) : graph_op A :=
  fun g =>
    match r with
    | Ok a => Ok (a, g)
    | Raise e => Raise e
    end.

Notation "x <~ m ;; k" := (gbind m (fun x => k))
  (at level 61, m at next level, right associativity).

(** the full name of a variable created in a scope *)
Definition full_name (scope : variable_scope) (name : string) : string :=
  if String.eqb (vs_name scope) "" then name
  else String.append (vs_name scope) (String.append "/" name).

(** [tf.get_variable(name, shape, initializer, regularizer)] in a variable
    scope.  [initializer] gives the value that the random initializer draws
    for a new variable.  An existing variable is returned when the scope
    reuses variables and the shape asked for is the shape it has; a new
    variable is created, and its regularization loss collected, when the
    scope does not insist on reuse. *)
Definition get_variable (scope : variable_scope) (name : string) (shape : list nat)
  (initializer : string -> list nat -> list (list num))
  (regularizer : option regularizer_fn) : graph_op variable :=
  fun g =>
    match lookup (full_name scope name) (variables g) with
    | Some v =>
        match vs_reuse scope with
        | NO_REUSE => Raise ValueError
        | _ =>
            if list_eq_dec Nat.eq_dec shape (var_shape v)
            then Ok (v, g) else Raise ValueError
        end
    | None =>
        match vs_reuse scope with
        | REUSE => Raise ValueError
        | _ =>
            let v := {| var_shape := shape;
                        var_value := initializer (full_name scope name) shape |} in
            let losses :=
              match regularizer with
              | Some r =>
                  match r v with
                  | Some loss => [(full_name scope name, loss)]
                  | None => []
                  end
              | None => []
              end in
            Ok (v, {| variables := variables g ++ [(full_name scope name, v)];
                      regularization_losses := regularization_losses g ++ losses |})
        end
    end.

(** the sum of the products of two lists of elements *)
Definition dot (u v : list num) : num :=
  fold_right add (Fin 0) (map (fun p => mul (fst p) (snd p)) (combine u v)).

(** column [j] of a value given row by row *)
Definition column (j : nat) (rows : list (list num)) : list num :=
  map (fun r => nth j r (Fin 0)) rows.

(** [tf.matmul(a, w)] for [a] of shape [[batch, p]] and a variable of shape
    [[p, l]] *)
Definition matmul (a : matrix) (w : variable) : result matrix :=
  match var_shape w with
  | [p; l] =>
      if Nat.eqb (n_cols a) p
      then Ok {| n_cols := l;
                 m_rows := map (fun r => map (fun j => dot r (column j (var_value w)))
                                             (seq 0 l))
                               (m_rows a) |}
      else Raise ValueError
  | _ => Raise ValueError
  end.

(** [z + bias] for [z] of shape [[batch, l]] and a variable of shape [[l]] *)
Definition add_bias (z : matrix) (bias : variable) : result matrix :=
  match var_shape bias with
  | [l] =>
      if Nat.eqb (n_cols z) l
      then Ok {| n_cols := l;
                 m_rows := map (fun r => zip_with add r (hd [] (var_value bias)))
                               (m_rows z) |}
      else Raise ValueError
  | _ => Raise ValueError
  end.

(** [tf.nn.tanh] *)
Definition ntanh (a : num) : num :=
  match a with
  | Fin x => Fin (tanh x)
  | PInf => Fin 1
  | NInf => Fin (-1)
  | NaN => NaN
  end.

Definition tf_tanh (m : matrix) : matrix :=
  {| n_cols := n_cols m; m_rows := map (map ntanh) (m_rows m) |}.

(** ["weight_{i}".format(i=i)] and ["bias_{i}".format(i=i)] *)
Definition weight_name (i : nat) : string :=
  String.append "weight_" (NilZero.string_of_uint (Nat.to_uint i)).

Definition bias_name (i : nat) : string :=
  String.append "bias_" (NilZero.string_of_uint (Nat.to_uint i)).

(** One round of the loop of [feedforward_net]: layer [i] of [len], fed
    [out] of width [prev_size]. *)
Definition feedforward_layer (scope : variable_scope)
  (initializer : string -> list nat -> list (list num))
  (len i prev_size layer_size : nat) (out : matrix)
  (activation_fn output_nonlinearity : option (matrix -> matrix))
  (regularizer : option regularizer_fn) : graph_op matrix :=
  weight <~ get_variable scope (weight_name i) [prev_size; layer_size]
                         initializer regularizer ;;
  bias <~ get_variable scope (bias_name i) [layer_size] initializer None ;;
  product <~ glift (matmul out weight) ;;
  z <~ glift (add_bias product bias) ;;
  match (if Nat.ltb i (len - 1) then activation_fn else None) with
  | Some activation => gret (activation z)
  | None =>
      match (if Nat.eqb i (len - 1) then output_nonlinearity else None) with
      | Some nonlinearity => gret (nonlinearity z)
      | None => gret z
      end
  end.

(** [for i, layer_size in enumerate(layer_sizes)], from index [i] on *)
Fixpoint feedforward_loop (scope : variable_scope)
  (initializer : string -> list nat -> list (list num))
  (len i : nat) (layer_sizes : list nat) (prev_size : nat) (out : matrix)
  (activation_fn output_nonlinearity : option (matrix -> matrix))
  (regularizer : option regularizer_fn) : graph_op matrix :=
  match layer_sizes with
  | [] => gret out
  | layer_size :: rest =>
      out <~ feedforward_layer scope initializer len i prev_size layer_size out
                               activation_fn output_nonlinearity regularizer ;;
      feedforward_loop scope initializer len (S i) rest layer_size out
                       activation_fn output_nonlinearity regularizer
  end.

(** [feedforward_net], called in the variable scope [scope]; its default
    [activation_fn] is [Some tf_tanh], the other two defaults are [None]. *)
Definition feedforward_net (scope : variable_scope)
  (initializer : string -> list nat -> list (list num))
  (inputs : matrix) (layer_sizes : list nat)
  (activation_fn output_nonlinearity : option (matrix -> matrix))
  (regularizer : option regularizer_fn) : graph_op matrix :=
  let prev_size := n_cols inputs in
  feedforward_loop scope initializer (length layer_sizes) 0 layer_sizes prev_size
                   inputs activation_fn output_nonlinearity regularizer.

(** [tf.concat((a, b), axis=1)] *)
Definition concat_axis1 (a b : matrix) : result matrix :=
  if Nat.eqb (length (m_rows a)) (length (m_rows b))
  then Ok {| n_cols := n_cols a + n_cols b;
             m_rows := map (fun p => (fst p ++ snd p)%list)
                           (combine (m_rows a) (m_rows b)) |}
  else Raise ValueError.

(** The hidden sizes followed by the size of the last layer, as the
    dimensions of variables: a negative size is refused when the variable is
    asked for. *)
Definition layer_sizes_of (hidden_sizes : list Z) (last : nat) : result (list nat) :=
  if forallb (fun size => (0 <=? size)%Z) hidden_sizes
  then Ok (map Z.to_nat hidden_sizes ++ [last])%list
  else Raise ValueError.

(** The two closures of [RealNVPBijector.build].  [l2_regularizer] stands
    for [tf.contrib.layers.l2_regularizer]. *)
Definition translation_wrapper (config : RealNVPBijector.Config)
  (scope : variable_scope) (initializer : string -> list nat -> list (list num))
  (inputs observations : matrix) : graph_op matrix :=
  joined <~ glift (concat_axis1 inputs observations) ;;
  layer_sizes <~ glift (layer_sizes_of
                          (RealNVPBijector.translation_hidden_sizes config)
                          (n_cols inputs)) ;;
  feedforward_net scope initializer joined layer_sizes (Some tf_tanh) None None.

Definition scale_wrapper (config : RealNVPBijector.Config)
  (l2_regularizer : R -> regularizer_fn)
  (scope : variable_scope) (initializer : string -> list nat -> list (list num))
  (inputs observations : matrix) : graph_op matrix :=
  joined <~ glift (concat_axis1 inputs observations) ;;
  layer_sizes <~ glift (layer_sizes_of
                          (RealNVPBijector.scale_hidden_sizes config)
                          (n_cols inputs)) ;;
  feedforward_net scope initializer joined layer_sizes (Some tf_tanh) None
    (Some (l2_regularizer (RealNVPBijector.scale_regularization config))).

(** Every variable of [g] is in [g'] under its name, as it was. *)
Definition extends (g g' : graph) : Prop :=
  forall name v, lookup name (variables g) = Some v ->
                 lookup name (variables g') = Some v.

(** the nonlinearity that layer [i] of [len] applies to [z] *)
Definition nonlinearity_of (len i : nat)
  (activation_fn output_nonlinearity : option (matrix -> matrix)) (z : matrix) : matrix :=
  match (if Nat.ltb i (len - 1) then activation_fn else None) with
  | Some activation => activation z
  | None =>
      match (if Nat.eqb i (len - 1) then output_nonlinearity else None) with
      | Some nonlinearity => nonlinearity z
      | None => z
      end
  end.

(** a callable that returns a tensor of the shape of its argument *)
Definition keeps_shape (f : option (matrix -> matrix)) : Prop :=
  forall h z, f = Some h ->
              n_cols (h z) = n_cols z /\ length (m_rows (h z)) = length (m_rows z).

(** finite values *)
Definition rows_finite (rows : list (list num)) : bool :=
  forallb (forallb is_finite) rows.

Definition graph_finite (g : graph) : Prop :=
  forall name v, lookup name (variables g) = Some v -> rows_finite (var_value v) = true.

Definition keeps_finite (f : option (matrix -> matrix)) : Prop :=
  forall h z, f = Some h -> rows_finite (m_rows z) = true ->
              rows_finite (m_rows (h z)) = true.

(** an empty graph, a scope that shares its variables, and an initializer
    that draws ones for weights and twos for biases *)
Definition empty_graph : graph := {| variables := []; regularization_losses := [] |}.

Definition sharing_scope : variable_scope :=
  {| vs_name := "coupling_1/scale"; vs_reuse := AUTO_REUSE |}.

Definition strict_scope : variable_scope :=
  {| vs_name := "coupling_1/scale"; vs_reuse := NO_REUSE |}.

Definition ones_and_twos : string -> list nat -> list (list num) :=
  fun _ shape =>
    match shape with
    | [p; l] => repeat (repeat (Fin 1) l) p
    | [l] => [repeat (Fin 2) l]
    | _ => []
    end.

Definition two_by_two : matrix :=
  {| n_cols := 2; m_rows := [[Fin 1; Fin 2]; [Fin 3; Fin 4]] |}.

Definition two_by_three : matrix :=
  {| n_cols := 3; m_rows := [[Fin 1; Fin 2; Fin 3]; [Fin 4; Fin 5; Fin 6]] |}.

Definition unit_loss : regularizer_fn := fun _ => Some (Fin 1).

(* ================================================================== *)
(** * The experiment script [examples/mujoco_all_sac_real_nvp.py] *)

(** The values of the parameter dictionaries. *)
#[warnings="-register-all"] Inductive value : Type :=
| VInt (n : Z)
| VFloat (x : R)
| VStr (s : string)
| VBool (b : bool)
| VNone
| VTuple (items : list value)
| VList (items : list value).

(** A [dict] with string keys, in the order of insertion. *)
Definition dict (A : Type) : Type := list (string * A).

(** [d[key] = val] *)
Fixpoint dict_set {A : Type} (key : string) (val : A) (d : dict A) : dict A :=
  match d with
  | [] => [(key, val)]
  | (k, v) :: rest =>
      if String.eqb k key then (k, val) :: rest else (k, v) :: dict_set key val rest
  end.

(** [d.update(other)] *)
Definition dict_update {A : Type} (d other : dict A) : dict A :=
  fold_left (fun acc item => dict_set (fst item) (snd item) acc) other d.

(** A call returns or raises [KeyError]. *)
Inductive outcome (A : Type) : Type :=
| Returns (a : A)
| KeyError (key : string).

Arguments Returns {A} a.
Arguments KeyError {A} key.

(** [git_rev] is the revision of the working directory, or [None]. *)
Definition COMMON_PARAMS (git_rev : value) : dict value :=
  [ ("seed", VList [VInt 10; VInt 11; VInt 12; VInt 13; VInt 14]);
    ("lr", VFloat 3e-4);
    ("policy_lr", VFloat 3e-4);
    ("discount", VFloat 0.99);
    ("target_update_interval", VInt 1);
    ("tau", VFloat 1e-2);
    ("layer_size", VInt 128);
    ("batch_size", VInt 128);
    ("max_pool_size", VFloat 1e6);
    ("n_train_repeat", VInt 1);
    ("epoch_length", VInt 1000);
    ("snapshot_mode", VStr "gap");
    ("snapshot_gap", VInt 1000);
    ("sync_pkl", VBool true);
    ("policy_coupling_layers", VInt 2);
    ("policy_s_t_layers", VInt 1);
    ("policy_scale_regularization", VFloat 0.0);
    ("preprocessing_hidden_sizes", VNone);
    ("preprocessing_output_nonlinearity", VStr "relu");
    ("git_sha", git_rev) ].

Definition ENV_PARAMS : dict (dict value) :=
  [ ("multi-direction-swimmer",
     [ ("prefix", VStr "multi-direction-swimmer");
       ("env_name", VStr "multi-direction-swimmer");
       ("epoch_length", VInt 1000);
       ("max_path_length", VInt 1000);
       ("n_epochs", VInt 501);
       ("scale_reward", VFloat 100.0);
       ("preprocessing_hidden_sizes", VTuple [VInt 128; VInt 128; VInt 4]);
       ("policy_s_t_units", VInt 2);
       ("snapshot_gap", VInt 100) ]);
    ("random-goal-swimmer",
     [ ("prefix", VStr "random-goal-swimmer");
       ("env_name", VStr "random-goal-swimmer");
       ("epoch_length", VInt 1000);
       ("max_path_length", VInt 1000);
       ("n_epochs", VInt 5001);
       ("scale_reward", VFloat 100.0);
       ("preprocessing_hidden_sizes", VTuple [VInt 128; VInt 128; VInt 4]);
       ("policy_s_t_units", VInt 2);
       ("snapshot_gap", VInt 500);
       ("env_reward_type", VList [VStr "dense"]);
       ("env_terminate_at_goal", VBool false);
       ("env_goal_reward_weight", VFloat 3e-1);
       ("env_goal_radius", VFloat 0.25);
       ("env_goal_distance", VInt 5);
       ("env_goal_angle_range", VTuple [VFloat (-0.25 * PI); VFloat (0.25 * PI)]) ]);
    ("multi-direction-ant",
     [ ("prefix", VStr "multi-direction-ant");
       ("env_name", VStr "multi-direction-ant");
       ("epoch_length", VInt 1000);
       ("max_path_length", VInt 1000);
       ("n_epochs", VInt 10001);
       ("scale_reward", VFloat 3.0);
       ("preprocessing_hidden_sizes", VTuple [VInt 128; VInt 128; VInt 16]);
       ("policy_s_t_units", VInt 8);
       ("snapshot_gap", VInt 1000) ]);
    ("random-goal-ant",
     [ ("prefix", VStr "random-goal-ant");
       ("env_name", VStr "random-goal-ant");
       ("epoch_length", VInt 1000);
       ("max_path_length", VInt 1000);
       ("n_epochs", VInt 100001);
       ("scale_reward", VFloat 3.0);
       ("preprocessing_hidden_sizes", VTuple [VInt 128; VInt 128; VInt 16]);
       ("policy_s_t_units", VInt 8);
       ("snapshot_gap", VInt 1000);
       ("env_reward_type", VList [VStr "dense"]);
       ("env_terminate_at_goal", VBool false);
       ("env_goal_reward_weight", VFloat 3e-1);
       ("env_goal_radius", VFloat 0.25);
       ("env_goal_distance", VInt 25);
       ("env_goal_angle_range", VTuple [VInt 0; VFloat (2 * PI)]) ]);
    ("multi-direction-humanoid",
     [ ("prefix", VStr "multi-direction-humanoid");
       ("env_name", VStr "multi-direction-humanoid");
       ("epoch_length", VInt 1000);
       ("max_path_length", VInt 1000);
       ("n_epochs", VInt 20001);
       ("scale_reward", VFloat 3.0);
       ("preprocessing_hidden_sizes", VTuple [VInt 128; VInt 128; VInt 42]);
       ("policy_s_t_units", VInt 21);
       ("snapshot_gap", VInt 2000) ]);
    ("random-goal-humanoid",
     [ ("prefix", VStr "random-goal-humanoid");
       ("env_name", VStr "random-goal-humanoid");
       ("epoch_length", VInt 1000);
       ("max_path_length", VInt 1000);
       ("n_epochs", VInt 200001);
       ("scale_reward", VFloat 3.0);
       ("preprocessing_hidden_sizes", VTuple [VInt 128; VInt 128; VInt 42]);
       ("policy_s_t_units", VInt 21);
       ("snapshot_gap", VInt 4000);
       ("env_reward_type", VList [VStr "dense"]);
       ("env_terminate_at_goal", VBool false);
       ("env_goal_reward_weight", VFloat 3e-1);
       ("env_goal_radius", VFloat 0.25);
       ("env_goal_distance", VInt 5);
       ("env_goal_angle_range", VTuple [VInt 0; VFloat (2 * PI)]) ]) ].

Definition DEFAULT_ENV : string := "swimmer".

(** [list(ENV_PARAMS.keys())] *)
Definition AVAILABLE_ENVS : list string := map fst ENV_PARAMS.

(** What [VariantGenerator] keeps: the keys added, each with its list of
    values, in the order of the calls of [add]. *)
Definition VariantGenerator : Type := list (string * list value).

Definition vg_add (key : string) (vals : list value) (vg : VariantGenerator)
  : VariantGenerator :=
  (vg ++ [(key, vals)])%list.

(** [get_variants(args)], where [args.env] is [env].  [params] is the
    dictionary [COMMON_PARAMS] itself, not a copy of it: the function takes
    the dictionary as it is at the call and returns it as the call leaves it,
    with the variant generator. *)
Definition get_variants (env : string) (common_params : dict value)
  : outcome (VariantGenerator * dict value) :=
  match lookup env ENV_PARAMS with
  | None => KeyError env
  | Some env_params =>
      let params := dict_update common_params env_params in
      let vg :=
        fold_left (fun vg item =>
                     match snd item with
                     | VList val => vg_add (fst item) val vg
                     | val => vg_add (fst item) [val] vg
                     end)
                  params [] in
      Returns (vg, params)
  end.

(** the values that [get_variants] adds for a parameter *)
Definition values_of (val : value) : list value :=
  match val with
  | VList items => items
  | _ => [val]
  end.

(** keys that are pairwise different *)
Fixpoint distinct (keys : list string) : bool :=
  match keys with
  | [] => true
  | key :: rest => negb (existsb (String.eqb key) rest) && distinct rest
  end.

(* ================================================================== *)
(** * Properties *)

(** ** Masks *)

Lemma checkerboard_width2 (parity : string) :
  checkerboard [2%nat] parity = Ok [fst (mask_of parity); snd (mask_of parity)].
Proof.
  unfold checkerboard, mask_of.
  destruct (String.eqb parity "even"); reflexivity.
Qed.

Lemma get_mask_eq {C} (self : CouplingBijector.t C) (x : tensor) :
  CouplingBijector.get_mask self x = Ok (mask_of (CouplingBijector.parity self)).
Proof.
  unfold CouplingBijector.get_mask.
  rewrite checkerboard_width2. simpl.
  destruct (mask_of (CouplingBijector.parity self)); reflexivity.
Qed.

(** The mask is one of the two unit rows. *)
Lemma mask_of_cases (parity : string) :
  mask_of parity = (Fin 1, Fin 0) \/ mask_of parity = (Fin 0, Fin 1).
Proof.
  unfold mask_of. destruct (String.eqb parity "even"); auto.
Qed.

(** ** Layers built by the flow *)

Lemma range_length (lo hi : Z) : length (range lo hi) = Z.to_nat (hi - lo).
Proof.
  unfold range. now rewrite length_map, length_seq.
Qed.

Lemma range_nth_error (lo hi : Z) (k : nat) :
  (k < Z.to_nat (hi - lo))%nat ->
  nth_error (range lo hi) k = Some (lo + Z.of_nat k)%Z.
Proof.
  intros Hk. unfold range.
  rewrite nth_error_map, nth_error_nth' with (d := 0%nat) by now rewrite length_seq.
  now rewrite seq_nth.
Qed.

Lemma build_nth_error {C} (config : RealNVPBijector.Config)
  (translation_wrapper scale_wrapper : net C) (i : Z) :
  (1 <= i <= RealNVPBijector.num_coupling_layers config)%Z ->
  nth_error (RealNVPBijector.build config translation_wrapper scale_wrapper)
            (Z.to_nat (i - 1))
  = Some (CouplingBijector.__init__
            (RealNVPBijector.parity_of_index (i mod 2))
            translation_wrapper scale_wrapper
            CouplingBijector.default_validate_args
            (coupling_name i)).
Proof.
  intros Hi. unfold RealNVPBijector.build.
  rewrite nth_error_map.
  rewrite range_nth_error.
  - replace (1 + Z.of_nat (Z.to_nat (i - 1)))%Z with i by lia.
    reflexivity.
  - lia.
Qed.

Lemma build_length {C} (config : RealNVPBijector.Config)
  (translation_wrapper scale_wrapper : net C) :
  length (RealNVPBijector.build config translation_wrapper scale_wrapper)
  = Z.to_nat (RealNVPBijector.num_coupling_layers config).
Proof.
  unfold RealNVPBijector.build. rewrite length_map, range_length.
  f_equal. lia.
Qed.

Lemma parity_of_index_mod2 (i : Z) :
  RealNVPBijector.parity_of_index (i mod 2) = if Z.odd i then "odd" else "even".
Proof.
  rewrite Zmod_odd. destruct (Z.odd i); reflexivity.
Qed.

(** C1, as the specification words it, fails: in the flow of the default
    configuration (two coupling layers) the first layer does not have parity
    "even"; it has parity "odd", and the second one parity "even". *)
Lemma C1_first_layer_is_not_even :
  length (RealNVPBijector.layers plain_flow) = 2%nat /\
  layer_parity plain_flow 1 = Some "odd" /\
  layer_parity plain_flow 2 = Some "even" /\
  layer_parity plain_flow 1 <> Some "even".
Proof.
  repeat split; try reflexivity. discriminate.
Qed.

(** C1 (amended): the flow has [num_coupling_layers] layers and layer [i],
    counted from 1, has the parity of its own index: "odd" when [i] is odd
    and "even" when [i] is even, so the alternation starts at "odd". *)
Theorem C1_layer_parity_follows_index {C} (config : option RealNVPBijector.Overrides)
  (translation_wrapper scale_wrapper : net C) (validate_args : bool) (i : Z) :
  (1 <= i <= RealNVPBijector.num_coupling_layers
               (RealNVPBijector.merge_config config))%Z ->
  length (RealNVPBijector.layers
            (RealNVPBijector.__init__ config translation_wrapper scale_wrapper
                                      validate_args))
  = Z.to_nat (RealNVPBijector.num_coupling_layers
                (RealNVPBijector.merge_config config)) /\
  layer_parity
    (RealNVPBijector.__init__ config translation_wrapper scale_wrapper validate_args) i
  = Some (if Z.odd i then "odd" else "even").
Proof.
  intros Hi. split.
  - apply build_length.
  - unfold layer_parity. cbn [RealNVPBijector.layers RealNVPBijector.__init__].
    rewrite build_nth_error by exact Hi.
    simpl. now rewrite parity_of_index_mod2.
Qed.

Lemma C1_layer_parity_follows_index_witness :
  (1 <= 3 <= 5)%Z /\
  layer_parity
    (RealNVPBijector.__init__
       (Some {| RealNVPBijector.o_num_coupling_layers := Some 5%Z;
                RealNVPBijector.o_translation_hidden_sizes := None;
                RealNVPBijector.o_scale_hidden_sizes := None;
                RealNVPBijector.o_scale_regularization := None |})
       echo_net echo_net false) 3
  = Some "odd".
Proof.
  split; [lia |].
  apply (C1_layer_parity_follows_index
           (Some {| RealNVPBijector.o_num_coupling_layers := Some 5%Z;
                    RealNVPBijector.o_translation_hidden_sizes := None;
                    RealNVPBijector.o_scale_hidden_sizes := None;
                    RealNVPBijector.o_scale_regularization := None |})
           echo_net echo_net false 3).
  simpl. lia.
Defined.

(** ** Validation hooks *)

(** C9: with [validate_args] false, which is the default of both
    constructors, the validation hooks of the coupling layer and of the flow
    return their argument unchanged; with [validate_args] true, [forward],
    [inverse], [forward_log_det_jacobian] and [inverse_log_det_jacobian] of
    both raise [NotImplementedError] and produce no result. *)
Theorem C9_validation_hooks {C} (layer : CouplingBijector.t C)
  (flow : RealNVPBijector.t C) (x : tensor) (c : C) :
  CouplingBijector.default_validate_args = false /\
  RealNVPBijector.default_validate_args = false /\
  (CouplingBijector.validate_args layer = false ->
   CouplingBijector._maybe_assert_valid_x layer x = Ok x /\
   CouplingBijector._maybe_assert_valid_y layer x = Ok x) /\
  (RealNVPBijector.validate_args flow = false ->
   RealNVPBijector._maybe_assert_valid_x flow x = Ok x /\
   RealNVPBijector._maybe_assert_valid_y flow x = Ok x) /\
  (CouplingBijector.validate_args layer = true ->
   forward layer x c = Raise (NotImplementedError "_maybe_assert_valid_x") /\
   forward_log_det_jacobian layer x c
     = Raise (NotImplementedError "_maybe_assert_valid_x") /\
   inverse layer x c = Raise (NotImplementedError "_maybe_assert_valid_y") /\
   inverse_log_det_jacobian layer x c
     = Raise (NotImplementedError "_maybe_assert_valid_y")) /\
  (RealNVPBijector.validate_args flow = true ->
   forward flow x c = Raise (NotImplementedError "_maybe_assert_valid_x") /\
   forward_log_det_jacobian flow x c
     = Raise (NotImplementedError "_maybe_assert_valid_x") /\
   inverse flow x c = Raise (NotImplementedError "_maybe_assert_valid_y") /\
   inverse_log_det_jacobian flow x c
     = Raise (NotImplementedError "_maybe_assert_valid_y")).
Proof.
  split; [reflexivity |]. split; [reflexivity |].
  split; [| split; [| split]].
  - intros Hv.
    unfold CouplingBijector._maybe_assert_valid_x,
      CouplingBijector._maybe_assert_valid_y.
    rewrite Hv. now split.
  - intros Hv.
    unfold RealNVPBijector._maybe_assert_valid_x,
      RealNVPBijector._maybe_assert_valid_y.
    rewrite Hv. now split.
  - intros Hv.
    unfold forward, forward_log_det_jacobian, inverse, inverse_log_det_jacobian.
    cbn [_forward _forward_log_det_jacobian _inverse _inverse_log_det_jacobian
         CouplingBijector_bijector].
    unfold CouplingBijector._forward, CouplingBijector._forward_log_det_jacobian,
      CouplingBijector._inverse, CouplingBijector._inverse_log_det_jacobian,
      CouplingBijector._maybe_assert_valid_x,
      CouplingBijector._maybe_assert_valid_y.
    rewrite Hv. repeat split.
  - intros Hv.
    unfold forward, forward_log_det_jacobian, inverse, inverse_log_det_jacobian.
    cbn [_forward _forward_log_det_jacobian _inverse _inverse_log_det_jacobian
         RealNVPBijector_bijector].
    unfold RealNVPBijector._forward, RealNVPBijector._forward_log_det_jacobian,
      RealNVPBijector._inverse, RealNVPBijector._inverse_log_det_jacobian,
      RealNVPBijector._maybe_assert_valid_x,
      RealNVPBijector._maybe_assert_valid_y.
    rewrite Hv. repeat split.
Qed.

Lemma C9_validation_hooks_witness :
  CouplingBijector._maybe_assert_valid_x plain_layer [(Fin 1, Fin 2)]
    = Ok [(Fin 1, Fin 2)] /\
  RealNVPBijector._maybe_assert_valid_y plain_flow [(Fin 1, Fin 2)]
    = Ok [(Fin 1, Fin 2)] /\
  forward checked_layer [(Fin 1, Fin 2)] tt
    = Raise (NotImplementedError "_maybe_assert_valid_x") /\
  inverse checked_flow [(Fin 1, Fin 2)] tt
    = Raise (NotImplementedError "_maybe_assert_valid_y").
Proof.
  pose proof (C9_validation_hooks plain_layer plain_flow [(Fin 1, Fin 2)] tt)
    as (_ & _ & Hlayer & Hflow & _ & _).
  pose proof (C9_validation_hooks checked_layer checked_flow [(Fin 1, Fin 2)] tt)
    as (_ & _ & _ & _ & Hlayer' & Hflow').
  split; [apply Hlayer; reflexivity |].
  split; [apply Hflow; reflexivity |].
  split; [apply Hlayer'; reflexivity |].
  apply Hflow'; reflexivity.
Defined.

(** ** Elementwise operations on tensors of equal shape *)

Lemma zip_with_length (f : num -> num -> num) (a b : vector) :
  length a = length b -> length (zip_with f a b) = length a.
Proof.
  intros H. unfold zip_with. rewrite length_map, length_combine. lia.
Qed.

Lemma broadcast_same_shape (f : num -> num -> num) (a b : vector) :
  length a = length b -> broadcast f a b = Ok (zip_with f a b).
Proof.
  intros H. unfold broadcast. now rewrite H, Nat.eqb_refl.
Qed.

Lemma stack_axis1_same_shape (a b : vector) :
  length a = length b -> stack_axis1 a b = Ok (combine a b).
Proof.
  intros H. unfold stack_axis1. now rewrite H, Nat.eqb_refl.
Qed.

Lemma stack_axis1_columns (a b : vector) (t : tensor) :
  stack_axis1 a b = Ok t -> col0 t = a /\ col1 t = b.
Proof.
  unfold stack_axis1.
  destruct (Nat.eqb (length a) (length b)) eqn:E; [| discriminate].
  apply Nat.eqb_eq in E. intros [= <-]. clear -E.
  unfold col0, col1. revert b E.
  induction a as [| a0 a IH]; intros [| b0 b] E; try discriminate; [now split |].
  simpl in E. destruct (IH b) as [H0 H1]; [lia |].
  simpl. now rewrite H0, H1.
Qed.

(** ** The four methods of a coupling layer, validation off *)

Lemma coupling_forward_eq {C} (self : CouplingBijector.t C) (x : tensor) (c : C) :
  CouplingBijector.validate_args self = false ->
  forward self x c =
    (exp_scale <- check_numerics (exp_scale_at self x c)
                    "tf.exp(scale) contains NaNs or Infs." ;;
     if String.eqb (CouplingBijector.parity self) "odd" then
       scaled <- broadcast mul (col0 x) (col1 exp_scale) ;;
       moved <- broadcast add scaled (col1 (translation_at self x c)) ;;
       stack_axis1 moved (col1 x)
     else
       scaled <- broadcast mul (col1 x) (col0 exp_scale) ;;
       moved <- broadcast add scaled (col0 (translation_at self x c)) ;;
       stack_axis1 (col0 x) moved).
Proof.
  intros Hv. unfold forward. cbn [_forward CouplingBijector_bijector].
  unfold CouplingBijector._forward, CouplingBijector._maybe_assert_valid_x.
  rewrite Hv, get_mask_eq. reflexivity.
Qed.

Lemma coupling_inverse_eq {C} (self : CouplingBijector.t C) (y : tensor) (c : C) :
  CouplingBijector.validate_args self = false ->
  inverse self y c =
    (if String.eqb (CouplingBijector.parity self) "odd" then
       moved <- broadcast sub (col0 y) (col1 (translation_at self y c)) ;;
       scaled <- broadcast mul moved (map nexp (vneg (col1 (scale_at self y c)))) ;;
       stack_axis1 scaled (col1 y)
     else
       moved <- broadcast sub (col1 y) (col0 (translation_at self y c)) ;;
       scaled <- broadcast mul moved (map nexp (vneg (col0 (scale_at self y c)))) ;;
       stack_axis1 (col0 y) scaled).
Proof.
  intros Hv. unfold inverse. cbn [_inverse CouplingBijector_bijector].
  unfold CouplingBijector._inverse, CouplingBijector._maybe_assert_valid_y.
  rewrite Hv, get_mask_eq. reflexivity.
Qed.

Lemma coupling_fldj_eq {C} (self : CouplingBijector.t C) (x : tensor) (c : C) :
  CouplingBijector.validate_args self = false ->
  forward_log_det_jacobian self x c = Ok (reduce_sum_axis1 (scale_at self x c)).
Proof.
  intros Hv. unfold forward_log_det_jacobian.
  cbn [_forward_log_det_jacobian CouplingBijector_bijector].
  unfold CouplingBijector._forward_log_det_jacobian,
    CouplingBijector._maybe_assert_valid_x.
  rewrite Hv, get_mask_eq. reflexivity.
Qed.

Lemma coupling_ildj_eq {C} (self : CouplingBijector.t C) (y : tensor) (c : C) :
  CouplingBijector.validate_args self = false ->
  inverse_log_det_jacobian self y c
  = Ok (vneg (reduce_sum_axis1 (scale_at self y c))).
Proof.
  intros Hv. unfold inverse_log_det_jacobian.
  cbn [_inverse_log_det_jacobian CouplingBijector_bijector].
  unfold CouplingBijector._inverse_log_det_jacobian,
    CouplingBijector._maybe_assert_valid_y.
  rewrite Hv, get_mask_eq. reflexivity.
Qed.

(** ** Two worked scenarios *)

(** C5: on the input [[1.0, 2.0]], a coupling layer of parity "even" whose
    scale and translation functions return [[0.0, 0.0]] for any input maps
    the input to itself with log-det-Jacobian [0.0]; with a scale function
    returning [[log 2, log 2]] it maps the input to [[1.0, 4.0]] with
    log-det-Jacobian [log 2]. *)
Theorem C5_scenarios {C} (c : C) :
  forward (coupling "even" (constant_net (Fin 0, Fin 0)) (constant_net (Fin 0, Fin 0)))
          [(Fin 1, Fin 2)] c
    = Ok [(Fin 1, Fin 2)] /\
  forward_log_det_jacobian
    (coupling "even" (constant_net (Fin 0, Fin 0)) (constant_net (Fin 0, Fin 0)))
    [(Fin 1, Fin 2)] c
    = Ok [Fin 0] /\
  forward (coupling "even" (constant_net (Fin 0, Fin 0))
                    (constant_net (Fin (ln 2), Fin (ln 2))))
          [(Fin 1, Fin 2)] c
    = Ok [(Fin 1, Fin 4)] /\
  forward_log_det_jacobian
    (coupling "even" (constant_net (Fin 0, Fin 0))
              (constant_net (Fin (ln 2), Fin (ln 2))))
    [(Fin 1, Fin 2)] c
    = Ok [Fin (ln 2)].
Proof.
  cbv -[Rmult Rplus exp ln IZR].
  assert (E2 : exp (1 * ln 2) = 2).
  { rewrite Rmult_1_l. apply exp_ln. lra. }
  repeat split; do 4 f_equal.
  - rewrite Rmult_0_r, exp_0. lra.
  - lra.
  - rewrite E2. lra.
  - lra.
Qed.

(** ** Row by row *)

Ltac by_rows x :=
  induction x as [| ? x IH]; intros [| ? ?] [| ? ?]; simpl; intros;
  try discriminate; try reflexivity; rewrite IH by lia; reflexivity.

Lemma forward_rows_even (x s t : tensor) :
  length s = length x -> length t = length x ->
  combine (col0 x) (zip_with add (zip_with mul (col1 x) (col0 (texp s))) (col0 t))
  = zip3 (forward_row false) x s t.
Proof. revert s t. unfold zip3, zip_with, col0, col1, texp. by_rows x. Qed.

Lemma forward_rows_odd (x s t : tensor) :
  length s = length x -> length t = length x ->
  combine (zip_with add (zip_with mul (col0 x) (col1 (texp s))) (col1 t)) (col1 x)
  = zip3 (forward_row true) x s t.
Proof. revert s t. unfold zip3, zip_with, col0, col1, texp. by_rows x. Qed.

Lemma inverse_rows_even (y s t : tensor) :
  length s = length y -> length t = length y ->
  combine (col0 y)
          (zip_with mul (zip_with sub (col1 y) (col0 t)) (map nexp (vneg (col0 s))))
  = zip3 (inverse_row false) y s t.
Proof. revert s t. unfold zip3, zip_with, col0, col1, vneg. by_rows y. Qed.

Lemma inverse_rows_odd (y s t : tensor) :
  length s = length y -> length t = length y ->
  combine (zip_with mul (zip_with sub (col0 y) (col1 t)) (map nexp (vneg (col1 s))))
          (col1 y)
  = zip3 (inverse_row true) y s t.
Proof. revert s t. unfold zip3, zip_with, col0, col1, vneg. by_rows y. Qed.

Lemma zip3_length (f : row -> row -> row -> row) (x s t : tensor) :
  length s = length x -> length t = length x -> length (zip3 f x s t) = length x.
Proof.
  intros Hs Ht. unfold zip3. rewrite length_map, !length_combine. lia.
Qed.

Lemma col_length (t : tensor) : length (col0 t) = length t /\ length (col1 t) = length t.
Proof. unfold col0, col1. now rewrite !length_map. Qed.

Lemma texp_length (t : tensor) : length (texp t) = length t.
Proof. apply length_map. Qed.

(** ** When the transforms of a coupling layer return *)

Lemma coupling_forward_returns {C} (self : CouplingBijector.t C) (x : tensor) (c : C) :
  CouplingBijector.validate_args self = false ->
  shapes_agree self x c ->
  all_finite (exp_scale_at self x c) = true ->
  forward self x c
  = Ok (zip3 (forward_row (is_odd self)) x (scale_at self x c) (translation_at self x c)).
Proof.
  intros Hv [Hs Ht] Hfin. rewrite coupling_forward_eq by exact Hv.
  unfold check_numerics. unfold all_finite in Hfin. rewrite Hfin.
  cbn [bind]. unfold exp_scale_at, is_odd.
  destruct (col_length x) as [Hx0 Hx1].
  destruct (col_length (texp (scale_at self x c))) as [He0 He1].
  destruct (col_length (translation_at self x c)) as [Ht0 Ht1].
  rewrite texp_length in He0, He1.
  destruct (String.eqb (CouplingBijector.parity self) "odd").
  - rewrite broadcast_same_shape by congruence. cbn [bind].
    rewrite broadcast_same_shape by (rewrite zip_with_length; congruence).
    cbn [bind].
    rewrite stack_axis1_same_shape
      by (rewrite !zip_with_length; try rewrite zip_with_length; congruence).
    now rewrite forward_rows_odd.
  - rewrite broadcast_same_shape by congruence. cbn [bind].
    rewrite broadcast_same_shape by (rewrite zip_with_length; congruence).
    cbn [bind].
    rewrite stack_axis1_same_shape
      by (rewrite !zip_with_length; try rewrite zip_with_length; congruence).
    now rewrite forward_rows_even.
Qed.

Lemma coupling_inverse_returns {C} (self : CouplingBijector.t C) (y : tensor) (c : C) :
  CouplingBijector.validate_args self = false ->
  shapes_agree self y c ->
  inverse self y c
  = Ok (zip3 (inverse_row (is_odd self)) y (scale_at self y c) (translation_at self y c)).
Proof.
  intros Hv [Hs Ht]. rewrite coupling_inverse_eq by exact Hv.
  unfold is_odd.
  destruct (col_length y) as [Hy0 Hy1].
  destruct (col_length (scale_at self y c)) as [Hs0 Hs1].
  destruct (col_length (translation_at self y c)) as [Ht0 Ht1].
  assert (Hn : forall v, length (map nexp (vneg v)) = length v)
    by (intros v; unfold vneg; now rewrite !length_map).
  destruct (String.eqb (CouplingBijector.parity self) "odd").
  - rewrite broadcast_same_shape by congruence. cbn [bind].
    rewrite broadcast_same_shape by (rewrite zip_with_length, ?Hn; congruence).
    cbn [bind].
    rewrite stack_axis1_same_shape
      by (rewrite !zip_with_length; rewrite ?zip_with_length, ?Hn; congruence).
    now rewrite inverse_rows_odd.
  - rewrite broadcast_same_shape by congruence. cbn [bind].
    rewrite broadcast_same_shape by (rewrite zip_with_length, ?Hn; congruence).
    cbn [bind].
    rewrite stack_axis1_same_shape
      by (rewrite !zip_with_length; rewrite ?zip_with_length, ?Hn; congruence).
    now rewrite inverse_rows_even.
Qed.

Lemma coupling_forward_validating {C} (self : CouplingBijector.t C) (x : tensor) (c : C) :
  CouplingBijector.validate_args self = true ->
  forward self x c = Raise (NotImplementedError "_maybe_assert_valid_x").
Proof.
  intros Hv. unfold forward. cbn [_forward CouplingBijector_bijector].
  unfold CouplingBijector._forward, CouplingBijector._maybe_assert_valid_x.
  now rewrite Hv.
Qed.

Lemma coupling_inverse_validating {C} (self : CouplingBijector.t C) (y : tensor) (c : C) :
  CouplingBijector.validate_args self = true ->
  inverse self y c = Raise (NotImplementedError "_maybe_assert_valid_y").
Proof.
  intros Hv. unfold inverse. cbn [_inverse CouplingBijector_bijector].
  unfold CouplingBijector._inverse, CouplingBijector._maybe_assert_valid_y.
  now rewrite Hv.
Qed.

(** ** Which errors the tensor operations raise *)

Lemma broadcast_raises (f : num -> num -> num) (a b : vector) (e : exn) :
  broadcast f a b = Raise e -> e = ValueError.
Proof.
  unfold broadcast. destruct (Nat.eqb (length a) (length b)); [discriminate |].
  destruct a as [| a0 [| a1 a]]; destruct b as [| b0 [| b1 b]];
    try discriminate; now intros [= <-].
Qed.

Lemma stack_axis1_raises (a b : vector) (e : exn) :
  stack_axis1 a b = Raise e -> e = ValueError.
Proof.
  unfold stack_axis1. destruct (Nat.eqb (length a) (length b)); [discriminate |].
  now intros [= <-].
Qed.

Lemma all_finite_false (t : tensor) :
  all_finite t = false <-> contains_nan_or_inf t.
Proof.
  unfold all_finite, contains_nan_or_inf. split.
  - induction t as [| r t IH]; simpl; [discriminate |].
    destruct (row_finite r) eqn:Er; simpl.
    + intros H. destruct (IH H) as (r' & Hin & Hr'). exists r'. auto.
    + intros _. exists r. auto.
  - intros (r & Hin & Hr).
    destruct (forallb row_finite t) eqn:E; [| reflexivity].
    rewrite forallb_forall in E. specialize (E r Hin). congruence.
Qed.

(** ** The unchanged half *)

Ltac step_bind H :=
  match type of H with
  | bind ?m _ = _ =>
      let E := fresh "E" in
      destruct m eqn:E; cbn [bind] in H; [| discriminate H]
  end.

(** C7: the forward and the inverse transform of a coupling layer return
    their input with the half that the layer does not transform left as it
    was: column 1 for parity "odd", column 0 for parity "even".  Both
    transforms do return when validation is off and [scale] and
    [translation] have the shape of the input, the forward one provided
    [exp(scale)] passes its numeric check. *)
Theorem C7_unchanged_half_passes_through {C} (self : CouplingBijector.t C)
  (x : tensor) (c : C) :
  (forall out,
     forward self x c = Ok out \/ inverse self x c = Ok out ->
     (CouplingBijector.parity self = "odd" -> col1 out = col1 x) /\
     (CouplingBijector.parity self = "even" -> col0 out = col0 x)) /\
  (CouplingBijector.validate_args self = false ->
   shapes_agree self x c ->
   (all_finite (exp_scale_at self x c) = true ->
    exists out, forward self x c = Ok out) /\
   (exists out, inverse self x c = Ok out)).
Proof.
  split.
  - intros out H.
    destruct (CouplingBijector.validate_args self) eqn:Hv.
    { destruct H as [H | H];
        [rewrite coupling_forward_validating in H by exact Hv
        | rewrite coupling_inverse_validating in H by exact Hv]; discriminate. }
    destruct H as [H | H].
    + rewrite coupling_forward_eq in H by exact Hv.
      step_bind H.
      split; intros Hp; rewrite Hp in H; cbn [String.eqb Ascii.eqb Bool.eqb] in H;
        do 2 step_bind H; now apply stack_axis1_columns in H.
    + rewrite coupling_inverse_eq in H by exact Hv.
      split; intros Hp; rewrite Hp in H; cbn [String.eqb Ascii.eqb Bool.eqb] in H;
        do 2 step_bind H; now apply stack_axis1_columns in H.
  - intros Hv Hshape. split.
    + intros Hfin. eexists. now apply coupling_forward_returns.
    + eexists. now apply coupling_inverse_returns.
Qed.

Lemma C7_unchanged_half_passes_through_witness :
  (exists out, forward even_layer [(Fin 1, Fin 2)] tt = Ok out /\
               col0 out = col0 [(Fin 1, Fin 2)]) /\
  (exists out, inverse odd_layer [(Fin 1, Fin 2)] tt = Ok out /\
               col1 out = col1 [(Fin 1, Fin 2)]).
Proof.
  pose proof (C7_unchanged_half_passes_through even_layer [(Fin 1, Fin 2)] tt)
    as [Hframe Hreturns].
  pose proof (C7_unchanged_half_passes_through odd_layer [(Fin 1, Fin 2)] tt)
    as [Hframe' Hreturns'].
  split.
  - destruct Hreturns as [Hfwd _];
      [reflexivity | split; reflexivity |].
    destruct Hfwd as [out Hout]; [reflexivity |].
    exists out. split; [exact Hout |].
    apply (Hframe out); [now left | reflexivity].
  - destruct Hreturns' as [_ [out Hout]];
      [reflexivity | split; reflexivity |].
    exists out. split; [exact Hout |].
    apply (Hframe' out); [now right | reflexivity].
Defined.

(** ** The numeric guard *)

(** C8: when [exp(scale)] contains a NaN or an infinity, the forward
    transform of a coupling layer raises an error and returns nothing (with
    validation off, the error of [tf.check_numerics]); when [exp(scale)] is
    finite everywhere, validation is off and [scale] and [translation] have
    the shape of the input, it returns its output. *)
Theorem C8_forward_numeric_guard {C} (self : CouplingBijector.t C)
  (x : tensor) (c : C) :
  (contains_nan_or_inf (exp_scale_at self x c) ->
   (exists e, forward self x c = Raise e) /\
   (CouplingBijector.validate_args self = false ->
    forward self x c
    = Raise (InvalidArgumentError "tf.exp(scale) contains NaNs or Infs."))) /\
  (all_finite (exp_scale_at self x c) = true ->
   CouplingBijector.validate_args self = false ->
   shapes_agree self x c ->
   forward self x c
   = Ok (zip3 (forward_row (is_odd self)) x
              (scale_at self x c) (translation_at self x c))).
Proof.
  split.
  - intros Hbad. apply all_finite_false in Hbad.
    assert (Hraise : CouplingBijector.validate_args self = false ->
                     forward self x c
                     = Raise (InvalidArgumentError
                                "tf.exp(scale) contains NaNs or Infs.")).
    { intros Hv. rewrite coupling_forward_eq by exact Hv.
      unfold check_numerics. unfold all_finite in Hbad. now rewrite Hbad. }
    split; [| exact Hraise].
    destruct (CouplingBijector.validate_args self) eqn:Hv.
    + eexists. now apply coupling_forward_validating.
    + eexists. now apply Hraise.
  - intros Hfin Hv Hshape. now apply coupling_forward_returns.
Qed.

Lemma C8_forward_numeric_guard_witness :
  forward nan_scale_layer [(Fin 1, Fin 2)] tt
    = Raise (InvalidArgumentError "tf.exp(scale) contains NaNs or Infs.") /\
  forward even_layer [(Fin 1, Fin 2)] tt
    = Ok [(Fin 1, Fin (2 * exp (1 * 0) + 1 * 3))].
Proof.
  split.
  - apply (C8_forward_numeric_guard nan_scale_layer [(Fin 1, Fin 2)] tt).
    + exists (NaN, Fin (exp (0 * 0))). split; [left |]; reflexivity.
    + reflexivity.
  - apply (C8_forward_numeric_guard even_layer [(Fin 1, Fin 2)] tt).
    + reflexivity.
    + reflexivity.
    + split; reflexivity.
Defined.

(** C10: the inverse transform of a coupling layer never raises the error of
    the numeric check, whatever [exp(-scale)] contains; with validation off
    and [scale] and [translation] of the shape of the input it returns its
    output, computed from [exp(-scale)] as it is. *)
Theorem C10_inverse_has_no_numeric_guard {C} (self : CouplingBijector.t C)
  (y : tensor) (c : C) :
  (forall msg, inverse self y c <> Raise (InvalidArgumentError msg)) /\
  (CouplingBijector.validate_args self = false ->
   shapes_agree self y c ->
   inverse self y c
   = Ok (zip3 (inverse_row (is_odd self)) y
              (scale_at self y c) (translation_at self y c))).
Proof.
  split.
  - intros msg H.
    destruct (CouplingBijector.validate_args self) eqn:Hv.
    { rewrite coupling_inverse_validating in H by exact Hv. discriminate. }
    rewrite coupling_inverse_eq in H by exact Hv.
    destruct (String.eqb (CouplingBijector.parity self) "odd").
    + destruct (broadcast sub _ _) eqn:E1; cbn [bind] in H;
        [| apply broadcast_raises in E1; congruence].
      destruct (broadcast mul _ _) eqn:E2; cbn [bind] in H;
        [| apply broadcast_raises in E2; congruence].
      apply stack_axis1_raises in H. discriminate.
    + destruct (broadcast sub _ _) eqn:E1; cbn [bind] in H;
        [| apply broadcast_raises in E1; congruence].
      destruct (broadcast mul _ _) eqn:E2; cbn [bind] in H;
        [| apply broadcast_raises in E2; congruence].
      apply stack_axis1_raises in H. discriminate.
  - intros Hv Hshape. now apply coupling_inverse_returns.
Qed.

Lemma C10_inverse_has_no_numeric_guard_witness :
  contains_nan_or_inf
    [(nexp (neg (fst (hd (NaN, NaN) (scale_at nan_scale_layer [(Fin 1, Fin 2)] tt)))),
      Fin 0)] /\
  inverse nan_scale_layer [(Fin 1, Fin 2)] tt = Ok [(Fin 1, NaN)].
Proof.
  split.
  - exists (NaN, Fin 0). split; [left |]; reflexivity.
  - apply (C10_inverse_has_no_numeric_guard nan_scale_layer [(Fin 1, Fin 2)] tt).
    + reflexivity.
    + split; reflexivity.
Defined.

(** ** Order of composition *)

Lemma bind_ok {A} (m : result A) : (a <- m ;; Ok a) = m.
Proof. now destruct m. Qed.

Lemma bind_assoc {A B D} (m : result A) (f : A -> result B) (g : B -> result D) :
  (b <- (a <- m ;; f a) ;; g b) = (a <- m ;; b <- f a ;; g b).
Proof. now destruct m. Qed.

Lemma forward_loop_fold {C} (layers : list (CouplingBijector.t C))
  (m : result tensor) (c : C) :
  fold_left (then_forward c) layers m
  = (out <- m ;; RealNVPBijector.forward_loop layers out c).
Proof.
  revert m. induction layers as [| layer rest IH]; intros m; simpl.
  - now rewrite bind_ok.
  - rewrite IH. unfold then_forward. now rewrite bind_assoc.
Qed.

Lemma inverse_loop_app {C} (first rest : list (CouplingBijector.t C))
  (y : tensor) (c : C) :
  RealNVPBijector.inverse_loop (first ++ rest) y c
  = (out <- RealNVPBijector.inverse_loop first y c ;;
     RealNVPBijector.inverse_loop rest out c).
Proof.
  revert y. induction first as [| layer first IH]; intros y; simpl.
  - reflexivity.
  - destruct (inverse layer y c); simpl; [apply IH | reflexivity].
Qed.

Lemma inverse_loop_fold {C} (layers : list (CouplingBijector.t C))
  (y : tensor) (c : C) :
  RealNVPBijector.inverse_loop (rev layers) y c
  = fold_right (then_inverse c) (Ok y) layers.
Proof.
  induction layers as [| layer rest IH]; simpl.
  - reflexivity.
  - rewrite inverse_loop_app, IH. unfold then_inverse at 2.
    destruct (fold_right (then_inverse c) (Ok y) rest); simpl; [| reflexivity].
    apply bind_ok.
Qed.

Lemma flow_forward_eq {C} (flow : RealNVPBijector.t C) (x : tensor) (c : C) :
  RealNVPBijector.validate_args flow = false ->
  forward flow x c = RealNVPBijector.forward_loop (RealNVPBijector.layers flow) x c.
Proof.
  intros Hv. unfold forward. cbn [_forward RealNVPBijector_bijector].
  unfold RealNVPBijector._forward, RealNVPBijector._maybe_assert_valid_x.
  now rewrite Hv.
Qed.

Lemma flow_inverse_eq {C} (flow : RealNVPBijector.t C) (y : tensor) (c : C) :
  RealNVPBijector.validate_args flow = false ->
  inverse flow y c
  = RealNVPBijector.inverse_loop (rev (RealNVPBijector.layers flow)) y c.
Proof.
  intros Hv. unfold inverse. cbn [_inverse RealNVPBijector_bijector].
  unfold RealNVPBijector._inverse, RealNVPBijector._maybe_assert_valid_y.
  now rewrite Hv.
Qed.

(** C6: with validation off, the forward transform of a flow applies its
    layers from the first to the last, each to the output of the one
    before, and the inverse transform applies their inverses from the last
    layer back to the first; for a flow of two layers,
    [forward(x) = layer2.forward(layer1.forward(x))] and
    [inverse(y) = layer1.inverse(layer2.inverse(y))]. *)
Theorem C6_composition_order {C} (flow : RealNVPBijector.t C) (x : tensor) (c : C) :
  RealNVPBijector.validate_args flow = false ->
  forward flow x c
    = fold_left (then_forward c) (RealNVPBijector.layers flow) (Ok x) /\
  inverse flow x c
    = fold_right (then_inverse c) (Ok x) (RealNVPBijector.layers flow) /\
  (forall layer1 layer2,
     RealNVPBijector.layers flow = [layer1; layer2] ->
     forward flow x c = (out <- forward layer1 x c ;; forward layer2 out c) /\
     inverse flow x c = (out <- inverse layer2 x c ;; inverse layer1 out c)).
Proof.
  intros Hv.
  rewrite flow_forward_eq, flow_inverse_eq by exact Hv.
  rewrite forward_loop_fold, <- inverse_loop_fold. cbn [bind].
  split; [reflexivity |]. split; [reflexivity |].
  intros layer1 layer2 Hlayers. rewrite Hlayers. split.
  - cbn [RealNVPBijector.forward_loop].
    destruct (forward layer1 x c); cbn [bind]; [| reflexivity].
    apply bind_ok.
  - cbn [rev app RealNVPBijector.inverse_loop].
    destruct (inverse layer2 x c); cbn [bind]; [| reflexivity].
    apply bind_ok.
Qed.

Lemma C6_composition_order_witness :
  forward (flow_of [odd_layer; even_layer]) [(Fin 1, Fin 2)] tt
    = (out <- forward odd_layer [(Fin 1, Fin 2)] tt ;; forward even_layer out tt) /\
  inverse (flow_of [odd_layer; even_layer]) [(Fin 1, Fin 2)] tt
    = (out <- inverse even_layer [(Fin 1, Fin 2)] tt ;; inverse odd_layer out tt).
Proof.
  apply (C6_composition_order (flow_of [odd_layer; even_layer]) [(Fin 1, Fin 2)] tt);
    reflexivity.
Defined.

(** ** Finite tensors *)

Lemma row_finite_inv (r : row) :
  row_finite r = true -> exists a b, r = (Fin a, Fin b).
Proof.
  destruct r as [[a | | |] [b | | |]]; try discriminate. intros _. now exists a, b.
Qed.

Lemma all_finite_cons (r : row) (t : tensor) :
  all_finite (r :: t) = true <-> row_finite r = true /\ all_finite t = true.
Proof. unfold all_finite. simpl. apply andb_true_iff. Qed.

Lemma mask_finite (parity : string) : row_finite (mask_of parity) = true.
Proof. unfold mask_of. now destruct (String.eqb parity "even"). Qed.

Lemma mul_mask_r_finite (x : tensor) (parity : string) :
  all_finite x = true -> all_finite (mul_mask_r x (mask_of parity)) = true.
Proof.
  destruct (mask_of_cases parity) as [-> | ->];
    induction x as [| r x IH]; intros H; try reflexivity;
    apply all_finite_cons in H as [Hr Hx];
    apply row_finite_inv in Hr as (a & b & ->);
    simpl; auto.
Qed.

Lemma mul_mask_l_finite (t : tensor) (parity : string) :
  all_finite t = true -> all_finite (mul_mask_l (mask_of parity) t) = true.
Proof.
  destruct (mask_of_cases parity) as [-> | ->];
    induction t as [| r t IH]; intros H; try reflexivity;
    apply all_finite_cons in H as [Hr Ht];
    apply row_finite_inv in Hr as (a & b & ->);
    simpl; auto.
Qed.

Lemma texp_finite (t : tensor) : all_finite t = true -> all_finite (texp t) = true.
Proof.
  induction t as [| r t IH]; intros H; [reflexivity |].
  apply all_finite_cons in H as [Hr Ht].
  apply row_finite_inv in Hr as (a & b & ->).
  simpl. auto.
Qed.

Lemma mul_mask_r_length (x : tensor) (mask : row) :
  length (mul_mask_r x mask) = length x.
Proof. apply length_map. Qed.

Lemma mul_mask_l_length (mask : row) (t : tensor) :
  length (mul_mask_l mask t) = length t.
Proof. apply length_map. Qed.

(** What regularity of a layer gives at a finite input. *)
Lemma regular_layer_at {C} (c : C) (self : CouplingBijector.t C) (x : tensor) :
  regular_layer c self -> all_finite x = true ->
  all_finite (scale_at self x c) = true /\
  all_finite (translation_at self x c) = true /\
  shapes_agree self x c.
Proof.
  intros (Hv & Hs & Ht) Hx.
  pose proof (mul_mask_r_finite x (CouplingBijector.parity self) Hx) as Hm.
  destruct (Hs _ Hm) as [Hs1 Hs2]. destruct (Ht _ Hm) as [Ht1 Ht2].
  unfold shapes_agree, scale_at, translation_at, masked_input in *.
  rewrite !mul_mask_l_length.
  rewrite mul_mask_r_length in Hs2, Ht2.
  repeat split; auto using mul_mask_l_finite.
Qed.

Lemma forward_rows_finite (odd : bool) (x s t : tensor) :
  all_finite x = true -> all_finite s = true -> all_finite t = true ->
  all_finite (zip3 (forward_row odd) x s t) = true.
Proof.
  unfold zip3. revert s t.
  induction x as [| a x IH]; intros [| s0 s] [| t0 t] Hx Hs Ht; try reflexivity.
  apply all_finite_cons in Hx as [Ha Hx].
  apply all_finite_cons in Hs as [Hs0 Hs].
  apply all_finite_cons in Ht as [Ht0 Ht].
  apply row_finite_inv in Ha as (a0 & a1 & ->).
  apply row_finite_inv in Hs0 as (u0 & u1 & ->).
  apply row_finite_inv in Ht0 as (v0 & v1 & ->).
  destruct odd; simpl; now apply IH.
Qed.

(** ** Inverting one coupling layer *)

Lemma exp_cancel (a s t : R) : (a * exp s + t - t) * exp (- s) = a.
Proof.
  replace ((a * exp s + t - t) * exp (- s)) with (a * (exp s * exp (- s))) by ring.
  rewrite <- exp_plus, Rplus_opp_r, exp_0. ring.
Qed.

Lemma inverse_forward_rows (odd : bool) (x s t : tensor) :
  all_finite x = true -> all_finite s = true -> all_finite t = true ->
  length s = length x -> length t = length x ->
  zip3 (inverse_row odd) (zip3 (forward_row odd) x s t) s t = x.
Proof.
  unfold zip3. revert s t.
  induction x as [| a x IH]; intros [| s0 s] [| t0 t] Hx Hs Ht Ls Lt;
    try discriminate; try reflexivity.
  apply all_finite_cons in Hx as [Ha Hx].
  apply all_finite_cons in Hs as [Hs0 Hs].
  apply all_finite_cons in Ht as [Ht0 Ht].
  apply row_finite_inv in Ha as (a0 & a1 & ->).
  apply row_finite_inv in Hs0 as (u0 & u1 & ->).
  apply row_finite_inv in Ht0 as (v0 & v1 & ->).
  simpl in Ls, Lt. simpl. rewrite IH by (auto; lia). f_equal.
  destruct odd; simpl; now rewrite exp_cancel.
Qed.

(** The networks see the same masked input before and after the forward
    transform. *)
Lemma masked_rows_forward (parity : string) (x s t : tensor) :
  all_finite x = true -> all_finite s = true -> all_finite t = true ->
  mul_mask_r
    (zip3 (forward_row (String.eqb parity "odd")) x
          (mul_mask_l (mask_of parity) s) (mul_mask_l (mask_of parity) t))
    (mask_of parity)
  = mul_mask_r (firstn (Nat.min (length s) (length t)) x) (mask_of parity).
Proof.
  intros Hx Hs Ht.
  assert (Hrow : forall a0 a1 u0 u1 v0 v1 : R,
             let m := mask_of parity in
             let a := (Fin a0, Fin a1) in
             let out := forward_row (String.eqb parity "odd") a
                          (mul (fst m) (Fin u0), mul (snd m) (Fin u1))
                          (mul (fst m) (Fin v0), mul (snd m) (Fin v1)) in
             (mul (fst out) (fst m), mul (snd out) (snd m))
             = (mul (fst a) (fst m), mul (snd a) (snd m))).
  { intros. unfold out, a, m, mask_of.
    destruct (String.eqb parity "even"), (String.eqb parity "odd"); simpl;
      f_equal; f_equal;
      rewrite ?Rmult_0_l, ?Rmult_0_r, ?Rmult_1_l, ?Rmult_1_r, ?exp_0; ring. }
  unfold zip3, mul_mask_l, mul_mask_r.
  remember (mask_of parity) as m eqn:Hm.
  revert s t Hs Ht.
  induction x as [| a x IH]; intros [| s0 s] [| t0 t] Hs Ht;
    try reflexivity.
  apply all_finite_cons in Hx as [Ha Hx].
  apply all_finite_cons in Hs as [Hs0 Hs].
  apply all_finite_cons in Ht as [Ht0 Ht].
  apply row_finite_inv in Ha as (a0 & a1 & ->).
  apply row_finite_inv in Hs0 as (u0 & u1 & ->).
  apply row_finite_inv in Ht0 as (v0 & v1 & ->).
  cbn [length Nat.min firstn map combine fst snd].
  rewrite (IH Hx s t Hs Ht). f_equal.
  subst m. apply Hrow.
Qed.

Lemma coupling_round_trip {C} (c : C) (self : CouplingBijector.t C) (x : tensor) :
  regular_layer c self -> all_finite x = true ->
  exists y,
    forward self x c = Ok y /\
    all_finite y = true /\
    length y = length x /\
    masked_input self y = masked_input self x /\
    inverse self y c = Ok x.
Proof.
  intros Hreg Hx.
  destruct (regular_layer_at c self x Hreg Hx) as (Hs & Ht & Hshape).
  pose proof Hreg as (Hv & Hsn & Htn).
  pose proof (mul_mask_r_finite x (CouplingBijector.parity self) Hx) as Hm.
  destruct (Hsn _ Hm) as [Hs1 Hs2]. destruct (Htn _ Hm) as [Ht1 Ht2].
  rewrite mul_mask_r_length in Hs2, Ht2.
  pose proof Hshape as [Ls Lt].
  set (y := zip3 (forward_row (is_odd self)) x (scale_at self x c)
                 (translation_at self x c)).
  assert (Hy : forward self x c = Ok y)
    by (apply coupling_forward_returns; [exact Hv | exact Hshape |];
        now apply texp_finite).
  assert (Ly : length y = length x) by now apply zip3_length.
  assert (Hmask : masked_input self y = masked_input self x).
  { unfold masked_input, y, scale_at, translation_at, is_odd.
    rewrite masked_rows_forward by assumption.
    fold (masked_input self x) in Hs2, Ht2. rewrite Hs2, Ht2, Nat.min_id.
    now rewrite firstn_all. }
  assert (Es : scale_at self y c = scale_at self x c)
    by (unfold scale_at; now rewrite Hmask).
  assert (Et : translation_at self y c = translation_at self x c)
    by (unfold translation_at; now rewrite Hmask).
  exists y. repeat split; auto.
  - now apply forward_rows_finite.
  - rewrite coupling_inverse_returns; auto.
    + rewrite Es, Et. unfold y. now rewrite inverse_forward_rows.
    + unfold shapes_agree. rewrite Es, Et, Ly. exact Hshape.
Qed.

(** ** Inverting a flow *)

Lemma flow_round_trip_loops {C} (c : C) (layers : list (CouplingBijector.t C)) :
  Forall (regular_layer c) layers ->
  forall x, all_finite x = true ->
  exists y,
    RealNVPBijector.forward_loop layers x c = Ok y /\
    all_finite y = true /\
    length y = length x /\
    RealNVPBijector.inverse_loop (rev layers) y c = Ok x.
Proof.
  induction 1 as [| layer rest Hlayer Hrest IH]; intros x Hx.
  - exists x. now repeat split.
  - destruct (coupling_round_trip c layer x Hlayer Hx)
      as (y1 & Hfwd & Hy1 & Ly1 & _ & Hinv).
    destruct (IH y1 Hy1) as (y & Hloop & Hy & Ly & Hback).
    exists y. cbn [RealNVPBijector.forward_loop rev].
    rewrite Hfwd. cbn [bind]. repeat split; auto; [congruence |].
    rewrite inverse_loop_app, Hback. cbn [bind RealNVPBijector.inverse_loop].
    rewrite Hinv. reflexivity.
Qed.

(** ** Regular networks *)

Lemma constant_net_regular {C} (r : row) (scope : string) (c : C) :
  row_finite r = true -> regular_net (constant_net r) scope c.
Proof.
  intros Hr z _. unfold constant_net. split; [| apply length_map].
  induction z as [| a z IH]; [reflexivity |].
  simpl. apply all_finite_cons. now split.
Qed.

Lemma mix_net_regular (scope : string) (c : unit) : regular_net mix_net scope c.
Proof.
  intros z Hz. unfold mix_net. split; [| apply length_map].
  induction z as [| a z IH]; [reflexivity |].
  apply all_finite_cons in Hz as [Ha Hz].
  apply row_finite_inv in Ha as (a0 & a1 & ->).
  simpl. now apply IH.
Qed.

Lemma coupling_regular {C} (parity : string) (translation_fn scale_fn : net C) (c : C) :
  (forall scope, regular_net translation_fn scope c) ->
  (forall scope, regular_net scale_fn scope c) ->
  regular_layer c (coupling parity translation_fn scale_fn).
Proof.
  intros Ht Hs. split; [reflexivity |]. split; [apply Hs | apply Ht].
Qed.

(** The layers that [build] makes out of regular networks are regular. *)
Lemma build_regular {C} (config : RealNVPBijector.Config)
  (translation_wrapper scale_wrapper : net C) (c : C) :
  (forall scope, regular_net translation_wrapper scope c) ->
  (forall scope, regular_net scale_wrapper scope c) ->
  Forall (regular_layer c)
         (RealNVPBijector.build config translation_wrapper scale_wrapper).
Proof.
  intros Ht Hs. unfold RealNVPBijector.build.
  apply Forall_forall. intros layer Hin.
  apply in_map_iff in Hin as (i & <- & _).
  split; [reflexivity |]. split; [apply Hs | apply Ht].
Qed.

(** ** Round trip *)

(** C2: on a finite input, with validation off and networks that are
    regular (finite and shape-preserving on finite tensors, as they are in
    exact arithmetic), the forward transform returns an output on which the
    inverse transform returns the input: [inverse(forward(x, c), c) = x],
    for a coupling layer of any parity and for a flow over any list of
    layers. *)
Theorem C2_inverse_of_forward {C} (layer : CouplingBijector.t C)
  (flow : RealNVPBijector.t C) (x : tensor) (c : C) :
  all_finite x = true ->
  (regular_layer c layer ->
   exists y, forward layer x c = Ok y /\ inverse layer y c = Ok x) /\
  (RealNVPBijector.validate_args flow = false ->
   Forall (regular_layer c) (RealNVPBijector.layers flow) ->
   exists y, forward flow x c = Ok y /\ inverse flow y c = Ok x).
Proof.
  intros Hx. split.
  - intros Hreg.
    destruct (coupling_round_trip c layer x Hreg Hx) as (y & Hy & _ & _ & _ & Hinv).
    now exists y.
  - intros Hv Hreg.
    destruct (flow_round_trip_loops c _ Hreg x Hx) as (y & Hy & _ & _ & Hinv).
    exists y. now rewrite flow_forward_eq, flow_inverse_eq.
Qed.

Lemma C2_inverse_of_forward_witness :
  (exists y, forward mix_even_layer [(Fin 1, Fin 2); (Fin 3, Fin 4)] tt = Ok y /\
             inverse mix_even_layer y tt = Ok [(Fin 1, Fin 2); (Fin 3, Fin 4)]) /\
  (exists y, forward (mix_flow)
                     [(Fin 1, Fin 2); (Fin 3, Fin 4)] tt = Ok y /\
             inverse (mix_flow) y tt
             = Ok [(Fin 1, Fin 2); (Fin 3, Fin 4)]).
Proof.
  pose proof (C2_inverse_of_forward mix_even_layer
                (mix_flow)
                [(Fin 1, Fin 2); (Fin 3, Fin 4)] tt eq_refl) as [Hlayer Hflow].
  split.
  - apply Hlayer. apply coupling_regular; intros scope; apply mix_net_regular.
  - apply Hflow; [reflexivity |].
    apply build_regular; intros scope; apply mix_net_regular.
Defined.

(** ** Finite vectors *)

Lemma vector_finite_cons (a : num) (v : vector) :
  vector_finite (a :: v) = true <-> is_finite a = true /\ vector_finite v = true.
Proof. unfold vector_finite. simpl. apply andb_true_iff. Qed.

Lemma is_finite_inv (a : num) : is_finite a = true -> exists r, a = Fin r.
Proof. destruct a; try discriminate. intros _. now eexists. Qed.

Lemma reduce_sum_finite (t : tensor) :
  all_finite t = true -> vector_finite (reduce_sum_axis1 t) = true.
Proof.
  induction t as [| r t IH]; intros H; [reflexivity |].
  apply all_finite_cons in H as [Hr Ht].
  apply row_finite_inv in Hr as (a & b & ->).
  simpl. now apply IH.
Qed.

Lemma reduce_sum_length (t : tensor) : length (reduce_sum_axis1 t) = length t.
Proof. apply length_map. Qed.

Lemma vneg_length (v : vector) : length (vneg v) = length v.
Proof. apply length_map. Qed.

Lemma vneg_finite (v : vector) : vector_finite v = true -> vector_finite (vneg v) = true.
Proof.
  induction v as [| a v IH]; intros H; [reflexivity |].
  apply vector_finite_cons in H as [Ha Hv].
  apply is_finite_inv in Ha as [r ->]. simpl. now apply IH.
Qed.

Lemma zip_add_finite (u v : vector) :
  vector_finite u = true -> vector_finite v = true ->
  vector_finite (zip_with add u v) = true.
Proof.
  revert v. induction u as [| a u IH]; intros [| b v] Hu Hv; try reflexivity.
  apply vector_finite_cons in Hu as [Ha Hu].
  apply vector_finite_cons in Hv as [Hb Hv].
  apply is_finite_inv in Ha as [r ->]. apply is_finite_inv in Hb as [r' ->].
  unfold zip_with in *. simpl. now apply IH.
Qed.

Lemma at_R_zip_add (u v : vector) (k : nat) :
  length u = length v ->
  vector_finite u = true -> vector_finite v = true ->
  at_R (zip_with add u v) k = at_R u k + at_R v k.
Proof.
  unfold at_R, zip_with. revert v k.
  induction u as [| a u IH]; intros [| b v] k L Hu Hv; try discriminate.
  - destruct k; simpl; lra.
  - apply vector_finite_cons in Hu as [Ha Hu].
    apply vector_finite_cons in Hv as [Hb Hv].
    apply is_finite_inv in Ha as [r ->]. apply is_finite_inv in Hb as [r' ->].
    destruct k as [| k]; simpl; [reflexivity |].
    apply IH; auto.
Qed.

Lemma at_R_vneg (v : vector) (k : nat) :
  vector_finite v = true -> at_R (vneg v) k = - at_R v k.
Proof.
  unfold at_R, vneg. revert k.
  induction v as [| a v IH]; intros k Hv.
  - destruct k; simpl; lra.
  - apply vector_finite_cons in Hv as [Ha Hv].
    apply is_finite_inv in Ha as [r ->].
    destruct k as [| k]; simpl; [reflexivity |]. now apply IH.
Qed.

Lemma vector_zero (v : vector) :
  vector_finite v = true -> (forall k, at_R v k = 0) ->
  v = repeat (Fin 0) (length v).
Proof.
  induction v as [| a v IH]; intros Hv H; [reflexivity |].
  apply vector_finite_cons in Hv as [Ha Hv].
  apply is_finite_inv in Ha as [r ->].
  simpl. f_equal.
  - f_equal. apply (H 0%nat).
  - apply IH; [exact Hv |]. intros k. apply (H (S k)).
Qed.

Lemma at_R_zeros (x : tensor) (k : nat) :
  at_R (reduce_sum_axis1 (zeros_like x)) k = 0.
Proof.
  unfold at_R, reduce_sum_axis1, zeros_like. revert k.
  induction x as [| r x IH]; intros [| k]; simpl; try lra. apply IH.
Qed.

Lemma zeros_finite (x : tensor) :
  vector_finite (reduce_sum_axis1 (zeros_like x)) = true.
Proof. induction x as [| r x IH]; [reflexivity | exact IH]. Qed.

Lemma zeros_length (x : tensor) :
  length (reduce_sum_axis1 (zeros_like x)) = length x.
Proof. unfold reduce_sum_axis1, zeros_like. now rewrite !length_map. Qed.

(** ** Log-det-Jacobians of one coupling layer *)

Lemma coupling_log_dets {C} (c : C) (self : CouplingBijector.t C) (x : tensor) :
  regular_layer c self -> all_finite x = true ->
  exists y d,
    forward self x c = Ok y /\
    all_finite y = true /\
    length y = length x /\
    inverse self y c = Ok x /\
    forward_log_det_jacobian self x c = Ok d /\
    inverse_log_det_jacobian self y c = Ok (vneg d) /\
    d = reduce_sum_axis1 (scale_at self x c) /\
    vector_finite d = true /\
    length d = length x.
Proof.
  intros Hreg Hx.
  destruct (coupling_round_trip c self x Hreg Hx) as (y & Hy & Fy & Ly & Hm & Hinv).
  destruct (regular_layer_at c self x Hreg Hx) as (Hs & _ & [Ls _]).
  pose proof Hreg as (Hv & _).
  exists y, (reduce_sum_axis1 (scale_at self x c)).
  repeat split; auto.
  - now apply coupling_fldj_eq.
  - rewrite coupling_ildj_eq by exact Hv. unfold scale_at. now rewrite Hm.
  - now apply reduce_sum_finite.
  - now rewrite reduce_sum_length.
Qed.

(** ** Log-det-Jacobians of a flow *)

Lemma inverse_log_det_jacobian_loop_app {C} (first rest : list (CouplingBijector.t C))
  (acc : vector) (y : tensor) (c : C) :
  RealNVPBijector.inverse_log_det_jacobian_loop (first ++ rest) acc y c
  = (acc' <- RealNVPBijector.inverse_log_det_jacobian_loop first acc y c ;;
     out <- RealNVPBijector.inverse_loop first y c ;;
     RealNVPBijector.inverse_log_det_jacobian_loop rest acc' out c).
Proof.
  revert acc y. induction first as [| layer first IH]; intros acc y.
  - reflexivity.
  - cbn [app RealNVPBijector.inverse_log_det_jacobian_loop
           RealNVPBijector.inverse_loop].
    destruct (inverse_log_det_jacobian layer y c) as [ldj | e];
      cbn [bind]; [| reflexivity].
    destruct (inverse layer y c) as [out | e]; cbn [bind]; [| reflexivity].
    destruct (assert _) as [[] | e]; cbn [bind]; [| reflexivity].
    destruct (broadcast add acc ldj) as [acc1 | e]; cbn [bind]; [| reflexivity].
    apply IH.
Qed.

Lemma accumulate {A} (acc d : vector) (k : vector -> result A) :
  length acc = length d ->
  (_ <- assert (Nat.eqb (length acc) (length d)) ;;
   acc' <- broadcast add acc d ;; k acc')
  = k (zip_with add acc d).
Proof.
  intros L. rewrite broadcast_same_shape by exact L.
  now rewrite L, Nat.eqb_refl.
Qed.

Lemma flow_log_dets_loops {C} (c : C) (layers : list (CouplingBijector.t C)) :
  Forall (regular_layer c) layers ->
  forall x acc acc',
    all_finite x = true ->
    vector_finite acc = true -> length acc = length x ->
    vector_finite acc' = true -> length acc' = length x ->
    exists y F I,
      RealNVPBijector.forward_loop layers x c = Ok y /\
      all_finite y = true /\ length y = length x /\
      RealNVPBijector.inverse_loop (rev layers) y c = Ok x /\
      RealNVPBijector.forward_log_det_jacobian_loop layers acc x c = Ok F /\
      RealNVPBijector.inverse_log_det_jacobian_loop (rev layers) acc' y c = Ok I /\
      vector_finite F = true /\ length F = length x /\
      vector_finite I = true /\ length I = length x /\
      forall k, at_R F k + at_R I k = at_R acc k + at_R acc' k.
Proof.
  induction 1 as [| layer rest Hlayer Hrest IH];
    intros x acc acc' Hx Facc Lacc Facc' Lacc'.
  - exists x, acc, acc'. now repeat split.
  - destruct (coupling_log_dets c layer x Hlayer Hx)
      as (y1 & d & Hfwd & Fy1 & Ly1 & Hinv & Hfldj & Hildj & _ & Fd & Ld).
    assert (Lad : length acc = length d) by congruence.
    destruct (IH y1 (zip_with add acc d) acc' Fy1)
      as (y & F & Ir & Hloop & Fy & Ly & Hback & HF & HI & FF & LF & FI & LI & Hsum).
    { now apply zip_add_finite. }
    { rewrite zip_with_length; congruence. }
    { exact Facc'. }
    { congruence. }
    assert (LId : length Ir = length (vneg d)) by (rewrite vneg_length; congruence).
    exists y, F, (zip_with add Ir (vneg d)).
    cbn [RealNVPBijector.forward_loop rev
           RealNVPBijector.forward_log_det_jacobian_loop].
    rewrite Hfwd, Hfldj. cbn [bind].
    rewrite inverse_loop_app, inverse_log_det_jacobian_loop_app, Hback, HI.
    cbn [bind RealNVPBijector.inverse_loop
           RealNVPBijector.inverse_log_det_jacobian_loop].
    rewrite Hinv, Hildj. cbn [bind].
    rewrite (accumulate acc d) by exact Lad.
    rewrite (accumulate Ir (vneg d)) by exact LId.
    repeat split; auto; try congruence.
    + apply zip_add_finite; auto using vneg_finite.
    + rewrite zip_with_length; congruence.
    + intros k.
      rewrite at_R_zip_add, at_R_vneg by auto using vneg_finite.
      specialize (Hsum k). rewrite at_R_zip_add in Hsum by auto. lra.
Qed.

(** ** Jacobian consistency *)

(** C3: on a finite input, with validation off and regular networks, the
    forward log-det-Jacobian at [x] and the inverse log-det-Jacobian at
    [forward(x, c)] add up to zero for every element of the batch, for a
    coupling layer of any parity and for a flow over any list of layers. *)
Theorem C3_log_det_jacobians_cancel {C} (layer : CouplingBijector.t C)
  (flow : RealNVPBijector.t C) (x : tensor) (c : C) :
  all_finite x = true ->
  (regular_layer c layer ->
   exists y fldj ildj,
     forward layer x c = Ok y /\
     forward_log_det_jacobian layer x c = Ok fldj /\
     inverse_log_det_jacobian layer y c = Ok ildj /\
     broadcast add fldj ildj = Ok (repeat (Fin 0) (length x))) /\
  (RealNVPBijector.validate_args flow = false ->
   Forall (regular_layer c) (RealNVPBijector.layers flow) ->
   exists y fldj ildj,
     forward flow x c = Ok y /\
     forward_log_det_jacobian flow x c = Ok fldj /\
     inverse_log_det_jacobian flow y c = Ok ildj /\
     broadcast add fldj ildj = Ok (repeat (Fin 0) (length x))).
Proof.
  intros Hx. split.
  - intros Hreg.
    destruct (coupling_log_dets c layer x Hreg Hx)
      as (y & d & Hfwd & _ & _ & _ & Hfldj & Hildj & _ & Fd & Ld).
    exists y, d, (vneg d). repeat split; auto.
    rewrite broadcast_same_shape by now rewrite vneg_length.
    f_equal. rewrite <- Ld.
    rewrite <- (zip_with_length add d (vneg d)) by now rewrite vneg_length.
    apply vector_zero; [auto using zip_add_finite, vneg_finite |].
    intros k. rewrite at_R_zip_add, at_R_vneg;
      auto using vneg_finite, vneg_length. lra.
  - intros Hv Hreg.
    set (zeros := reduce_sum_axis1 (zeros_like x)).
    destruct (flow_log_dets_loops c _ Hreg x zeros zeros Hx
                (zeros_finite x) (zeros_length x) (zeros_finite x) (zeros_length x))
      as (y & F & I & Hloop & _ & Ly & _ & HF & HI & FF & LF & FI & LI & Hsum).
    exists y, F, I.
    rewrite flow_forward_eq by exact Hv. split; [exact Hloop |].
    unfold forward_log_det_jacobian, inverse_log_det_jacobian.
    cbn [_forward_log_det_jacobian _inverse_log_det_jacobian
           RealNVPBijector_bijector].
    unfold RealNVPBijector._forward_log_det_jacobian,
      RealNVPBijector._inverse_log_det_jacobian,
      RealNVPBijector._maybe_assert_valid_x, RealNVPBijector._maybe_assert_valid_y.
    rewrite Hv. cbn [negb bind]. fold zeros. split; [exact HF |].
    split.
    + replace (reduce_sum_axis1 (zeros_like y)) with zeros; [exact HI |].
      unfold zeros, reduce_sum_axis1, zeros_like. rewrite !map_map.
      clear -Ly. revert y Ly.
      induction x as [| r x IH]; intros [| r' y] L; try discriminate;
        [reflexivity |].
      simpl. f_equal. apply IH. now injection L.
    + rewrite broadcast_same_shape by congruence.
      f_equal. rewrite <- LF.
      rewrite <- (zip_with_length add F I) by congruence.
      apply vector_zero; [auto using zip_add_finite |].
      intros k. rewrite at_R_zip_add by (auto; congruence).
      rewrite Hsum. unfold zeros. rewrite at_R_zeros. lra.
Qed.

Lemma C3_log_det_jacobians_cancel_witness :
  (exists y fldj ildj,
     forward mix_odd_layer [(Fin 1, Fin 2); (Fin 3, Fin 4)] tt = Ok y /\
     forward_log_det_jacobian mix_odd_layer [(Fin 1, Fin 2); (Fin 3, Fin 4)] tt
       = Ok fldj /\
     inverse_log_det_jacobian mix_odd_layer y tt = Ok ildj /\
     broadcast add fldj ildj = Ok [Fin 0; Fin 0]) /\
  (exists y fldj ildj,
     forward (mix_flow)
             [(Fin 1, Fin 2); (Fin 3, Fin 4)] tt = Ok y /\
     forward_log_det_jacobian (mix_flow)
                              [(Fin 1, Fin 2); (Fin 3, Fin 4)] tt = Ok fldj /\
     inverse_log_det_jacobian (mix_flow) y tt
       = Ok ildj /\
     broadcast add fldj ildj = Ok [Fin 0; Fin 0]).
Proof.
  pose proof (C3_log_det_jacobians_cancel mix_odd_layer
                (mix_flow)
                [(Fin 1, Fin 2); (Fin 3, Fin 4)] tt eq_refl) as [Hlayer Hflow].
  split.
  - apply Hlayer. apply coupling_regular; intros scope; apply mix_net_regular.
  - apply Hflow; [reflexivity |].
    apply build_regular; intros scope; apply mix_net_regular.
Defined.

(** ** Entries of tensors *)

Lemma set_entry_length (x : tensor) (k j : nat) (v : num) :
  length (set_entry x k j v) = length x.
Proof.
  revert k. induction x as [| r x IH]; intros [| k]; simpl; auto.
Qed.

Lemma set_entry_finite (x : tensor) (k j : nat) (v : R) :
  all_finite x = true -> all_finite (set_entry x k j (Fin v)) = true.
Proof.
  revert k. induction x as [| r x IH]; intros k H; [reflexivity |].
  apply all_finite_cons in H as [Hr Hx].
  apply row_finite_inv in Hr as (a & b & ->).
  destruct k as [| k]; cbn [set_entry]; apply all_finite_cons.
  - split; [now destruct j | exact Hx].
  - split; [reflexivity | now apply IH].
Qed.

Lemma nth_set_entry (x : tensor) (k j : nat) (v : num) (d : row) :
  (k < length x)%nat ->
  nth k (set_entry x k j v) d = set_coord j v (nth k x d).
Proof.
  revert k. induction x as [| r x IH]; intros [| k] Hk; simpl in *; try lia; auto.
  apply IH. lia.
Qed.

Lemma all_finite_nth (x : tensor) (k : nat) (d : row) :
  all_finite x = true -> (k < length x)%nat ->
  exists a b, nth k x d = (Fin a, Fin b).
Proof.
  revert k. induction x as [| r x IH]; intros k H Hk; simpl in Hk; [lia |].
  apply all_finite_cons in H as [Hr Hx].
  destruct k as [| k]; simpl.
  - now apply row_finite_inv.
  - apply IH; [exact Hx | lia].
Qed.

Lemma nth_zip3 (f : row -> row -> row -> row) (x s t : tensor) (k : nat) (d : row) :
  (k < length x)%nat -> length s = length x -> length t = length x ->
  nth k (zip3 f x s t) d = f (nth k x d) (nth k s d) (nth k t d).
Proof.
  unfold zip3. revert s t k.
  induction x as [| a x IH]; intros [| s0 s] [| t0 t] k Hk Ls Lt;
    simpl in *; try lia.
  destruct k as [| k]; [reflexivity |]. apply IH; lia.
Qed.

Lemma nth_mul_mask_l (mask : row) (t : tensor) (k : nat) (d : row) :
  (k < length t)%nat ->
  nth k (mul_mask_l mask t) d
  = (mul (fst mask) (fst (nth k t d)), mul (snd mask) (snd (nth k t d))).
Proof.
  intros Hk. unfold mul_mask_l.
  rewrite nth_indep with (d' := (mul (fst mask) (fst d), mul (snd mask) (snd d)))
    by now rewrite length_map.
  apply (map_nth (fun r => (mul (fst mask) (fst r), mul (snd mask) (snd r)))).
Qed.

Lemma nth_reduce_sum (t : tensor) (k : nat) (d : row) :
  (k < length t)%nat ->
  nth k (reduce_sum_axis1 t) (Fin 0) = add (fst (nth k t d)) (snd (nth k t d)).
Proof.
  intros Hk. unfold reduce_sum_axis1.
  rewrite nth_indep with (d' := add (fst d) (snd d)) by now rewrite length_map.
  apply (map_nth (fun r => add (fst r) (snd r))).
Qed.

(** Replacing an element of the column that the mask zeroes does not change
    the masked input. *)
Lemma masked_set_entry (parity : string) (x : tensor) (k : nat) (v : R) :
  parity = "even" \/ parity = "odd" ->
  all_finite x = true ->
  mul_mask_r (set_entry x k (if String.eqb parity "odd" then 0%nat else 1%nat) (Fin v))
             (mask_of parity)
  = mul_mask_r x (mask_of parity).
Proof.
  intros Hp. revert k.
  induction x as [| r x IH]; intros k H; [reflexivity |].
  apply all_finite_cons in H as [Hr Hx].
  apply row_finite_inv in Hr as (a & b & ->).
  destruct k as [| k]; cbn [set_entry mul_mask_r map].
  - f_equal. destruct Hp as [-> | ->]; simpl; f_equal; f_equal; ring.
  - f_equal. now apply IH.
Qed.

(** ** The Jacobian of a coupling layer *)

Lemma derivable_pt_lim_ext (f g : R -> R) (x l : R) :
  (forall v, f v = g v) -> derivable_pt_lim f x l -> derivable_pt_lim g x l.
Proof.
  intros E H eps Heps. destruct (H eps Heps) as [delta Hd].
  exists delta. intros h Hh Hlt. rewrite <- !E. now apply Hd.
Qed.

Lemma derivable_pt_lim_affine (e t a : R) :
  derivable_pt_lim (fun v => v * e + t) a e.
Proof.
  assert (H : derivable_pt_lim (id * fct_cte e + fct_cte t)%F a (1 * e + a * 0 + 0)).
  { apply derivable_pt_lim_plus; [| apply derivable_pt_lim_const].
    apply derivable_pt_lim_mult;
      [apply derivable_pt_lim_id | apply derivable_pt_lim_const]. }
  replace (1 * e + a * 0 + 0) with e in H by ring.
  revert H. now apply derivable_pt_lim_ext.
Qed.

Lemma output_entry_eq {C} (c : C) (self : CouplingBijector.t C) (x : tensor)
  (k i : nat) (d : row) :
  regular_layer c self -> all_finite x = true -> (k < length x)%nat ->
  output_entry self c x k i
  = to_R (coord i (forward_row (is_odd self) (nth k x d)
                               (nth k (scale_at self x c) d)
                               (nth k (translation_at self x c) d))).
Proof.
  intros Hreg Hx Hk.
  destruct (regular_layer_at c self x Hreg Hx) as (Hs & Ht & Hshape).
  pose proof Hreg as (Hv & _). pose proof Hshape as [Ls Lt].
  unfold output_entry.
  rewrite coupling_forward_returns by (auto; now apply texp_finite).
  unfold entry.
  rewrite (nth_indep _ _ d) by (rewrite zip3_length; auto).
  now rewrite nth_zip3.
Qed.

Lemma jacobian_entries {C} (c : C) (self : CouplingBijector.t C) (x : tensor) (k : nat) :
  regular_layer c self -> all_finite x = true -> (k < length x)%nat ->
  CouplingBijector.parity self = "even" \/ CouplingBijector.parity self = "odd" ->
  let j := transformed_index self in
  let u := unchanged_index self in
  let sigma := at_R (reduce_sum_axis1 (scale_at self x c)) k in
  partial_derivative self c x k j j (exp sigma) /\
  partial_derivative self c x k u u 1 /\
  partial_derivative self c x k u j 0.
Proof.
  intros Hreg Hx Hk Hp j u sigma.
  set (d := (NaN, NaN) : row).
  destruct (all_finite_nth x k d Hx Hk) as (a0 & a1 & Ha).
  pose proof Hreg as (Hv & Hsn & Htn).
  pose proof (mul_mask_r_finite x (CouplingBijector.parity self) Hx) as Hm.
  fold (masked_input self x) in Hm.
  destruct (Hsn _ Hm) as [FS LS]. destruct (Htn _ Hm) as [FT LT].
  unfold masked_input in LS, LT. rewrite mul_mask_r_length in LS, LT.
  fold (masked_input self x) in LS, LT.
  destruct (all_finite_nth _ k d FS) as (S0 & S1 & HS); [lia |].
  destruct (all_finite_nth _ k d FT) as (T0 & T1 & HT); [lia |].
  assert (Hscale : nth k (scale_at self x c) d
                   = (mul (fst (mask_of (CouplingBijector.parity self))) (Fin S0),
                      mul (snd (mask_of (CouplingBijector.parity self))) (Fin S1))).
  { unfold scale_at. rewrite nth_mul_mask_l by lia. now rewrite HS. }
  assert (Htrans : nth k (translation_at self x c) d
                   = (mul (fst (mask_of (CouplingBijector.parity self))) (Fin T0),
                      mul (snd (mask_of (CouplingBijector.parity self))) (Fin T1))).
  { unfold translation_at. rewrite nth_mul_mask_l by lia. now rewrite HT. }
  assert (Hsigma : sigma = to_R (add (fst (nth k (scale_at self x c) d))
                                     (snd (nth k (scale_at self x c) d)))).
  { unfold sigma, at_R. rewrite (nth_reduce_sum _ _ d); [reflexivity |].
    unfold scale_at. rewrite mul_mask_l_length. lia. }
  rewrite Hscale in Hsigma.
  (* varying the transformed element leaves the networks' input alone *)
  assert (Hvary : forall v i,
             output_entry self c (set_entry x k j (Fin v)) k i
             = to_R (coord i (forward_row (is_odd self)
                                (set_coord j (Fin v) (Fin a0, Fin a1))
                                (nth k (scale_at self x c) d)
                                (nth k (translation_at self x c) d)))).
  { intros v i.
    rewrite (output_entry_eq c self _ k i d Hreg)
      by (rewrite ?set_entry_length; auto using set_entry_finite).
    rewrite nth_set_entry, Ha by exact Hk.
    unfold scale_at, translation_at, masked_input, j, transformed_index, is_odd.
    now rewrite masked_set_entry. }
  (* varying the other element changes them, but not the element itself *)
  assert (Hkeep : forall v,
             output_entry self c (set_entry x k u (Fin v)) k u = v).
  { intros v.
    rewrite (output_entry_eq c self _ k u d Hreg)
      by (rewrite ?set_entry_length; auto using set_entry_finite).
    rewrite nth_set_entry, Ha by exact Hk.
    unfold u, unchanged_index. now destruct (is_odd self). }
  unfold partial_derivative, entry. fold d. rewrite Ha.
  rewrite Hscale, Htrans in Hvary.
  clear Hscale Htrans Hm Hsn Htn FS LS FT LT HS HT.
  unfold j, u, transformed_index, unchanged_index, is_odd, mask_of in *.
  destruct Hp as [Hp | Hp]; rewrite Hp in *;
    cbn [String.eqb Ascii.eqb Bool.eqb fst snd coord mul add to_R] in *.
  - repeat split.
    + apply (derivable_pt_lim_ext (fun v => v * exp (1 * S0) + 1 * T0));
        [intros v; now rewrite Hvary |].
      replace sigma with (1 * S0) by (rewrite Hsigma; ring).
      apply derivable_pt_lim_affine.
    + apply (derivable_pt_lim_ext id); [intros v; now rewrite Hkeep |].
      apply derivable_pt_lim_id.
    + apply (derivable_pt_lim_ext (fct_cte a0)); [intros v; now rewrite Hvary |].
      apply derivable_pt_lim_const.
  - repeat split.
    + apply (derivable_pt_lim_ext (fun v => v * exp (1 * S1) + 1 * T1));
        [intros v; now rewrite Hvary |].
      replace sigma with (1 * S1) by (rewrite Hsigma; ring).
      apply derivable_pt_lim_affine.
    + apply (derivable_pt_lim_ext id); [intros v; now rewrite Hkeep |].
      apply derivable_pt_lim_id.
    + apply (derivable_pt_lim_ext (fct_cte a1)); [intros v; now rewrite Hvary |].
      apply derivable_pt_lim_const.
Qed.

(** C4: the forward log-det-Jacobian of a coupling layer is the sum, over
    the axis after the batch axis, of the masked scale values; and, for a
    layer of parity "even" or "odd" with regular networks at a finite input,
    that sum is, for every batch element [k], the logarithm of the absolute
    value of the determinant of the Jacobian of the forward transform: the
    transformed coordinate has derivative [exp] of the sum with respect to
    itself, the unchanged coordinate has derivative 1 with respect to itself
    and 0 with respect to the transformed one, so that whatever the fourth
    entry of the Jacobian is, the logarithm of its determinant is the sum. *)
Theorem C4_forward_log_det_is_log_det_of_jacobian {C} (self : CouplingBijector.t C)
  (x : tensor) (c : C) (k : nat) :
  CouplingBijector.validate_args self = false ->
  forward_log_det_jacobian self x c = Ok (reduce_sum_axis1 (scale_at self x c)) /\
  (regular_layer c self ->
   all_finite x = true ->
   (k < length x)%nat ->
   CouplingBijector.parity self = "even" \/ CouplingBijector.parity self = "odd" ->
   let j := transformed_index self in
   let u := unchanged_index self in
   let log_det := at_R (reduce_sum_axis1 (scale_at self x c)) k in
   partial_derivative self c x k j j (exp log_det) /\
   partial_derivative self c x k u u 1 /\
   partial_derivative self c x k u j 0 /\
   forall J00 J01 J10 J11,
     partial_derivative self c x k 0 0 J00 ->
     partial_derivative self c x k 0 1 J01 ->
     partial_derivative self c x k 1 0 J10 ->
     partial_derivative self c x k 1 1 J11 ->
     ln (Rabs (J00 * J11 - J01 * J10)) = log_det).
Proof.
  intros Hv. split; [now apply coupling_fldj_eq |].
  intros Hreg Hx Hk Hp j u log_det.
  destruct (jacobian_entries c self x k Hreg Hx Hk Hp) as (Hjj & Huu & Huj).
  fold j u log_det in Hjj, Huu, Huj.
  repeat split; auto.
  intros J00 J01 J10 J11 H00 H01 H10 H11.
  assert (Hdet : J00 * J11 - J01 * J10 = exp log_det).
  { unfold j, u, transformed_index, unchanged_index in Hjj, Huu, Huj.
    unfold partial_derivative in *.
    destruct (is_odd self).
    - rewrite (uniqueness_limite _ _ _ _ H00 Hjj),
        (uniqueness_limite _ _ _ _ H11 Huu),
        (uniqueness_limite _ _ _ _ H10 Huj). ring.
    - rewrite (uniqueness_limite _ _ _ _ H11 Hjj),
        (uniqueness_limite _ _ _ _ H00 Huu),
        (uniqueness_limite _ _ _ _ H01 Huj). ring. }
  rewrite Hdet, Rabs_right by (left; apply exp_pos).
  apply ln_exp.
Qed.

Lemma C4_forward_log_det_is_log_det_of_jacobian_witness :
  forward_log_det_jacobian doubling_layer [(Fin 1, Fin 2)] tt
    = Ok [Fin (1 * ln 2 + 0 * 7)] /\
  partial_derivative doubling_layer tt [(Fin 1, Fin 2)] 0 1 1
    (exp (1 * ln 2 + 0 * 7)) /\
  ln (Rabs (1 * exp (1 * ln 2 + 0 * 7) - 0 * 0)) = 1 * ln 2 + 0 * 7.
Proof.
  pose proof (C4_forward_log_det_is_log_det_of_jacobian doubling_layer
                [(Fin 1, Fin 2)] tt 0 eq_refl) as [Hldj Hjac].
  split; [exact Hldj |].
  destruct Hjac as (Hjj & Huu & Huj & Hdet).
  - apply coupling_regular; intros scope; now apply constant_net_regular.
  - reflexivity.
  - simpl. lia.
  - now left.
  - split; [exact Hjj |].
    apply (Hdet 1 0 0 (exp (1 * ln 2 + 0 * 7))).
    + exact Huu.
    + exact Huj.
    + apply (derivable_pt_lim_const (2 * exp (1 * ln 2) + 1 * 3)).
    + exact Hjj.
Defined.

(** * Further properties of the code *)

(** ** [checkerboard] on any shape *)

Lemma tile_length {A} (unit : list A) (n : nat) :
  length (tile unit n) = (n * length unit)%nat.
Proof.
  unfold tile. induction n as [| n IH]; simpl; [reflexivity |].
  rewrite length_app, IH. reflexivity.
Qed.

Lemma tile_pair_nth {A} (a b d : A) (n k : nat) :
  (k < 2 * n)%nat ->
  nth k (tile [a; b] n) d = if Nat.even k then a else b.
Proof.
  unfold tile. revert k. induction n as [| n IH]; intros k Hk; [lia |].
  destruct k as [| [| k]]; simpl; try reflexivity.
  apply IH. lia.
Qed.

Lemma even_double_half (n : nat) : Nat.even n = true -> (2 * (n / 2) = n)%nat.
Proof.
  intros H. apply Nat.even_spec in H. destruct H as [m ->].
  rewrite (Nat.mul_comm 2 m), Nat.div_mul by lia. lia.
Qed.

Lemma odd_double_half (n : nat) : Nat.even n = false -> (2 * (n / 2) <> n)%nat.
Proof.
  intros H E. rewrite <- E, Nat.even_mul in H. discriminate.
Qed.

Lemma checkerboard_unit_length (parity : string) :
  length (if String.eqb parity "even" then [true; false] else [false; true]) = 2%nat.
Proof. now destruct (String.eqb parity "even"). Qed.

Lemma checkerboard_fits (shape : list nat) (parity : string) :
  (2 * (np_prod shape / 2) = np_prod shape)%nat ->
  checkerboard shape parity
  = Ok (map cast (tile (if String.eqb parity "even"
                        then [true; false] else [false; true])
                       (np_prod shape / 2))).
Proof.
  intros E. unfold checkerboard.
  rewrite tile_length, checkerboard_unit_length.
  replace (np_prod shape / 2 * 2)%nat with (np_prod shape) by lia.
  now rewrite Nat.eqb_refl.
Qed.

(** X1: [checkerboard] returns a mask exactly when the shape holds an even
    number of elements: the mask then has that many elements and otherwise
    the reshape of the tiled pair fails. *)
Theorem checkerboard_needs_even_size (shape : list nat) (parity : string) :
  (Nat.even (np_prod shape) = true ->
   exists mask, checkerboard shape parity = Ok mask /\
                length mask = np_prod shape) /\
  (Nat.even (np_prod shape) = false ->
   exists e, checkerboard shape parity = Raise e).
Proof.
  split; intros H.
  - pose proof (even_double_half _ H) as E.
    rewrite checkerboard_fits by exact E.
    eexists. split; [reflexivity |].
    rewrite length_map, tile_length, checkerboard_unit_length. lia.
  - pose proof (odd_double_half _ H) as E.
    unfold checkerboard. rewrite tile_length, checkerboard_unit_length.
    destruct (Nat.eqb_spec (np_prod shape / 2 * 2) (np_prod shape)) as [E' | _];
      [lia | now eexists].
Qed.

Lemma checkerboard_needs_even_size_witness :
  (exists mask, checkerboard [2; 3]%nat "odd" = Ok mask /\ length mask = 6%nat) /\
  (exists e, checkerboard [3]%nat "even" = Raise e).
Proof.
  split.
  - apply (checkerboard_needs_even_size [2; 3]%nat "odd"). reflexivity.
  - apply (checkerboard_needs_even_size [3]%nat "even"). reflexivity.
Defined.

(** X2: The mask alternates along the flattened tensor: for parity "even" the
    elements at even positions are 1 and the others 0, for any other parity
    it is the other way round; so the masks of the parities "even" and "odd"
    never both keep a position and together keep every position. *)
Theorem checkerboard_alternates (shape : list nat) (parity : string)
  (mask : list num) (k : nat) :
  checkerboard shape parity = Ok mask ->
  (k < np_prod shape)%nat ->
  nth k mask NaN
  = cast (if String.eqb parity "even" then Nat.even k else Nat.odd k) /\
  exists even_mask odd_mask,
    checkerboard shape "even" = Ok even_mask /\
    checkerboard shape "odd" = Ok odd_mask /\
    add (nth k even_mask NaN) (nth k odd_mask NaN) = Fin 1 /\
    mul (nth k even_mask NaN) (nth k odd_mask NaN) = Fin 0.
Proof.
  intros H Hk.
  assert (Hsize : (2 * (np_prod shape / 2) = np_prod shape)%nat).
  { unfold checkerboard in H.
    rewrite tile_length, checkerboard_unit_length in H.
    destruct (Nat.eqb_spec (np_prod shape / 2 * 2) (np_prod shape)) as [E | E];
      [lia | discriminate]. }
  assert (Hnth : forall p,
             nth k (map cast (tile (if String.eqb p "even"
                                    then [true; false] else [false; true])
                                   (np_prod shape / 2))) NaN
             = cast (if String.eqb p "even" then Nat.even k else Nat.odd k)).
  { intros p.
    rewrite nth_indep with (d' := cast false)
      by (rewrite length_map, tile_length, checkerboard_unit_length; lia).
    rewrite map_nth. unfold Nat.odd.
    destruct (String.eqb p "even"); rewrite tile_pair_nth by lia;
      now destruct (Nat.even k). }
  split.
  - rewrite checkerboard_fits in H by exact Hsize. injection H as <-. apply Hnth.
  - do 2 eexists.
    split; [now apply checkerboard_fits |].
    split; [now apply checkerboard_fits |].
    rewrite !Hnth. cbn [String.eqb Ascii.eqb Bool.eqb]. unfold Nat.odd.
    destruct (Nat.even k); simpl; split; f_equal; ring.
Qed.

Lemma checkerboard_alternates_witness :
  nth 3 [Fin 0; Fin 1; Fin 0; Fin 1] NaN = cast (Nat.odd 3).
Proof.
  apply (checkerboard_alternates [2; 2]%nat "odd" [Fin 0; Fin 1; Fin 0; Fin 1] 3).
  - reflexivity.
  - simpl. lia.
Defined.

(** ** The batch size *)

Lemma stack_axis1_length (a b : vector) (t : tensor) :
  stack_axis1 a b = Ok t -> length t = length a /\ length t = length b.
Proof.
  unfold stack_axis1.
  destruct (Nat.eqb_spec (length a) (length b)) as [E | _]; [| discriminate].
  intros [= <-]. unfold row. rewrite length_combine. lia.
Qed.

Lemma coupling_forward_length {C} (self : CouplingBijector.t C) (x y : tensor) (c : C) :
  forward self x c = Ok y -> length y = length x.
Proof.
  intros H.
  destruct (CouplingBijector.validate_args self) eqn:Hv.
  { rewrite coupling_forward_validating in H by exact Hv. discriminate. }
  rewrite coupling_forward_eq in H by exact Hv.
  step_bind H.
  destruct (String.eqb (CouplingBijector.parity self) "odd");
    do 2 step_bind H; apply stack_axis1_length in H as [H0 H1];
    destruct (col_length x) as [L0 L1]; congruence.
Qed.

Lemma coupling_inverse_length {C} (self : CouplingBijector.t C) (y x : tensor) (c : C) :
  inverse self y c = Ok x -> length x = length y.
Proof.
  intros H.
  destruct (CouplingBijector.validate_args self) eqn:Hv.
  { rewrite coupling_inverse_validating in H by exact Hv. discriminate. }
  rewrite coupling_inverse_eq in H by exact Hv.
  destruct (String.eqb (CouplingBijector.parity self) "odd");
    do 2 step_bind H; apply stack_axis1_length in H as [H0 H1];
    destruct (col_length y) as [L0 L1]; congruence.
Qed.

Lemma forward_loop_length {C} (layers : list (CouplingBijector.t C))
  (x y : tensor) (c : C) :
  RealNVPBijector.forward_loop layers x c = Ok y -> length y = length x.
Proof.
  revert x. induction layers as [| layer rest IH]; intros x H.
  - now injection H as <-.
  - cbn [RealNVPBijector.forward_loop] in H. step_bind H.
    apply coupling_forward_length in E. apply IH in H. congruence.
Qed.

Lemma inverse_loop_length {C} (layers : list (CouplingBijector.t C))
  (y x : tensor) (c : C) :
  RealNVPBijector.inverse_loop layers y c = Ok x -> length x = length y.
Proof.
  revert y. induction layers as [| layer rest IH]; intros y H.
  - now injection H as <-.
  - cbn [RealNVPBijector.inverse_loop] in H. step_bind H.
    apply coupling_inverse_length in E. apply IH in H. congruence.
Qed.

Lemma assert_ok (b : bool) (u : unit) : assert b = Ok u -> b = true.
Proof. now destruct b. Qed.

Lemma accumulate_length (acc d acc' : vector) :
  assert (Nat.eqb (length acc) (length d)) = Ok tt ->
  broadcast add acc d = Ok acc' ->
  length acc' = length acc.
Proof.
  intros Ha Hb. apply assert_ok, Nat.eqb_eq in Ha.
  rewrite broadcast_same_shape in Hb by exact Ha.
  injection Hb as <-. now apply zip_with_length.
Qed.

Lemma forward_log_det_jacobian_loop_length {C} (layers : list (CouplingBijector.t C))
  (acc v : vector) (x : tensor) (c : C) :
  RealNVPBijector.forward_log_det_jacobian_loop layers acc x c = Ok v ->
  length v = length acc.
Proof.
  revert acc x. induction layers as [| layer rest IH]; intros acc x H.
  - now injection H as <-.
  - cbn [RealNVPBijector.forward_log_det_jacobian_loop] in H.
    do 4 step_bind H. destruct a1.
    apply IH in H. rewrite H. eapply accumulate_length; eassumption.
Qed.

Lemma inverse_log_det_jacobian_loop_length {C} (layers : list (CouplingBijector.t C))
  (acc v : vector) (y : tensor) (c : C) :
  RealNVPBijector.inverse_log_det_jacobian_loop layers acc y c = Ok v ->
  length v = length acc.
Proof.
  revert acc y. induction layers as [| layer rest IH]; intros acc y H.
  - now injection H as <-.
  - cbn [RealNVPBijector.inverse_log_det_jacobian_loop] in H.
    do 4 step_bind H. destruct a1.
    apply IH in H. rewrite H. eapply accumulate_length; eassumption.
Qed.

Lemma flow_validating {C} (flow : RealNVPBijector.t C) (x : tensor) (c : C) :
  RealNVPBijector.validate_args flow = true ->
  (exists e, forward flow x c = Raise e) /\
  (exists e, inverse flow x c = Raise e) /\
  (exists e, forward_log_det_jacobian flow x c = Raise e) /\
  (exists e, inverse_log_det_jacobian flow x c = Raise e).
Proof.
  intros Hv.
  unfold forward, forward_log_det_jacobian, inverse, inverse_log_det_jacobian.
  cbn [_forward _forward_log_det_jacobian _inverse _inverse_log_det_jacobian
         RealNVPBijector_bijector].
  unfold RealNVPBijector._forward, RealNVPBijector._forward_log_det_jacobian,
    RealNVPBijector._inverse, RealNVPBijector._inverse_log_det_jacobian,
    RealNVPBijector._maybe_assert_valid_x, RealNVPBijector._maybe_assert_valid_y.
  rewrite Hv. cbn [negb bind]. repeat split; eexists; reflexivity.
Qed.

Lemma flow_fldj_eq {C} (flow : RealNVPBijector.t C) (x : tensor) (c : C) :
  RealNVPBijector.validate_args flow = false ->
  forward_log_det_jacobian flow x c
  = RealNVPBijector.forward_log_det_jacobian_loop
      (RealNVPBijector.layers flow) (reduce_sum_axis1 (zeros_like x)) x c.
Proof.
  intros Hv. unfold forward_log_det_jacobian.
  cbn [_forward_log_det_jacobian RealNVPBijector_bijector].
  unfold RealNVPBijector._forward_log_det_jacobian,
    RealNVPBijector._maybe_assert_valid_x.
  now rewrite Hv.
Qed.

Lemma flow_ildj_eq {C} (flow : RealNVPBijector.t C) (y : tensor) (c : C) :
  RealNVPBijector.validate_args flow = false ->
  inverse_log_det_jacobian flow y c
  = RealNVPBijector.inverse_log_det_jacobian_loop
      (rev (RealNVPBijector.layers flow)) (reduce_sum_axis1 (zeros_like y)) y c.
Proof.
  intros Hv. unfold inverse_log_det_jacobian.
  cbn [_inverse_log_det_jacobian RealNVPBijector_bijector].
  unfold RealNVPBijector._inverse_log_det_jacobian,
    RealNVPBijector._maybe_assert_valid_y.
  now rewrite Hv.
Qed.

(** X3: Whatever the networks return, a transform that returns keeps the batch
    size: the output of [forward] and [inverse] of a layer and of a flow has
    as many rows as the input, and the log-det-Jacobians of a flow have one
    element per row of the input. *)
Theorem batch_size_is_kept {C} (layer : CouplingBijector.t C)
  (flow : RealNVPBijector.t C) (x : tensor) (c : C) :
  (forall out, forward layer x c = Ok out \/ inverse layer x c = Ok out ->
               length out = length x) /\
  (forall out, forward flow x c = Ok out \/ inverse flow x c = Ok out ->
               length out = length x) /\
  (forall ldj, forward_log_det_jacobian flow x c = Ok ldj \/
               inverse_log_det_jacobian flow x c = Ok ldj ->
               length ldj = length x).
Proof.
  split; [| split].
  - intros out [H | H];
      [eapply coupling_forward_length | eapply coupling_inverse_length]; eassumption.
  - intros out H.
    destruct (RealNVPBijector.validate_args flow) eqn:Hv.
    { destruct (flow_validating flow x c Hv) as ([e He] & [e' He'] & _).
      destruct H as [H | H]; congruence. }
    rewrite flow_forward_eq, flow_inverse_eq in H by exact Hv.
    destruct H as [H | H];
      [eapply forward_loop_length | eapply inverse_loop_length]; eassumption.
  - intros ldj H.
    destruct (RealNVPBijector.validate_args flow) eqn:Hv.
    { destruct (flow_validating flow x c Hv) as (_ & _ & [e He] & [e' He']).
      destruct H as [H | H]; congruence. }
    rewrite flow_fldj_eq, flow_ildj_eq in H by exact Hv.
    rewrite <- (zeros_length x).
    destruct H as [H | H];
      [eapply forward_log_det_jacobian_loop_length
      | eapply inverse_log_det_jacobian_loop_length]; eassumption.
Qed.

Lemma batch_size_is_kept_witness :
  (exists out, forward one_row_layer [(Fin 1, Fin 2); (Fin 3, Fin 4)] tt = Ok out /\
               length out = 2%nat) /\
  (exists ldj, forward_log_det_jacobian mix_flow [(Fin 1, Fin 2); (Fin 3, Fin 4)] tt
               = Ok ldj /\ length ldj = 2%nat).
Proof.
  pose proof (batch_size_is_kept one_row_layer mix_flow
                [(Fin 1, Fin 2); (Fin 3, Fin 4)] tt) as (Hlayer & _ & Hldj).
  split.
  - eexists. split; [reflexivity |]. apply Hlayer. left. reflexivity.
  - eexists. split; [reflexivity |]. apply Hldj. left. reflexivity.
Defined.

(** ** What the networks are fed *)

Lemma masked_rows_agree (keep0 : bool) (x x' : tensor) :
  (if keep0 then col0 x = col0 x' else col1 x = col1 x') ->
  all_finite x = true -> all_finite x' = true ->
  length x = length x' ->
  mul_mask_r x (if keep0 then (Fin 1, Fin 0) else (Fin 0, Fin 1))
  = mul_mask_r x' (if keep0 then (Fin 1, Fin 0) else (Fin 0, Fin 1)).
Proof.
  revert x'.
  induction x as [| r x IH]; intros [| r' x'] Hcol Hx Hx' L; try discriminate;
    [reflexivity |].
  apply all_finite_cons in Hx as [Hr Hx].
  apply all_finite_cons in Hx' as [Hr' Hx'].
  apply row_finite_inv in Hr as (a & b & ->).
  apply row_finite_inv in Hr' as (a' & b' & ->).
  unfold col0, col1 in Hcol, IH. cbn [mul_mask_r map]. f_equal.
  - destruct keep0; cbn [map fst snd] in Hcol; injection Hcol as -> _;
      simpl; f_equal; f_equal; ring.
  - apply IH; auto.
    destruct keep0; cbn [map fst snd] in Hcol; now injection Hcol as _ Hc.
Qed.

(** X4: The networks of a layer never see the column that the layer transforms:
    on two finite inputs with the same unchanged column (column 0 for
    parity "even", column 1 otherwise) they are fed the same tensor, so
    [scale] and [translation] are the same. *)
Theorem networks_see_only_the_unchanged_column {C} (self : CouplingBijector.t C)
  (x x' : tensor) (c : C) :
  all_finite x = true -> all_finite x' = true ->
  length x = length x' ->
  (if String.eqb (CouplingBijector.parity self) "even"
   then col0 x = col0 x' else col1 x = col1 x') ->
  masked_input self x = masked_input self x' /\
  scale_at self x c = scale_at self x' c /\
  translation_at self x c = translation_at self x' c.
Proof.
  intros Hx Hx' L Hcol.
  assert (Hm : masked_input self x = masked_input self x').
  { unfold masked_input, mask_of. now apply masked_rows_agree. }
  unfold scale_at, translation_at. now rewrite Hm.
Qed.

Lemma networks_see_only_the_unchanged_column_witness :
  scale_at mix_even_layer [(Fin 1, Fin 2); (Fin 3, Fin 4)] tt
  = scale_at mix_even_layer [(Fin 1, Fin 20); (Fin 3, Fin 40)] tt.
Proof.
  apply (networks_see_only_the_unchanged_column mix_even_layer
           [(Fin 1, Fin 2); (Fin 3, Fin 4)] [(Fin 1, Fin 20); (Fin 3, Fin 40)] tt);
    reflexivity.
Defined.

(** ** A parity that is neither "even" nor "odd" *)

Lemma stray_rows (x s t : tensor) :
  all_finite x = true -> all_finite s = true -> all_finite t = true ->
  length s = length x -> length t = length x ->
  zip3 (forward_row false) x (mul_mask_l (Fin 0, Fin 1) s) (mul_mask_l (Fin 0, Fin 1) t)
  = x /\
  zip3 (inverse_row false) x (mul_mask_l (Fin 0, Fin 1) s) (mul_mask_l (Fin 0, Fin 1) t)
  = x.
Proof.
  unfold zip3, mul_mask_l. revert s t.
  induction x as [| a x IH]; intros [| s0 s] [| t0 t] Hx Hs Ht Ls Lt;
    try discriminate; [now split |].
  apply all_finite_cons in Hx as [Ha Hx].
  apply all_finite_cons in Hs as [Hs0 Hs].
  apply all_finite_cons in Ht as [Ht0 Ht].
  apply row_finite_inv in Ha as (a0 & a1 & ->).
  apply row_finite_inv in Hs0 as (u0 & u1 & ->).
  apply row_finite_inv in Ht0 as (v0 & v1 & ->).
  simpl in Ls, Lt. destruct (IH s t) as [IHf IHi]; auto.
  cbn [map combine]. rewrite IHf, IHi.
  split; f_equal; simpl; f_equal; f_equal;
    rewrite ?Rmult_0_l, ?Ropp_0, ?exp_0; ring.
Qed.

(** X5: The constructor accepts any string as parity.  A layer whose parity is
    neither "even" nor "odd" masks like an "odd" layer and transforms like
    an "even" one: with regular networks and a finite input its forward and
    inverse transforms return the input unchanged, while its forward
    log-det-Jacobian is not zero but the second output of the scale
    network. *)
Theorem stray_parity_is_identity_with_a_log_det {C} (self : CouplingBijector.t C)
  (x : tensor) (c : C) (k : nat) :
  CouplingBijector.parity self <> "even" ->
  CouplingBijector.parity self <> "odd" ->
  regular_layer c self ->
  all_finite x = true ->
  (k < length x)%nat ->
  forward self x c = Ok x /\
  inverse self x c = Ok x /\
  exists ldj,
    forward_log_det_jacobian self x c = Ok ldj /\
    at_R ldj k
    = to_R (snd (nth k (CouplingBijector.scale_fn self
                          (CouplingBijector.scale_scope self)
                          (masked_input self x) c) (NaN, NaN))).
Proof.
  intros Heven Hodd Hreg Hx Hk.
  apply String.eqb_neq in Heven, Hodd.
  destruct (regular_layer_at c self x Hreg Hx) as (Hs & Ht & Hshape).
  pose proof Hreg as (Hv & Hsn & Htn).
  pose proof (mul_mask_r_finite x (CouplingBijector.parity self) Hx) as Hm.
  fold (masked_input self x) in Hm.
  destruct (Hsn _ Hm) as [FS LS]. destruct (Htn _ Hm) as [FT LT].
  unfold masked_input in LS, LT. rewrite mul_mask_r_length in LS, LT.
  fold (masked_input self x) in LS, LT.
  destruct (stray_rows x _ _ Hx FS FT LS LT) as [Hfwd Hinv].
  rewrite coupling_forward_returns, coupling_inverse_returns; auto;
    [| now apply texp_finite].
  unfold is_odd. rewrite Hodd.
  unfold scale_at, translation_at, mask_of. rewrite Heven.
  fold (masked_input self x) in *. rewrite Hfwd, Hinv.
  split; [reflexivity |]. split; [reflexivity |].
  rewrite coupling_fldj_eq by exact Hv.
  eexists. split; [reflexivity |].
  unfold at_R, scale_at. rewrite (nth_reduce_sum _ _ (NaN, NaN))
    by (rewrite mul_mask_l_length; lia).
  unfold mask_of. rewrite Heven.
  rewrite nth_mul_mask_l by lia.
  destruct (all_finite_nth _ k (NaN, NaN) FS) as (S0 & S1 & ->); [lia |].
  simpl. ring.
Qed.

Lemma stray_parity_is_identity_with_a_log_det_witness :
  forward stray_layer [(Fin 1, Fin 2)] tt = Ok [(Fin 1, Fin 2)] /\
  inverse stray_layer [(Fin 1, Fin 2)] tt = Ok [(Fin 1, Fin 2)] /\
  exists ldj,
    forward_log_det_jacobian stray_layer [(Fin 1, Fin 2)] tt = Ok ldj /\
    at_R ldj 0 = 7.
Proof.
  apply (stray_parity_is_identity_with_a_log_det stray_layer [(Fin 1, Fin 2)] tt 0).
  - discriminate.
  - discriminate.
  - apply coupling_regular; intros scope; now apply constant_net_regular.
  - reflexivity.
  - simpl. lia.
Defined.

(** ** The other round trip *)

Lemma exp_cancel_back (a s t : R) : (a - t) * exp (- s) * exp s + t = a.
Proof.
  replace ((a - t) * exp (- s) * exp s) with ((a - t) * (exp (- s) * exp s)) by ring.
  rewrite <- exp_plus, Rplus_opp_l, exp_0. ring.
Qed.

Lemma inverse_rows_finite (odd : bool) (y s t : tensor) :
  all_finite y = true -> all_finite s = true -> all_finite t = true ->
  all_finite (zip3 (inverse_row odd) y s t) = true.
Proof.
  unfold zip3. revert s t.
  induction y as [| a y IH]; intros [| s0 s] [| t0 t] Hy Hs Ht; try reflexivity.
  apply all_finite_cons in Hy as [Ha Hy].
  apply all_finite_cons in Hs as [Hs0 Hs].
  apply all_finite_cons in Ht as [Ht0 Ht].
  apply row_finite_inv in Ha as (a0 & a1 & ->).
  apply row_finite_inv in Hs0 as (u0 & u1 & ->).
  apply row_finite_inv in Ht0 as (v0 & v1 & ->).
  destruct odd; simpl; now apply IH.
Qed.

Lemma forward_inverse_rows (odd : bool) (y s t : tensor) :
  all_finite y = true -> all_finite s = true -> all_finite t = true ->
  length s = length y -> length t = length y ->
  zip3 (forward_row odd) (zip3 (inverse_row odd) y s t) s t = y.
Proof.
  unfold zip3. revert s t.
  induction y as [| a y IH]; intros [| s0 s] [| t0 t] Hy Hs Ht Ls Lt;
    try discriminate; try reflexivity.
  apply all_finite_cons in Hy as [Ha Hy].
  apply all_finite_cons in Hs as [Hs0 Hs].
  apply all_finite_cons in Ht as [Ht0 Ht].
  apply row_finite_inv in Ha as (a0 & a1 & ->).
  apply row_finite_inv in Hs0 as (u0 & u1 & ->).
  apply row_finite_inv in Ht0 as (v0 & v1 & ->).
  simpl in Ls, Lt. simpl. rewrite IH by (auto; lia). f_equal.
  destruct odd; simpl; now rewrite exp_cancel_back.
Qed.

Lemma masked_rows_inverse (parity : string) (y s t : tensor) :
  all_finite y = true -> all_finite s = true -> all_finite t = true ->
  mul_mask_r
    (zip3 (inverse_row (String.eqb parity "odd")) y
          (mul_mask_l (mask_of parity) s) (mul_mask_l (mask_of parity) t))
    (mask_of parity)
  = mul_mask_r (firstn (Nat.min (length s) (length t)) y) (mask_of parity).
Proof.
  intros Hy Hs Ht.
  assert (Hrow : forall a0 a1 u0 u1 v0 v1 : R,
             let m := mask_of parity in
             let a := (Fin a0, Fin a1) in
             let out := inverse_row (String.eqb parity "odd") a
                          (mul (fst m) (Fin u0), mul (snd m) (Fin u1))
                          (mul (fst m) (Fin v0), mul (snd m) (Fin v1)) in
             (mul (fst out) (fst m), mul (snd out) (snd m))
             = (mul (fst a) (fst m), mul (snd a) (snd m))).
  { intros. unfold out, a, m, mask_of.
    destruct (String.eqb parity "even"), (String.eqb parity "odd"); simpl;
      f_equal; f_equal;
      rewrite ?Rmult_0_l, ?Rmult_0_r, ?Rmult_1_l, ?Rmult_1_r, ?Ropp_0, ?exp_0;
      ring. }
  unfold zip3, mul_mask_l, mul_mask_r.
  remember (mask_of parity) as m eqn:Hm.
  revert s t Hs Ht.
  induction y as [| a y IH]; intros [| s0 s] [| t0 t] Hs Ht;
    try reflexivity.
  apply all_finite_cons in Hy as [Ha Hy].
  apply all_finite_cons in Hs as [Hs0 Hs].
  apply all_finite_cons in Ht as [Ht0 Ht].
  apply row_finite_inv in Ha as (a0 & a1 & ->).
  apply row_finite_inv in Hs0 as (u0 & u1 & ->).
  apply row_finite_inv in Ht0 as (v0 & v1 & ->).
  cbn [length Nat.min firstn map combine fst snd].
  rewrite (IH Hy s t Hs Ht). f_equal.
  subst m. apply Hrow.
Qed.

Lemma coupling_round_trip_back {C} (c : C) (self : CouplingBijector.t C) (y : tensor) :
  regular_layer c self -> all_finite y = true ->
  exists x,
    inverse self y c = Ok x /\
    all_finite x = true /\
    length x = length y /\
    masked_input self x = masked_input self y /\
    forward self x c = Ok y.
Proof.
  intros Hreg Hy.
  destruct (regular_layer_at c self y Hreg Hy) as (Hs & Ht & Hshape).
  pose proof Hreg as (Hv & Hsn & Htn).
  pose proof (mul_mask_r_finite y (CouplingBijector.parity self) Hy) as Hm.
  destruct (Hsn _ Hm) as [Hs1 Hs2]. destruct (Htn _ Hm) as [Ht1 Ht2].
  rewrite mul_mask_r_length in Hs2, Ht2.
  pose proof Hshape as [Ls Lt].
  set (x := zip3 (inverse_row (is_odd self)) y (scale_at self y c)
                 (translation_at self y c)).
  assert (Hx : inverse self y c = Ok x) by now apply coupling_inverse_returns.
  assert (Lx : length x = length y) by now apply zip3_length.
  assert (Hmask : masked_input self x = masked_input self y).
  { unfold masked_input, x, scale_at, translation_at, is_odd.
    rewrite masked_rows_inverse by assumption.
    fold (masked_input self y) in Hs2, Ht2. rewrite Hs2, Ht2, Nat.min_id.
    now rewrite firstn_all. }
  assert (Es : scale_at self x c = scale_at self y c)
    by (unfold scale_at; now rewrite Hmask).
  assert (Et : translation_at self x c = translation_at self y c)
    by (unfold translation_at; now rewrite Hmask).
  exists x. repeat split; auto.
  - now apply inverse_rows_finite.
  - rewrite coupling_forward_returns; auto.
    + rewrite Es, Et. unfold x. now rewrite forward_inverse_rows.
    + unfold shapes_agree. rewrite Es, Et, Lx. exact Hshape.
    + unfold exp_scale_at. rewrite Es. now apply texp_finite.
Qed.

Lemma flow_round_trip_back_loops {C} (c : C) (layers : list (CouplingBijector.t C)) :
  Forall (regular_layer c) layers ->
  forall y, all_finite y = true ->
  exists x,
    RealNVPBijector.inverse_loop (rev layers) y c = Ok x /\
    all_finite x = true /\
    length x = length y /\
    RealNVPBijector.forward_loop layers x c = Ok y.
Proof.
  induction 1 as [| layer rest Hlayer Hrest IH]; intros y Hy.
  - exists y. now repeat split.
  - destruct (IH y Hy) as (x1 & Hback & Fx1 & Lx1 & Hloop).
    destruct (coupling_round_trip_back c layer x1 Hlayer Fx1)
      as (x & Hinv & Fx & Lx & _ & Hfwd).
    exists x. cbn [RealNVPBijector.forward_loop rev].
    rewrite inverse_loop_app, Hback. cbn [bind RealNVPBijector.inverse_loop].
    rewrite Hinv, Hfwd. cbn [bind]. repeat split; auto. congruence.
Qed.

(** X6: On a finite input, with validation off and regular networks, the
    inverse transform returns an output on which the forward transform
    returns the input again: [forward(inverse(y, c), c) = y], for a coupling
    layer of any parity and for a flow over any list of layers. *)
Theorem forward_of_inverse {C} (layer : CouplingBijector.t C)
  (flow : RealNVPBijector.t C) (y : tensor) (c : C) :
  all_finite y = true ->
  (regular_layer c layer ->
   exists x, inverse layer y c = Ok x /\ forward layer x c = Ok y) /\
  (RealNVPBijector.validate_args flow = false ->
   Forall (regular_layer c) (RealNVPBijector.layers flow) ->
   exists x, inverse flow y c = Ok x /\ forward flow x c = Ok y).
Proof.
  intros Hy. split.
  - intros Hreg.
    destruct (coupling_round_trip_back c layer y Hreg Hy)
      as (x & Hx & _ & _ & _ & Hfwd).
    now exists x.
  - intros Hv Hreg.
    destruct (flow_round_trip_back_loops c _ Hreg y Hy) as (x & Hx & _ & _ & Hfwd).
    exists x. now rewrite flow_forward_eq, flow_inverse_eq.
Qed.

Lemma forward_of_inverse_witness :
  (exists x, inverse mix_odd_layer [(Fin 1, Fin 2); (Fin 3, Fin 4)] tt = Ok x /\
             forward mix_odd_layer x tt = Ok [(Fin 1, Fin 2); (Fin 3, Fin 4)]) /\
  (exists x, inverse mix_flow [(Fin 1, Fin 2); (Fin 3, Fin 4)] tt = Ok x /\
             forward mix_flow x tt = Ok [(Fin 1, Fin 2); (Fin 3, Fin 4)]).
Proof.
  pose proof (forward_of_inverse mix_odd_layer mix_flow
                [(Fin 1, Fin 2); (Fin 3, Fin 4)] tt eq_refl) as [Hlayer Hflow].
  split.
  - apply Hlayer. apply coupling_regular; intros scope; apply mix_net_regular.
  - apply Hflow; [reflexivity |].
    apply build_regular; intros scope; apply mix_net_regular.
Defined.

(** X7: On a finite input [y], with validation off and regular networks, the
    inverse log-det-Jacobian at [y] and the forward log-det-Jacobian at
    [inverse(y, c)] add up to zero for every element of the batch, for a
    coupling layer and for a flow. *)
Theorem log_det_jacobians_cancel_at_the_inverse {C} (layer : CouplingBijector.t C)
  (flow : RealNVPBijector.t C) (y : tensor) (c : C) :
  all_finite y = true ->
  (regular_layer c layer ->
   exists x fldj ildj,
     inverse layer y c = Ok x /\
     inverse_log_det_jacobian layer y c = Ok ildj /\
     forward_log_det_jacobian layer x c = Ok fldj /\
     broadcast add ildj fldj = Ok (repeat (Fin 0) (length y))) /\
  (RealNVPBijector.validate_args flow = false ->
   Forall (regular_layer c) (RealNVPBijector.layers flow) ->
   exists x fldj ildj,
     inverse flow y c = Ok x /\
     inverse_log_det_jacobian flow y c = Ok ildj /\
     forward_log_det_jacobian flow x c = Ok fldj /\
     broadcast add ildj fldj = Ok (repeat (Fin 0) (length y))).
Proof.
  intros Hy. split.
  - intros Hreg.
    destruct (coupling_round_trip_back c layer y Hreg Hy)
      as (x & Hx & Fx & Lx & _ & Hfwd).
    destruct (coupling_log_dets c layer x Hreg Fx)
      as (y' & d & Hfwd' & _ & _ & _ & Hfldj & Hildj & _ & Fd & Ld).
    assert (y' = y) by congruence. subst y'.
    exists x, d, (vneg d). repeat split; auto.
    rewrite broadcast_same_shape by now rewrite vneg_length.
    f_equal. rewrite <- Lx, <- Ld.
    rewrite <- (vneg_length d).
    rewrite <- (zip_with_length add (vneg d) d) by now rewrite vneg_length.
    apply vector_zero; [auto using zip_add_finite, vneg_finite |].
    intros k. rewrite at_R_zip_add, at_R_vneg;
      auto using vneg_finite, vneg_length. lra.
  - intros Hv Hreg.
    destruct (flow_round_trip_back_loops c _ Hreg y Hy)
      as (x & Hx & Fx & Lx & Hfwd).
    set (zeros := reduce_sum_axis1 (zeros_like x)).
    destruct (flow_log_dets_loops c _ Hreg x zeros zeros Fx
                (zeros_finite x) (zeros_length x) (zeros_finite x) (zeros_length x))
      as (y' & F & I & Hloop & _ & _ & _ & HF & HI & FF & LF & FI & LI & Hsum).
    assert (y' = y) by congruence. subst y'.
    exists x, F, I.
    rewrite flow_inverse_eq, flow_fldj_eq, flow_ildj_eq by exact Hv.
    fold zeros. repeat split; auto.
    + replace (reduce_sum_axis1 (zeros_like y)) with zeros; [exact HI |].
      unfold zeros, reduce_sum_axis1, zeros_like. rewrite !map_map.
      clear -Lx. revert y Lx.
      induction x as [| r x IH]; intros [| r' y] L; try discriminate;
        [reflexivity |].
      simpl. f_equal. apply IH. now injection L.
    + rewrite broadcast_same_shape by congruence.
      f_equal. rewrite <- Lx, <- LI.
      rewrite <- (zip_with_length add I F) by congruence.
      apply vector_zero; [auto using zip_add_finite |].
      intros k. rewrite at_R_zip_add by (auto; congruence).
      specialize (Hsum k). unfold zeros in Hsum. rewrite at_R_zeros in Hsum. lra.
Qed.

Lemma log_det_jacobians_cancel_at_the_inverse_witness :
  exists x fldj ildj,
    inverse mix_flow [(Fin 1, Fin 2); (Fin 3, Fin 4)] tt = Ok x /\
    inverse_log_det_jacobian mix_flow [(Fin 1, Fin 2); (Fin 3, Fin 4)] tt = Ok ildj /\
    forward_log_det_jacobian mix_flow x tt = Ok fldj /\
    broadcast add ildj fldj = Ok [Fin 0; Fin 0].
Proof.
  apply (log_det_jacobians_cancel_at_the_inverse mix_even_layer mix_flow
           [(Fin 1, Fin 2); (Fin 3, Fin 4)] tt eq_refl).
  - reflexivity.
  - apply build_regular; intros scope; apply mix_net_regular.
Defined.

(** ** Errors inside a flow *)


Lemma forward_log_det_jacobian_loop_app {C} (first rest : list (CouplingBijector.t C))
  (acc : vector) (x : tensor) (c : C) :
  RealNVPBijector.forward_log_det_jacobian_loop (first ++ rest) acc x c
  = (acc' <- RealNVPBijector.forward_log_det_jacobian_loop first acc x c ;;
     out <- RealNVPBijector.forward_loop first x c ;;
     RealNVPBijector.forward_log_det_jacobian_loop rest acc' out c).
Proof.
  revert acc x. induction first as [| layer first IH]; intros acc x.
  - reflexivity.
  - cbn [app RealNVPBijector.forward_log_det_jacobian_loop
           RealNVPBijector.forward_loop].
    destruct (forward_log_det_jacobian layer x c) as [ldj | e];
      cbn [bind]; [| reflexivity].
    destruct (forward layer x c) as [out | e]; cbn [bind]; [| reflexivity].
    destruct (assert _) as [[] | e]; cbn [bind]; [| reflexivity].
    destruct (broadcast add acc ldj) as [acc1 | e]; cbn [bind]; [| reflexivity].
    apply IH.
Qed.



Lemma coupling_inverse_not_numeric {C} (self : CouplingBijector.t C)
  (y : tensor) (c : C) (e : exn) :
  inverse self y c = Raise e ->
  exists msg, e = NotImplementedError msg \/ e = ValueError.
Proof.
  intros H.
  destruct (CouplingBijector.validate_args self) eqn:Hv.
  { rewrite coupling_inverse_validating in H by exact Hv.
    injection H as <-. eexists. now left. }
  exists "". right.
  rewrite coupling_inverse_eq in H by exact Hv.
  destruct (String.eqb (CouplingBijector.parity self) "odd").
  - destruct (broadcast sub _ _) eqn:E1; cbn [bind] in H;
      [| apply broadcast_raises in E1; congruence].
    destruct (broadcast mul _ _) eqn:E2; cbn [bind] in H;
      [| apply broadcast_raises in E2; congruence].
    now apply stack_axis1_raises in H.
  - destruct (broadcast sub _ _) eqn:E1; cbn [bind] in H;
      [| apply broadcast_raises in E1; congruence].
    destruct (broadcast mul _ _) eqn:E2; cbn [bind] in H;
      [| apply broadcast_raises in E2; congruence].
    now apply stack_axis1_raises in H.
Qed.

Lemma coupling_ildj_not_numeric {C} (self : CouplingBijector.t C)
  (y : tensor) (c : C) (e : exn) :
  inverse_log_det_jacobian self y c = Raise e ->
  exists msg, e = NotImplementedError msg.
Proof.
  intros H.
  destruct (CouplingBijector.validate_args self) eqn:Hv.
  - unfold inverse_log_det_jacobian in H.
    cbn [_inverse_log_det_jacobian CouplingBijector_bijector] in H.
    unfold CouplingBijector._inverse_log_det_jacobian,
      CouplingBijector._maybe_assert_valid_y in H.
    rewrite Hv in H. injection H as <-. now eexists.
  - rewrite coupling_ildj_eq in H by exact Hv. discriminate.
Qed.

Lemma inverse_loop_not_numeric {C} (layers : list (CouplingBijector.t C))
  (y : tensor) (c : C) (msg : string) :
  RealNVPBijector.inverse_loop layers y c <> Raise (InvalidArgumentError msg).
Proof.
  revert y. induction layers as [| layer rest IH]; intros y H; [discriminate |].
  cbn [RealNVPBijector.inverse_loop] in H.
  destruct (inverse layer y c) as [out | e] eqn:E; cbn [bind] in H.
  - now apply IH in H.
  - apply coupling_inverse_not_numeric in E as [m [-> | ->]]; discriminate.
Qed.

Lemma inverse_log_det_jacobian_loop_not_numeric {C}
  (layers : list (CouplingBijector.t C)) (acc : vector) (y : tensor) (c : C)
  (msg : string) :
  RealNVPBijector.inverse_log_det_jacobian_loop layers acc y c
  <> Raise (InvalidArgumentError msg).
Proof.
  revert acc y. induction layers as [| layer rest IH]; intros acc y H;
    [discriminate |].
  cbn [RealNVPBijector.inverse_log_det_jacobian_loop] in H.
  destruct (inverse_log_det_jacobian layer y c) as [ldj | e] eqn:E1;
    cbn [bind] in H;
    [| apply coupling_ildj_not_numeric in E1 as [m ->]; discriminate].
  destruct (inverse layer y c) as [out | e] eqn:E2; cbn [bind] in H;
    [| apply coupling_inverse_not_numeric in E2 as [m [-> | ->]]; discriminate].
  destruct (assert _) as [[] | e] eqn:E3; cbn [bind] in H;
    [| unfold assert in E3; destruct (Nat.eqb _ _); congruence].
  destruct (broadcast add acc ldj) as [acc1 | e] eqn:E4; cbn [bind] in H;
    [| apply broadcast_raises in E4; congruence].
  now apply IH in H.
Qed.

(** X9: No part of the inverse pass of a flow checks its numbers: neither the
    inverse transform nor the inverse log-det-Jacobian of a flow ever raises
    the error of the numeric check, for any layers, networks and input. *)
Theorem flow_inverse_has_no_numeric_guard {C} (flow : RealNVPBijector.t C)
  (y : tensor) (c : C) (msg : string) :
  inverse flow y c <> Raise (InvalidArgumentError msg) /\
  inverse_log_det_jacobian flow y c <> Raise (InvalidArgumentError msg).
Proof.
  destruct (RealNVPBijector.validate_args flow) eqn:Hv.
  - unfold inverse, inverse_log_det_jacobian.
    cbn [_inverse _inverse_log_det_jacobian RealNVPBijector_bijector].
    unfold RealNVPBijector._inverse, RealNVPBijector._inverse_log_det_jacobian,
      RealNVPBijector._maybe_assert_valid_y.
    rewrite Hv. split; discriminate.
  - rewrite flow_inverse_eq, flow_ildj_eq by exact Hv. split.
    + apply inverse_loop_not_numeric.
    + apply inverse_log_det_jacobian_loop_not_numeric.
Qed.

(** X10: The flow asserts that every layer's log-det-Jacobian has the shape of
    its accumulator, one element per row of the input: with validation off,
    if the layers before some layer run through and that layer returns a
    log-det-Jacobian of another length (its scale network did not keep the
    batch size), the forward log-det-Jacobian of the flow raises
    [AssertionError], even though the layer's own forward transform
    returned. *)
Theorem flow_log_det_shape_is_asserted {C} (flow : RealNVPBijector.t C)
  (before after : list (CouplingBijector.t C)) (layer : CouplingBijector.t C)
  (x out out' : tensor) (acc ldj : vector) (c : C) :
  RealNVPBijector.validate_args flow = false ->
  RealNVPBijector.layers flow = (before ++ layer :: after)%list ->
  forward (flow_of before) x c = Ok out ->
  forward_log_det_jacobian (flow_of before) x c = Ok acc ->
  forward_log_det_jacobian layer out c = Ok ldj ->
  forward layer out c = Ok out' ->
  length ldj <> length x ->
  forward_log_det_jacobian flow x c = Raise AssertionError.
Proof.
  intros Hv Hlayers Hout Hacc Hldj Hout' Hlen.
  rewrite flow_forward_eq in Hout by reflexivity.
  rewrite flow_fldj_eq in Hacc by reflexivity.
  cbn [RealNVPBijector.layers flow_of] in Hout, Hacc.
  rewrite flow_fldj_eq by exact Hv.
  rewrite Hlayers, forward_log_det_jacobian_loop_app, Hacc, Hout.
  cbn [bind RealNVPBijector.forward_log_det_jacobian_loop].
  rewrite Hldj, Hout'. cbn [bind].
  apply forward_log_det_jacobian_loop_length in Hacc.
  rewrite zeros_length in Hacc.
  destruct (Nat.eqb_spec (length acc) (length ldj)) as [E | _]; [congruence |].
  reflexivity.
Qed.

Lemma flow_log_det_shape_is_asserted_witness :
  forward one_row_layer [(Fin 1, Fin 2); (Fin 3, Fin 4)] tt
    = Ok [(Fin 1, Fin (2 * exp (1 * 0) + 1 * 0));
          (Fin 3, Fin (4 * exp (1 * 0) + 1 * 0))] /\
  forward_log_det_jacobian (flow_of [one_row_layer; even_layer])
                           [(Fin 1, Fin 2); (Fin 3, Fin 4)] tt
    = Raise AssertionError.
Proof.
  split; [reflexivity |].
  apply (flow_log_det_shape_is_asserted
           (flow_of [one_row_layer; even_layer]) [] [even_layer] one_row_layer
           [(Fin 1, Fin 2); (Fin 3, Fin 4)] [(Fin 1, Fin 2); (Fin 3, Fin 4)]
           [(Fin 1, Fin (2 * exp (1 * 0) + 1 * 0));
            (Fin 3, Fin (4 * exp (1 * 0) + 1 * 0))]
           [Fin (0 + 0); Fin (0 + 0)] [Fin (1 * 0 + 0 * 0)] tt);
    try reflexivity.
  simpl. lia.
Defined.

(** ** Log-det-Jacobians add up along a flow *)

Lemma vector_ext (u v : vector) :
  vector_finite u = true -> vector_finite v = true ->
  length u = length v ->
  (forall k, at_R u k = at_R v k) -> u = v.
Proof.
  revert v. induction u as [| a u IH]; intros [| b v] Hu Hv L H;
    try discriminate; [reflexivity |].
  apply vector_finite_cons in Hu as [Ha Hu].
  apply vector_finite_cons in Hv as [Hb Hv].
  apply is_finite_inv in Ha as [r ->]. apply is_finite_inv in Hb as [r' ->].
  f_equal.
  - f_equal. apply (H 0%nat).
  - apply IH; auto. intros k. apply (H (S k)).
Qed.

Lemma forward_log_det_jacobian_loop_shift {C} (c : C)
  (layers : list (CouplingBijector.t C)) (x : tensor) (acc1 acc2 : vector) :
  Forall (regular_layer c) layers ->
  all_finite x = true ->
  vector_finite acc1 = true -> length acc1 = length x ->
  vector_finite acc2 = true -> length acc2 = length x ->
  exists y F1 F2,
    RealNVPBijector.forward_loop layers x c = Ok y /\
    all_finite y = true /\ length y = length x /\
    RealNVPBijector.forward_log_det_jacobian_loop layers acc1 x c = Ok F1 /\
    RealNVPBijector.forward_log_det_jacobian_loop layers acc2 x c = Ok F2 /\
    vector_finite F1 = true /\ length F1 = length x /\
    vector_finite F2 = true /\ length F2 = length x /\
    forall k, at_R F1 k - at_R acc1 k = at_R F2 k - at_R acc2 k.
Proof.
  intros Hreg Hx F1 L1 F2 L2.
  destruct (flow_log_dets_loops c layers Hreg x acc1 acc1 Hx F1 L1 F1 L1)
    as (y & G1 & I1 & Hy & Fy & Ly & _ & HG1 & HI1 & FG1 & LG1 & _ & _ & Hs1).
  destruct (flow_log_dets_loops c layers Hreg x acc2 acc1 Hx F2 L2 F1 L1)
    as (y' & G2 & I2 & Hy' & _ & _ & _ & HG2 & HI2 & FG2 & LG2 & _ & _ & Hs2).
  assert (y' = y) by congruence. subst y'.
  assert (I2 = I1) by congruence. subst I2.
  exists y, G1, G2. repeat split; auto.
  intros k. specialize (Hs1 k). specialize (Hs2 k). lra.
Qed.

(** X11: With validation off and regular networks, the forward log-det-Jacobian
    of a flow over the layers [first ++ rest], at a finite input [x], is the
    sum of the forward log-det-Jacobian of the flow over [first] at [x] and
    of the one of the flow over [rest] at the output of the first flow. *)
Theorem flow_log_det_adds_along_the_layers {C} (first rest : list (CouplingBijector.t C))
  (x : tensor) (c : C) :
  Forall (regular_layer c) first ->
  Forall (regular_layer c) rest ->
  all_finite x = true ->
  exists y ldj_first ldj_rest ldj,
    forward (flow_of first) x c = Ok y /\
    forward_log_det_jacobian (flow_of first) x c = Ok ldj_first /\
    forward_log_det_jacobian (flow_of rest) y c = Ok ldj_rest /\
    forward_log_det_jacobian (flow_of (first ++ rest)) x c = Ok ldj /\
    broadcast add ldj_first ldj_rest = Ok ldj.
Proof.
  intros Hfirst Hrest Hx.
  set (zeros := reduce_sum_axis1 (zeros_like x)).
  destruct (flow_log_dets_loops c first Hfirst x zeros zeros Hx
              (zeros_finite x) (zeros_length x) (zeros_finite x) (zeros_length x))
    as (y & FA & _ & Hy & Fy & Ly & _ & HFA & _ & FFA & LFA & _).
  destruct (forward_log_det_jacobian_loop_shift c rest y FA
              (reduce_sum_axis1 (zeros_like y)) Hrest Fy)
    as (z & F & FB & _ & _ & _ & HF & HFB & FF & LF & FFB & LFB & Hshift);
    auto using zeros_finite, zeros_length; [congruence |].
  exists y, FA, FB, F.
  rewrite flow_forward_eq, !flow_fldj_eq by reflexivity.
  cbn [RealNVPBijector.layers flow_of]. fold zeros.
  rewrite forward_log_det_jacobian_loop_app, HFA, Hy. cbn [bind].
  repeat split; auto.
  rewrite broadcast_same_shape by congruence. f_equal.
  apply vector_ext; auto using zip_add_finite.
  - rewrite zip_with_length; congruence.
  - intros k. rewrite at_R_zip_add by (auto; congruence).
    specialize (Hshift k). rewrite at_R_zeros in Hshift. lra.
Qed.

Lemma flow_log_det_adds_along_the_layers_witness :
  exists y ldj_first ldj_rest ldj,
    forward (flow_of [mix_odd_layer]) [(Fin 1, Fin 2); (Fin 3, Fin 4)] tt = Ok y /\
    forward_log_det_jacobian (flow_of [mix_odd_layer])
                             [(Fin 1, Fin 2); (Fin 3, Fin 4)] tt = Ok ldj_first /\
    forward_log_det_jacobian (flow_of [mix_even_layer; doubling_layer]) y tt
      = Ok ldj_rest /\
    forward_log_det_jacobian (flow_of [mix_odd_layer; mix_even_layer; doubling_layer])
                             [(Fin 1, Fin 2); (Fin 3, Fin 4)] tt = Ok ldj /\
    broadcast add ldj_first ldj_rest = Ok ldj.
Proof.
  apply (flow_log_det_adds_along_the_layers
           [mix_odd_layer] [mix_even_layer; doubling_layer]
           [(Fin 1, Fin 2); (Fin 3, Fin 4)] tt).
  - apply Forall_cons; [| apply Forall_nil].
    apply coupling_regular; intros scope; apply mix_net_regular.
  - apply Forall_cons; [| apply Forall_cons; [| apply Forall_nil]].
    + apply coupling_regular; intros scope; apply mix_net_regular.
    + apply coupling_regular; intros scope; now apply constant_net_regular.
  - reflexivity.
Defined.

(** ** A flow without layers *)

Lemma zeros_eq (x : tensor) :
  reduce_sum_axis1 (zeros_like x) = repeat (Fin 0) (length x).
Proof.
  induction x as [| r x IH]; [reflexivity |].
  simpl. rewrite <- IH. f_equal. f_equal. ring.
Qed.

Lemma range_empty (lo hi : Z) : (hi <= lo)%Z -> range lo hi = [].
Proof.
  intros H. unfold range. replace (Z.to_nat (hi - lo)) with 0%nat by lia.
  reflexivity.
Qed.

(** X12: The number of coupling layers is not checked: a configuration that asks
    for zero layers, or for a negative number of them, gives a flow without
    layers, whose forward and inverse transforms return their input and
    whose log-det-Jacobians are zero for every row. *)
Theorem flow_without_layers {C} (n : Z) (translation_wrapper scale_wrapper : net C)
  (x : tensor) (c : C) :
  (n <= 0)%Z ->
  RealNVPBijector.layers
    (RealNVPBijector.__init__ (Some (with_layers n)) translation_wrapper scale_wrapper
                              false) = [] /\
  forward (RealNVPBijector.__init__ (Some (with_layers n)) translation_wrapper
                                    scale_wrapper false) x c = Ok x /\
  inverse (RealNVPBijector.__init__ (Some (with_layers n)) translation_wrapper
                                    scale_wrapper false) x c = Ok x /\
  forward_log_det_jacobian
    (RealNVPBijector.__init__ (Some (with_layers n)) translation_wrapper
                              scale_wrapper false) x c
  = Ok (repeat (Fin 0) (length x)) /\
  inverse_log_det_jacobian
    (RealNVPBijector.__init__ (Some (with_layers n)) translation_wrapper
                              scale_wrapper false) x c
  = Ok (repeat (Fin 0) (length x)).
Proof.
  intros Hn.
  assert (Hlayers : RealNVPBijector.layers
                      (RealNVPBijector.__init__ (Some (with_layers n))
                         translation_wrapper scale_wrapper false) = []).
  { cbn [RealNVPBijector.layers RealNVPBijector.__init__].
    unfold RealNVPBijector.build.
    rewrite range_empty; [reflexivity |].
    cbn [RealNVPBijector.num_coupling_layers RealNVPBijector.merge_config
           with_layers RealNVPBijector.o_num_coupling_layers
           RealNVPBijector.override]. lia. }
  split; [exact Hlayers |].
  rewrite flow_forward_eq, flow_inverse_eq, flow_fldj_eq, flow_ildj_eq
    by reflexivity.
  rewrite Hlayers. cbn [rev RealNVPBijector.forward_loop RealNVPBijector.inverse_loop
                          RealNVPBijector.forward_log_det_jacobian_loop
                          RealNVPBijector.inverse_log_det_jacobian_loop].
  rewrite zeros_eq. now repeat split.
Qed.

Lemma flow_without_layers_witness :
  forward (RealNVPBijector.__init__ (Some (with_layers (-3))) mix_net mix_net false)
          [(Fin 1, NaN)] tt = Ok [(Fin 1, NaN)] /\
  forward_log_det_jacobian
    (RealNVPBijector.__init__ (Some (with_layers 0)) mix_net mix_net false)
    [(Fin 1, NaN)] tt = Ok [Fin 0].
Proof.
  split.
  - apply (flow_without_layers (-3) mix_net mix_net [(Fin 1, NaN)] tt). lia.
  - apply (flow_without_layers 0 mix_net mix_net [(Fin 1, NaN)] tt). lia.
Defined.

(** ** The layers that [build] makes *)

Lemma to_int_printable (i : Z) :
  Z.to_int i <> Decimal.Pos Decimal.Nil /\ Z.to_int i <> Decimal.Neg Decimal.Nil.
Proof.
  destruct i as [| p | p]; simpl; split; try discriminate;
    intros [= H]; now apply DecimalPos.Unsigned.to_uint_nonnil in H.
Qed.

Lemma coupling_name_inj (i j : Z) : coupling_name i = coupling_name j -> i = j.
Proof.
  unfold coupling_name. cbn [String.append]. intros [= H].
  apply DecimalZ.to_int_inj.
  destruct (to_int_printable i) as [Hi Hi'], (to_int_printable j) as [Hj Hj'].
  pose proof (NilZero.isi _ Hi Hi') as Ei.
  pose proof (NilZero.isi _ Hj Hj') as Ej.
  rewrite H in Ei. congruence.
Qed.

Lemma string_length_append (s t : string) :
  String.length (String.append s t) = (String.length s + String.length t)%nat.
Proof. induction s as [| a s IH]; simpl; congruence. Qed.

Lemma append_same_suffix (s s' t : string) :
  String.append s t = String.append s' t -> s = s'.
Proof.
  revert s'. induction s as [| a s IH]; intros [| a' s'] H.
  - reflexivity.
  - apply (f_equal String.length) in H.
    rewrite !string_length_append in H. simpl in H. lia.
  - apply (f_equal String.length) in H.
    rewrite !string_length_append in H. simpl in H. lia.
  - simpl in H. injection H as -> H. f_equal. now apply IH.
Qed.

Lemma last_char_append (s t : string) :
  t <> EmptyString -> last_char (String.append s t) = last_char t.
Proof.
  intros Ht. induction s as [| a s IH]; [reflexivity |].
  simpl. destruct (String.append s t) eqn:E; [| exact IH].
  destruct s; simpl in E; [contradiction | discriminate].
Qed.

Lemma range_NoDup (lo hi : Z) : NoDup (range lo hi).
Proof.
  unfold range. apply Finite.Injective_map_NoDup; [| apply seq_NoDup].
  intros k k' H. cbv beta in H. lia.
Qed.

(** X13: Whatever the [validate_args] of the flow, every layer that the
    constructor builds has validation off and holds the same two network
    closures; the layers differ by their names only, and the variable
    scopes in which they call their scale and translation networks are
    pairwise distinct, so that no two networks of a flow share their
    weights. *)
Theorem built_layers_have_scopes_of_their_own {C}
  (config : option RealNVPBijector.Overrides)
  (translation_wrapper scale_wrapper : net C) (validate_args : bool) :
  Forall (fun layer =>
            CouplingBijector.validate_args layer = false /\
            CouplingBijector.translation_fn layer = translation_wrapper /\
            CouplingBijector.scale_fn layer = scale_wrapper)
         (RealNVPBijector.layers
            (RealNVPBijector.__init__ config translation_wrapper scale_wrapper
                                      validate_args)) /\
  NoDup (variable_scopes
           (RealNVPBijector.__init__ config translation_wrapper scale_wrapper
                                     validate_args)).
Proof.
  split.
  - cbn [RealNVPBijector.layers RealNVPBijector.__init__].
    unfold RealNVPBijector.build. apply Forall_forall. intros layer Hin.
    apply in_map_iff in Hin as (i & <- & _). now repeat split.
  - unfold variable_scopes.
    cbn [RealNVPBijector.layers RealNVPBijector.__init__].
    unfold RealNVPBijector.build. rewrite !map_map.
    cbn [CouplingBijector.scale_scope CouplingBijector.translation_scope
           CouplingBijector.name CouplingBijector.__init__].
    apply NoDup_app.
    + apply Finite.Injective_map_NoDup; [| apply range_NoDup].
      intros i j H. now apply append_same_suffix, coupling_name_inj in H.
    + apply Finite.Injective_map_NoDup; [| apply range_NoDup].
      intros i j H. now apply append_same_suffix, coupling_name_inj in H.
    + intros scope H1 H2.
      apply in_map_iff in H1 as (i & <- & _).
      apply in_map_iff in H2 as (j & H & _).
      apply (f_equal last_char) in H.
      unfold CouplingBijector.scale_scope, CouplingBijector.translation_scope,
        CouplingBijector.__init__ in H.
      cbn [CouplingBijector.name] in H.
      rewrite !last_char_append in H by discriminate. discriminate.
Qed.

(** X14: Two consecutive layers of a flow never transform the same column. *)
Theorem consecutive_layers_transform_different_columns {C}
  (config : option RealNVPBijector.Overrides)
  (translation_wrapper scale_wrapper : net C) (validate_args : bool) (i : Z) :
  (1 <= i < RealNVPBijector.num_coupling_layers
              (RealNVPBijector.merge_config config))%Z ->
  exists layer next,
    nth_error (RealNVPBijector.layers
                 (RealNVPBijector.__init__ config translation_wrapper scale_wrapper
                                           validate_args))
              (Z.to_nat (i - 1)) = Some layer /\
    nth_error (RealNVPBijector.layers
                 (RealNVPBijector.__init__ config translation_wrapper scale_wrapper
                                           validate_args))
              (Z.to_nat i) = Some next /\
    transformed_index layer <> transformed_index next.
Proof.
  intros Hi. cbn [RealNVPBijector.layers RealNVPBijector.__init__].
  do 2 eexists.
  split; [apply build_nth_error; lia |].
  split; [replace i with (i + 1 - 1)%Z at 1 by lia; apply build_nth_error; lia |].
  unfold transformed_index, is_odd.
  cbn [CouplingBijector.parity CouplingBijector.__init__].
  rewrite !parity_of_index_mod2, Z.odd_add. cbn [Z.odd].
  destruct (Z.odd i); cbn; discriminate.
Qed.

Lemma consecutive_layers_transform_different_columns_witness :
  exists layer next,
    nth_error (RealNVPBijector.layers mix_flow) 0 = Some layer /\
    nth_error (RealNVPBijector.layers mix_flow) 1 = Some next /\
    transformed_index layer <> transformed_index next.
Proof.
  apply (consecutive_layers_transform_different_columns None mix_net mix_net false 1).
  simpl. lia.
Defined.

(** ** Graph variables *)

Lemma lookup_app_some {A} (name : string) (l l' : list (string * A)) (a : A) :
  lookup name l = Some a -> lookup name (l ++ l') = Some a.
Proof.
  induction l as [| [n b] l IH]; simpl; [discriminate |].
  destruct (String.eqb n name); auto.
Qed.

Lemma lookup_app_none {A} (name : string) (l l' : list (string * A)) :
  lookup name l = None -> lookup name (l ++ l') = lookup name l'.
Proof.
  induction l as [| [n b] l IH]; simpl; [reflexivity |].
  destruct (String.eqb n name); [discriminate | auto].
Qed.

Lemma extends_refl (g : graph) : extends g g.
Proof. now intros name v H. Qed.

Lemma extends_trans (g1 g2 g3 : graph) :
  extends g1 g2 -> extends g2 g3 -> extends g1 g3.
Proof. intros H12 H23 name v H. auto. Qed.

(** What a call of [get_variable] that returns has done. *)
Lemma get_variable_returns (scope : variable_scope) (name : string)
  (shape : list nat) (initializer : string -> list nat -> list (list num))
  (regularizer : option regularizer_fn) (g g' : graph) (v : variable) :
  get_variable scope name shape initializer regularizer g = Ok (v, g') ->
  var_shape v = shape /\
  lookup (full_name scope name) (variables g') = Some v /\
  extends g g' /\
  exists losses,
    regularization_losses g' = (regularization_losses g ++ losses)%list /\
    forall n l, In (n, l) losses ->
                n = full_name scope name /\ regularizer <> None.
Proof.
  unfold get_variable. intros H.
  destruct (lookup (full_name scope name) (variables g)) as [w |] eqn:E.
  - assert (Hw : (if list_eq_dec Nat.eq_dec shape (var_shape w)
                  then Ok (w, g) else Raise ValueError) = Ok (v, g'))
      by (destruct (vs_reuse scope); [discriminate | exact H | exact H]).
    destruct (list_eq_dec Nat.eq_dec shape (var_shape w)) as [Es | _];
      [| discriminate].
    injection Hw as <- <-. repeat split; auto using extends_refl.
    exists []. split; [now rewrite app_nil_r | intros n l []].
  - assert (Hnew :
        Ok ({| var_shape := shape;
               var_value := initializer (full_name scope name) shape |},
            {| variables :=
                 (variables g
                  ++ [(full_name scope name,
                       {| var_shape := shape;
                          var_value := initializer (full_name scope name) shape |})])%list;
               regularization_losses :=
                 (regularization_losses g
                  ++ match regularizer with
                     | Some r =>
                         match r {| var_shape := shape;
                                    var_value :=
                                      initializer (full_name scope name) shape |} with
                         | Some loss => [(full_name scope name, loss)]
                         | None => []
                         end
                     | None => []
                     end)%list |}) = Ok (v, g'))
      by (destruct (vs_reuse scope); [exact H | discriminate | exact H]).
    injection Hnew as <- <-. cbn [variables regularization_losses var_shape].
    repeat split.
    + rewrite lookup_app_none by exact E. simpl. now rewrite String.eqb_refl.
    + intros n w Hn. now apply lookup_app_some.
    + eexists. split; [reflexivity |].
      intros n l Hin. destruct regularizer as [r |]; [| destruct Hin].
      split; [| discriminate].
      destruct (r _); [| destruct Hin].
      destruct Hin as [[= <- _] | []]. reflexivity.
Qed.

(** A variable that the graph holds with the shape asked for is returned
    as it is, and the graph stays as it is, when the scope reuses
    variables. *)
Lemma get_variable_reuses (scope : variable_scope) (name : string)
  (shape : list nat) (initializer : string -> list nat -> list (list num))
  (regularizer : option regularizer_fn) (g : graph) (v : variable) :
  vs_reuse scope <> NO_REUSE ->
  lookup (full_name scope name) (variables g) = Some v ->
  var_shape v = shape ->
  get_variable scope name shape initializer regularizer g = Ok (v, g).
Proof.
  intros Hr Hv Hs. unfold get_variable. rewrite Hv.
  destruct (list_eq_dec Nat.eq_dec shape (var_shape v)) as [_ | N];
    [| congruence].
  now destruct (vs_reuse scope).
Qed.

Lemma get_variable_refuses (scope : variable_scope) (name : string)
  (shape : list nat) (initializer : string -> list nat -> list (list num))
  (regularizer : option regularizer_fn) (g : graph) (v : variable) :
  lookup (full_name scope name) (variables g) = Some v ->
  vs_reuse scope = NO_REUSE \/ var_shape v <> shape ->
  get_variable scope name shape initializer regularizer g = Raise ValueError.
Proof.
  intros Hv H. unfold get_variable. rewrite Hv.
  destruct H as [-> | N]; [reflexivity |].
  destruct (list_eq_dec Nat.eq_dec shape (var_shape v)) as [E | _];
    [congruence |].
  now destruct (vs_reuse scope).
Qed.

(** ** One layer of a network *)

Lemma feedforward_layer_returns (scope : variable_scope)
  (initializer : string -> list nat -> list (list num))
  (len i prev_size layer_size : nat) (out res : matrix)
  (activation_fn output_nonlinearity : option (matrix -> matrix))
  (regularizer : option regularizer_fn) (g g' : graph) :
  feedforward_layer scope initializer len i prev_size layer_size out
                    activation_fn output_nonlinearity regularizer g = Ok (res, g') ->
  exists weight bias g1 product z,
    get_variable scope (weight_name i) [prev_size; layer_size]
                 initializer regularizer g = Ok (weight, g1) /\
    get_variable scope (bias_name i) [layer_size] initializer None g1
    = Ok (bias, g') /\
    matmul out weight = Ok product /\
    add_bias product bias = Ok z /\
    res = nonlinearity_of len i activation_fn output_nonlinearity z.
Proof.
  unfold feedforward_layer, gbind, glift, nonlinearity_of. intros H.
  destruct (get_variable scope (weight_name i) _ _ _ g) as [[weight g1] |] eqn:Ew;
    [| discriminate].
  destruct (get_variable scope (bias_name i) _ _ _ g1) as [[bias g2] |] eqn:Eb;
    [| discriminate].
  destruct (matmul out weight) as [product |] eqn:Em; [| discriminate].
  destruct (add_bias product bias) as [z |] eqn:Ea; [| discriminate].
  exists weight, bias, g1, product, z.
  destruct (if Nat.ltb i (len - 1) then activation_fn else None);
    [| destruct (if Nat.eqb i (len - 1) then output_nonlinearity else None)];
    unfold gret in H; injection H as <- <-; now repeat split.
Qed.

Lemma feedforward_layer_runs (scope : variable_scope)
  (initializer : string -> list nat -> list (list num))
  (len i prev_size layer_size : nat) (out : matrix)
  (activation_fn output_nonlinearity : option (matrix -> matrix))
  (regularizer : option regularizer_fn) (g g1 g' : graph)
  (weight bias : variable) (product z : matrix) :
  get_variable scope (weight_name i) [prev_size; layer_size]
               initializer regularizer g = Ok (weight, g1) ->
  get_variable scope (bias_name i) [layer_size] initializer None g1 = Ok (bias, g') ->
  matmul out weight = Ok product ->
  add_bias product bias = Ok z ->
  feedforward_layer scope initializer len i prev_size layer_size out
                    activation_fn output_nonlinearity regularizer g
  = Ok (nonlinearity_of len i activation_fn output_nonlinearity z, g').
Proof.
  intros Hw Hb Hm Ha.
  unfold feedforward_layer, gbind, glift, nonlinearity_of.
  rewrite Hw, Hb, Hm, Ha.
  destruct (if Nat.ltb i (len - 1) then activation_fn else None);
    [| destruct (if Nat.eqb i (len - 1) then output_nonlinearity else None)];
    reflexivity.
Qed.

(** ** Networks share their variables *)

Lemma feedforward_loop_extends (scope : variable_scope)
  (activation_fn output_nonlinearity : option (matrix -> matrix)) (len : nat) :
  forall layer_sizes initializer regularizer i prev_size out res g g',
    feedforward_loop scope initializer len i layer_sizes prev_size out
                     activation_fn output_nonlinearity regularizer g = Ok (res, g') ->
    extends g g'.
Proof.
  induction layer_sizes as [| layer_size rest IH];
    intros initializer regularizer i prev_size out res g g' H.
  - injection H as <- <-. apply extends_refl.
  - cbn [feedforward_loop] in H. unfold gbind in H.
    destruct (feedforward_layer scope initializer len i prev_size layer_size out
                activation_fn output_nonlinearity regularizer g)
      as [[out1 g1] |] eqn:Elayer; [| discriminate].
    apply feedforward_layer_returns in Elayer
      as (weight & bias & ga & product & z & Hw & Hb & Hm & Ha & ->).
    apply get_variable_returns in Hw as (_ & _ & Xw & _).
    apply get_variable_returns in Hb as (_ & _ & Xb & _).
    apply IH in H. eauto using extends_trans.
Qed.

Lemma feedforward_loop_shares (scope : variable_scope)
  (activation_fn output_nonlinearity : option (matrix -> matrix)) (len : nat) :
  vs_reuse scope <> NO_REUSE ->
  forall layer_sizes initializer regularizer i prev_size out res g g',
    feedforward_loop scope initializer len i layer_sizes prev_size out
                     activation_fn output_nonlinearity regularizer g = Ok (res, g') ->
    extends g g' /\
    forall g'' initializer' regularizer',
      extends g' g'' ->
      feedforward_loop scope initializer' len i layer_sizes prev_size out
                       activation_fn output_nonlinearity regularizer' g''
      = Ok (res, g'').
Proof.
  intros Hreuse.
  induction layer_sizes as [| layer_size rest IH];
    intros initializer regularizer i prev_size out res g g' H.
  - injection H as <- <-. split; [apply extends_refl | reflexivity].
  - cbn [feedforward_loop] in H. unfold gbind in H.
    destruct (feedforward_layer scope initializer len i prev_size layer_size out
                activation_fn output_nonlinearity regularizer g)
      as [[out1 g1] |] eqn:Elayer; [| discriminate].
    apply feedforward_layer_returns in Elayer
      as (weight & bias & ga & product & z & Hw & Hb & Hm & Ha & ->).
    apply get_variable_returns in Hw as (Sw & Lw & Xw & _).
    apply get_variable_returns in Hb as (Sb & Lb & Xb & _).
    destruct (IH _ _ _ _ _ _ _ _ H) as [Xrest Hagain].
    split; [eauto using extends_trans |].
    intros g'' initializer' regularizer' Hext.
    cbn [feedforward_loop]. unfold gbind.
    rewrite (feedforward_layer_runs scope initializer' len i prev_size layer_size out
               activation_fn output_nonlinearity regularizer' g'' g'' g''
               weight bias product z); auto.
    + apply get_variable_reuses; auto.
    + apply get_variable_reuses; auto.
Qed.

(** X15: In a variable scope that reuses variables (the coupling layer opens its
    scopes with [AUTO_REUSE]), a call of [feedforward_net] that has returned
    once returns the same output when it is made again on the same inputs:
    it finds the variables of the first call, draws no new value from the
    initializers, collects no new regularization loss and leaves the graph
    as it is. *)
Theorem feedforward_net_shares_its_variables (scope : variable_scope)
  (initializer initializer' : string -> list nat -> list (list num))
  (inputs out : matrix) (layer_sizes : list nat)
  (activation_fn output_nonlinearity : option (matrix -> matrix))
  (regularizer regularizer' : option regularizer_fn) (g g' : graph) :
  vs_reuse scope <> NO_REUSE ->
  feedforward_net scope initializer inputs layer_sizes
                  activation_fn output_nonlinearity regularizer g = Ok (out, g') ->
  feedforward_net scope initializer' inputs layer_sizes
                  activation_fn output_nonlinearity regularizer' g' = Ok (out, g').
Proof.
  intros Hreuse H. unfold feedforward_net in *.
  eapply feedforward_loop_shares in H as [_ Hagain]; [| exact Hreuse].
  apply Hagain, extends_refl.
Qed.

Lemma feedforward_net_shares_its_variables_witness :
  exists out g',
    feedforward_net sharing_scope ones_and_twos two_by_two [3; 2]%nat
                    (Some tf_tanh) None (Some unit_loss) empty_graph = Ok (out, g') /\
    feedforward_net sharing_scope (fun _ _ => []) two_by_two [3; 2]%nat
                    (Some tf_tanh) None None g' = Ok (out, g').
Proof.
  destruct (feedforward_net sharing_scope ones_and_twos two_by_two [3; 2]%nat
              (Some tf_tanh) None (Some unit_loss) empty_graph)
    as [[out g'] | e] eqn:E;
    [| cbv -[Rmult Rplus tanh IZR] in E; discriminate E].
  exists out, g'. split; [reflexivity |].
  apply (feedforward_net_shares_its_variables sharing_scope ones_and_twos
           (fun _ _ => []) two_by_two out [3; 2]%nat (Some tf_tanh) None
           (Some unit_loss) None empty_graph g').
  - discriminate.
  - exact E.
Defined.

(** X16: After a call of [feedforward_net] with at least one layer has
    returned, a second call in a scope of the same name raises [ValueError]
    when the scope does not reuse variables, and also when its inputs have
    another width than those of the first call: the first weight exists and
    has another shape than the one asked for. *)
Theorem feedforward_net_refuses_what_it_cannot_share
  (scope scope' : variable_scope)
  (initializer initializer' : string -> list nat -> list (list num))
  (inputs inputs' out : matrix) (layer_size : nat) (layer_sizes : list nat)
  (activation_fn output_nonlinearity : option (matrix -> matrix))
  (regularizer regularizer' : option regularizer_fn) (g g' : graph) :
  feedforward_net scope initializer inputs (layer_size :: layer_sizes)
                  activation_fn output_nonlinearity regularizer g = Ok (out, g') ->
  vs_name scope' = vs_name scope ->
  vs_reuse scope' = NO_REUSE \/ n_cols inputs' <> n_cols inputs ->
  feedforward_net scope' initializer' inputs' (layer_size :: layer_sizes)
                  activation_fn output_nonlinearity regularizer' g'
  = Raise ValueError.
Proof.
  intros H Hname Hwhy. unfold feedforward_net in *.
  cbn [feedforward_loop] in *. unfold gbind in *.
  destruct (feedforward_layer scope initializer _ 0 (n_cols inputs) layer_size inputs
              activation_fn output_nonlinearity regularizer g)
    as [[out1 g1] |] eqn:Elayer; [| discriminate].
  apply feedforward_layer_returns in Elayer
    as (weight & bias & ga & product & z & Hw & Hb & Hm & Ha & ->).
  apply get_variable_returns in Hw as (Sw & Lw & Xw & _).
  apply get_variable_returns in Hb as (Sb & Lb & Xb & _).
  apply feedforward_loop_extends in H.
  unfold feedforward_layer, gbind.
  rewrite (get_variable_refuses scope' (weight_name 0) _ initializer'
             regularizer' g' weight); [reflexivity | |].
  - unfold full_name in *. rewrite Hname. auto.
  - destruct Hwhy as [Hno | Hwidth]; [now left | right].
    rewrite Sw. intros [= E]. congruence.
Qed.

Lemma feedforward_net_refuses_what_it_cannot_share_witness :
  exists out g',
    feedforward_net sharing_scope ones_and_twos two_by_two [3; 2]%nat
                    (Some tf_tanh) None None empty_graph = Ok (out, g') /\
    feedforward_net strict_scope ones_and_twos two_by_two [3; 2]%nat
                    (Some tf_tanh) None None g' = Raise ValueError /\
    feedforward_net sharing_scope ones_and_twos two_by_three [3; 2]%nat
                    (Some tf_tanh) None None g' = Raise ValueError.
Proof.
  destruct (feedforward_net sharing_scope ones_and_twos two_by_two [3; 2]%nat
              (Some tf_tanh) None None empty_graph)
    as [[out g'] | e] eqn:E;
    [| cbv -[Rmult Rplus tanh IZR] in E; discriminate E].
  exists out, g'. split; [reflexivity |]. split.
  - apply (feedforward_net_refuses_what_it_cannot_share sharing_scope strict_scope
             ones_and_twos ones_and_twos two_by_two two_by_two out 3 [2]%nat
             (Some tf_tanh) None None None empty_graph g');
      [exact E | reflexivity | now left].
  - apply (feedforward_net_refuses_what_it_cannot_share sharing_scope sharing_scope
             ones_and_twos ones_and_twos two_by_two two_by_three out 3 [2]%nat
             (Some tf_tanh) None None None empty_graph g');
      [exact E | reflexivity | right; discriminate].
Defined.

(** ** The shape of what a network returns *)

Lemma matmul_shape (a product : matrix) (w : variable) (p l : nat) :
  matmul a w = Ok product -> var_shape w = [p; l] ->
  n_cols a = p /\ n_cols product = l /\
  length (m_rows product) = length (m_rows a).
Proof.
  unfold matmul. intros H Hs. rewrite Hs in H.
  destruct (Nat.eqb_spec (n_cols a) p) as [E | _]; [| discriminate].
  injection H as <-. cbn [n_cols m_rows]. now rewrite length_map.
Qed.

Lemma add_bias_shape (z out : matrix) (bias : variable) (l : nat) :
  add_bias z bias = Ok out -> var_shape bias = [l] ->
  n_cols out = l /\ length (m_rows out) = length (m_rows z).
Proof.
  unfold add_bias. intros H Hs. rewrite Hs in H.
  destruct (Nat.eqb_spec (n_cols z) l) as [E | _]; [| discriminate].
  injection H as <-. cbn [n_cols m_rows]. now rewrite length_map.
Qed.

Lemma nonlinearity_of_shape (len i : nat)
  (activation_fn output_nonlinearity : option (matrix -> matrix)) (z : matrix) :
  keeps_shape activation_fn -> keeps_shape output_nonlinearity ->
  n_cols (nonlinearity_of len i activation_fn output_nonlinearity z) = n_cols z /\
  length (m_rows (nonlinearity_of len i activation_fn output_nonlinearity z))
  = length (m_rows z).
Proof.
  intros Ha Ho. unfold nonlinearity_of.
  destruct (Nat.ltb i (len - 1)), activation_fn as [f |];
    try (now apply (Ha f));
    destruct (Nat.eqb i (len - 1)), output_nonlinearity as [h |];
    try (now apply (Ho h)); now split.
Qed.

Lemma last_cons {A} (a d : A) (l : list A) : last (a :: l) d = last l a.
Proof.
  revert a d. induction l as [| b l IH]; intros a d; [reflexivity |].
  change (last (a :: b :: l) d) with (last (b :: l) d).
  now rewrite (IH b d), (IH b a).
Qed.

Lemma feedforward_loop_shape (scope : variable_scope)
  (activation_fn output_nonlinearity : option (matrix -> matrix)) (len : nat) :
  keeps_shape activation_fn -> keeps_shape output_nonlinearity ->
  forall layer_sizes initializer regularizer i prev_size out res g g',
    feedforward_loop scope initializer len i layer_sizes prev_size out
                     activation_fn output_nonlinearity regularizer g = Ok (res, g') ->
    n_cols res = last layer_sizes (n_cols out) /\
    length (m_rows res) = length (m_rows out).
Proof.
  intros Hact Hout.
  induction layer_sizes as [| layer_size rest IH];
    intros initializer regularizer i prev_size out res g g' H.
  - injection H as <- <-. now split.
  - cbn [feedforward_loop] in H. unfold gbind in H.
    destruct (feedforward_layer scope initializer len i prev_size layer_size out
                activation_fn output_nonlinearity regularizer g)
      as [[out1 g1] |] eqn:Elayer; [| discriminate].
    apply feedforward_layer_returns in Elayer
      as (weight & bias & ga & product & z & Hw & Hb & Hm & Ha & ->).
    apply get_variable_returns in Hw as (Sw & _).
    apply get_variable_returns in Hb as (Sb & _).
    destruct (matmul_shape _ _ _ _ _ Hm Sw) as (_ & _ & Rm).
    destruct (add_bias_shape _ _ _ _ Ha Sb) as (Cz & Rz).
    destruct (nonlinearity_of_shape len i activation_fn output_nonlinearity z
                Hact Hout) as (Cn & Rn).
    apply IH in H as (Cres & Rres).
    rewrite last_cons. split; congruence.
Qed.

Lemma tf_tanh_keeps_shape : keeps_shape (Some tf_tanh).
Proof.
  intros h z [= <-]. unfold tf_tanh. cbn [n_cols m_rows].
  now rewrite length_map.
Qed.

Lemma none_keeps_shape : keeps_shape None.
Proof. intros h z H. discriminate. Qed.

(** X17: When [feedforward_net] returns, with nonlinearities that keep the shape
    of their argument, its output has as many rows as its inputs and the
    width of the last layer; without layers, it is the inputs themselves and
    the graph is untouched. *)
Theorem feedforward_net_output_shape (scope : variable_scope)
  (initializer : string -> list nat -> list (list num))
  (inputs out : matrix) (layer_sizes : list nat)
  (activation_fn output_nonlinearity : option (matrix -> matrix))
  (regularizer : option regularizer_fn) (g g' : graph) :
  keeps_shape activation_fn -> keeps_shape output_nonlinearity ->
  feedforward_net scope initializer inputs layer_sizes
                  activation_fn output_nonlinearity regularizer g = Ok (out, g') ->
  n_cols out = last layer_sizes (n_cols inputs) /\
  length (m_rows out) = length (m_rows inputs) /\
  (layer_sizes = [] -> out = inputs /\ g' = g).
Proof.
  intros Hact Hout H. unfold feedforward_net in H.
  destruct (feedforward_loop_shape scope activation_fn output_nonlinearity _
              Hact Hout _ _ _ _ _ _ _ _ _ H) as [Hc Hr].
  repeat split; auto; subst layer_sizes; now injection H.
Qed.

Lemma feedforward_net_output_shape_witness :
  exists out g',
    feedforward_net sharing_scope ones_and_twos two_by_three [4; 5]%nat
                    (Some tf_tanh) None None empty_graph = Ok (out, g') /\
    n_cols out = 5%nat /\ length (m_rows out) = 2%nat.
Proof.
  destruct (feedforward_net sharing_scope ones_and_twos two_by_three [4; 5]%nat
              (Some tf_tanh) None None empty_graph)
    as [[out g'] | e] eqn:E;
    [| cbv -[Rmult Rplus tanh IZR] in E; discriminate E].
  exists out, g'. split; [reflexivity |].
  destruct (feedforward_net_output_shape sharing_scope ones_and_twos two_by_three out
              [4; 5]%nat (Some tf_tanh) None None empty_graph g'
              tf_tanh_keeps_shape none_keeps_shape E) as (Hc & Hr & _).
  now split.
Defined.

(** ** Which variables are regularized *)

Lemma append_same_prefix (s a b : string) :
  String.append s a = String.append s b -> a = b.
Proof.
  induction s as [| c s IH]; simpl; [auto |]. intros [= H]. auto.
Qed.

Lemma weight_is_not_bias (scope : variable_scope) (i j : nat) :
  full_name scope (weight_name i) <> full_name scope (bias_name j).
Proof.
  unfold full_name, weight_name, bias_name.
  destruct (String.eqb (vs_name scope) ""); [discriminate |].
  intros H. apply append_same_prefix in H. discriminate.
Qed.

Lemma feedforward_loop_losses (scope : variable_scope)
  (activation_fn output_nonlinearity : option (matrix -> matrix)) (len : nat) :
  forall layer_sizes initializer regularizer i prev_size out res g g',
    feedforward_loop scope initializer len i layer_sizes prev_size out
                     activation_fn output_nonlinearity regularizer g = Ok (res, g') ->
    exists losses,
      regularization_losses g' = (regularization_losses g ++ losses)%list /\
      forall n l, In (n, l) losses ->
                  regularizer <> None /\
                  exists k, (i <= k < i + length layer_sizes)%nat /\
                            n = full_name scope (weight_name k).
Proof.
  induction layer_sizes as [| layer_size rest IH];
    intros initializer regularizer i prev_size out res g g' H.
  - injection H as <- <-. exists []. split; [now rewrite app_nil_r | intros n l []].
  - cbn [feedforward_loop] in H. unfold gbind in H.
    destruct (feedforward_layer scope initializer len i prev_size layer_size out
                activation_fn output_nonlinearity regularizer g)
      as [[out1 g1] |] eqn:Elayer; [| discriminate].
    apply feedforward_layer_returns in Elayer
      as (weight & bias & ga & product & z & Hw & Hb & Hm & Ha & ->).
    apply get_variable_returns in Hw as (_ & _ & _ & lw & Ew & Hlw).
    apply get_variable_returns in Hb as (_ & _ & _ & lb & Eb & Hlb).
    apply IH in H as (lrest & Erest & Hlrest).
    assert (lb = []).
    { destruct lb as [| [n l] lb]; [reflexivity |].
      destruct (Hlb n l (or_introl eq_refl)) as [_ N]. now contradiction N. }
    subst lb. rewrite app_nil_r in Eb.
    exists (lw ++ lrest)%list. split.
    + now rewrite Erest, Eb, Ew, app_assoc.
    + intros n l Hin. apply in_app_or in Hin as [Hin | Hin].
      * destruct (Hlw n l Hin) as [-> N]. split; [exact N |].
        exists i. split; [simpl; lia | reflexivity].
      * destruct (Hlrest n l Hin) as [N (k & Hk & ->)]. split; [exact N |].
        exists k. split; [simpl; lia | reflexivity].
Qed.

(** X18: [feedforward_net] hands its regularizer to the weights only: the
    regularization losses that a call adds to the graph all belong to
    weights of the network, none to a bias, and a call without regularizer
    adds none. *)
Theorem only_weights_are_regularized (scope : variable_scope)
  (initializer : string -> list nat -> list (list num))
  (inputs out : matrix) (layer_sizes : list nat)
  (activation_fn output_nonlinearity : option (matrix -> matrix))
  (regularizer : option regularizer_fn) (g g' : graph) :
  feedforward_net scope initializer inputs layer_sizes
                  activation_fn output_nonlinearity regularizer g = Ok (out, g') ->
  exists losses,
    regularization_losses g' = (regularization_losses g ++ losses)%list /\
    (regularizer = None -> losses = []) /\
    forall n l, In (n, l) losses ->
                (exists k, (k < length layer_sizes)%nat /\
                           n = full_name scope (weight_name k)) /\
                forall j, n <> full_name scope (bias_name j).
Proof.
  intros H. unfold feedforward_net in H.
  apply feedforward_loop_losses in H as (losses & E & Hl).
  exists losses. split; [exact E |]. split.
  - intros ->. destruct losses as [| [n l] losses]; [reflexivity |].
    destruct (Hl n l (or_introl eq_refl)) as [N _]. now contradiction N.
  - intros n l Hin. destruct (Hl n l Hin) as [_ (k & Hk & ->)]. split.
    + exists k. split; [lia | reflexivity].
    + intros j. apply weight_is_not_bias.
Qed.

Lemma only_weights_are_regularized_witness :
  exists out g',
    feedforward_net sharing_scope ones_and_twos two_by_two [3; 2]%nat
                    (Some tf_tanh) None (Some unit_loss) empty_graph = Ok (out, g') /\
    forall n l, In (n, l) (regularization_losses g') ->
                (exists k, (k < 2)%nat /\ n = full_name sharing_scope (weight_name k)) /\
                forall j, n <> full_name sharing_scope (bias_name j).
Proof.
  destruct (feedforward_net sharing_scope ones_and_twos two_by_two [3; 2]%nat
              (Some tf_tanh) None (Some unit_loss) empty_graph)
    as [[out g'] | e] eqn:E;
    [| cbv -[Rmult Rplus tanh IZR] in E; discriminate E].
  exists out, g'. split; [reflexivity |].
  destruct (only_weights_are_regularized sharing_scope ones_and_twos two_by_two out
              [3; 2]%nat (Some tf_tanh) None (Some unit_loss) empty_graph g' E)
    as (losses & El & _ & Hl).
  rewrite El. exact Hl.
Defined.

(** ** Hidden layers and the last layer *)

Lemma feedforward_layer_eq (scope : variable_scope)
  (initializer : string -> list nat -> list (list num))
  (len i prev_size layer_size : nat) (out : matrix)
  (activation_fn output_nonlinearity : option (matrix -> matrix))
  (regularizer : option regularizer_fn) (g : graph) :
  feedforward_layer scope initializer len i prev_size layer_size out
                    activation_fn output_nonlinearity regularizer g
  = (weight <~ get_variable scope (weight_name i) [prev_size; layer_size]
                            initializer regularizer ;;
     bias <~ get_variable scope (bias_name i) [layer_size] initializer None ;;
     product <~ glift (matmul out weight) ;;
     z <~ glift (add_bias product bias) ;;
     gret (nonlinearity_of len i activation_fn output_nonlinearity z)) g.
Proof.
  unfold feedforward_layer, gbind, glift, nonlinearity_of.
  destruct (get_variable scope (weight_name i) _ _ _ g) as [[weight g1] |];
    [| reflexivity].
  destruct (get_variable scope (bias_name i) _ _ _ g1) as [[bias g2] |];
    [| reflexivity].
  destruct (matmul out weight) as [product |]; [| reflexivity].
  destruct (add_bias product bias) as [z |]; [| reflexivity].
  destruct (if Nat.ltb i (len - 1) then activation_fn else None);
    [| destruct (if Nat.eqb i (len - 1) then output_nonlinearity else None)];
    reflexivity.
Qed.

Lemma feedforward_layer_congr (scope : variable_scope)
  (initializer : string -> list nat -> list (list num))
  (len len' i prev_size layer_size : nat) (out : matrix)
  (activation_fn output_nonlinearity activation_fn' output_nonlinearity'
     : option (matrix -> matrix))
  (regularizer : option regularizer_fn) (g : graph) :
  (forall z, nonlinearity_of len i activation_fn output_nonlinearity z
             = nonlinearity_of len' i activation_fn' output_nonlinearity' z) ->
  feedforward_layer scope initializer len i prev_size layer_size out
                    activation_fn output_nonlinearity regularizer g
  = feedforward_layer scope initializer len' i prev_size layer_size out
                      activation_fn' output_nonlinearity' regularizer g.
Proof.
  intros H. rewrite !feedforward_layer_eq. unfold gbind, glift, gret.
  destruct (get_variable scope (weight_name i) _ _ _ g) as [[weight g1] |];
    [| reflexivity].
  destruct (get_variable scope (bias_name i) _ _ _ g1) as [[bias g2] |];
    [| reflexivity].
  destruct (matmul out weight) as [product |]; [| reflexivity].
  destruct (add_bias product bias) as [z |]; [| reflexivity].
  now rewrite H.
Qed.

Lemma nonlinearity_of_hidden (len i : nat)
  (activation_fn output_nonlinearity : option (matrix -> matrix)) (z : matrix) :
  (i < len - 1)%nat ->
  nonlinearity_of len i activation_fn output_nonlinearity z
  = nonlinearity_of (len - 1) i activation_fn activation_fn z.
Proof.
  intros Hi. unfold nonlinearity_of.
  destruct (Nat.ltb_spec i (len - 1)) as [_ | N]; [| lia].
  destruct (Nat.eqb_spec i (len - 1)) as [E | _]; [lia |].
  destruct activation_fn as [f |].
  - destruct (Nat.ltb_spec i (len - 1 - 1)) as [_ | N]; [reflexivity |].
    destruct (Nat.eqb_spec i (len - 1 - 1)) as [_ | N']; [reflexivity | lia].
  - destruct (Nat.ltb i (len - 1 - 1)), (Nat.eqb i (len - 1 - 1)); reflexivity.
Qed.

Lemma nonlinearity_of_last (len : nat)
  (activation_fn output_nonlinearity : option (matrix -> matrix)) (z : matrix) :
  nonlinearity_of (S len) len activation_fn output_nonlinearity z
  = nonlinearity_of (S len) len None output_nonlinearity z.
Proof.
  unfold nonlinearity_of.
  replace (S len - 1)%nat with len by lia. now rewrite Nat.ltb_irrefl.
Qed.

Lemma feedforward_loop_split (scope : variable_scope)
  (initializer : string -> list nat -> list (list num))
  (activation_fn output_nonlinearity : option (matrix -> matrix))
  (regularizer : option regularizer_fn) (last_size : nat) :
  forall hidden i prev_size out g,
    feedforward_loop scope initializer (S (i + length hidden)) i
                     (hidden ++ [last_size]) prev_size out
                     activation_fn output_nonlinearity regularizer g
    = (h <~ feedforward_loop scope initializer (i + length hidden) i hidden
                             prev_size out activation_fn activation_fn regularizer ;;
       feedforward_layer scope initializer (S (i + length hidden)) (i + length hidden)
                         (last hidden prev_size) last_size h
                         None output_nonlinearity regularizer) g.
Proof.
  induction hidden as [| size hidden IH]; intros i prev_size out g.
  - cbn [app length feedforward_loop last]. rewrite Nat.add_0_r.
    unfold gbind, gret; cbv beta iota.
    rewrite (feedforward_layer_congr scope initializer (S i) (S i) i prev_size
               last_size out activation_fn output_nonlinearity None
               output_nonlinearity regularizer g)
      by (intros z; apply nonlinearity_of_last).
    destruct (feedforward_layer _ _ _ _ _ _ _ _ _ _ g) as [[h g1] |]; reflexivity.
  - cbn [app length feedforward_loop]. rewrite last_cons.
    replace (i + S (length hidden))%nat with (S i + length hidden)%nat by lia.
    unfold gbind; cbv beta iota.
    rewrite (feedforward_layer_congr scope initializer (S (S i + length hidden))
               (S i + length hidden) i prev_size size out
               activation_fn output_nonlinearity activation_fn activation_fn
               regularizer g).
    2: { intros z. rewrite nonlinearity_of_hidden by lia.
         now replace (S (S i + length hidden) - 1)%nat
           with (S i + length hidden)%nat by lia. }
    destruct (feedforward_layer _ _ _ _ _ _ _ _ _ _ g) as [[o g1] |];
      [| reflexivity].
    rewrite IH. reflexivity.
Qed.

(** X19: A network over the layer sizes [hidden ++ [last_size]] is the network
    over [hidden] with the hidden activation after every one of its layers,
    followed by one more layer whose nonlinearity is the output
    nonlinearity: the hidden activation is never applied to the last layer
    and the output nonlinearity is applied to no other. *)
Theorem hidden_layers_then_the_last (scope : variable_scope)
  (initializer : string -> list nat -> list (list num))
  (inputs : matrix) (hidden : list nat) (last_size : nat)
  (activation_fn output_nonlinearity : option (matrix -> matrix))
  (regularizer : option regularizer_fn) (g : graph) :
  feedforward_net scope initializer inputs (hidden ++ [last_size])
                  activation_fn output_nonlinearity regularizer g
  = (h <~ feedforward_net scope initializer inputs hidden
                          activation_fn activation_fn regularizer ;;
     feedforward_layer scope initializer (S (length hidden)) (length hidden)
                       (last hidden (n_cols inputs)) last_size h
                       None output_nonlinearity regularizer) g.
Proof.
  unfold feedforward_net. rewrite length_app. cbn [length].
  replace (length hidden + 1)%nat with (S (0 + length hidden)) by lia.
  rewrite feedforward_loop_split. reflexivity.
Qed.

(** ** The two closures of [build] *)

Lemma concat_axis1_shape (a b joined : matrix) :
  concat_axis1 a b = Ok joined ->
  length (m_rows a) = length (m_rows b) /\
  n_cols joined = (n_cols a + n_cols b)%nat /\
  length (m_rows joined) = length (m_rows a).
Proof.
  unfold concat_axis1.
  destruct (Nat.eqb_spec (length (m_rows a)) (length (m_rows b))) as [E | _];
    [| discriminate].
  intros H. injection H as <-. cbn [n_cols m_rows].
  rewrite length_map, length_combine. repeat split; auto. lia.
Qed.

Lemma layer_sizes_of_returns (hidden_sizes : list Z) (last_size : nat)
  (layer_sizes : list nat) :
  layer_sizes_of hidden_sizes last_size = Ok layer_sizes ->
  Forall (fun size => (0 <= size)%Z) hidden_sizes /\
  length layer_sizes = S (length hidden_sizes) /\
  last layer_sizes 0%nat = last_size.
Proof.
  unfold layer_sizes_of.
  destruct (forallb (fun size => (0 <=? size)%Z) hidden_sizes) eqn:E;
    [| discriminate].
  intros H. injection H as <-. repeat split.
  - apply Forall_forall. intros size Hin.
    rewrite forallb_forall in E. apply Z.leb_le. now apply E.
  - rewrite length_app, length_map. cbn [length]. lia.
  - now rewrite last_last.
Qed.

Lemma wrapper_shape (hidden_sizes : list Z) (scope : variable_scope)
  (initializer : string -> list nat -> list (list num))
  (regularizer : option regularizer_fn)
  (inputs observations out : matrix) (g g' : graph) :
  (joined <~ glift (concat_axis1 inputs observations) ;;
   layer_sizes <~ glift (layer_sizes_of hidden_sizes (n_cols inputs)) ;;
   feedforward_net scope initializer joined layer_sizes (Some tf_tanh) None
                   regularizer) g = Ok (out, g') ->
  n_cols out = n_cols inputs /\
  length (m_rows out) = length (m_rows inputs) /\
  length (m_rows inputs) = length (m_rows observations) /\
  Forall (fun size => (0 <= size)%Z) hidden_sizes.
Proof.
  unfold gbind, glift. intros H.
  destruct (concat_axis1 inputs observations) as [joined |] eqn:Ej;
    [| discriminate].
  destruct (layer_sizes_of hidden_sizes (n_cols inputs)) as [layer_sizes |] eqn:El;
    [| discriminate].
  apply concat_axis1_shape in Ej as (Hb & _ & Hr).
  apply layer_sizes_of_returns in El as (Hs & Hlen & Hlast).
  unfold feedforward_net in H.
  apply (feedforward_loop_shape scope (Some tf_tanh) None _
           tf_tanh_keeps_shape none_keeps_shape) in H as (Hc & Hrows).
  repeat split; auto; [| congruence].
  rewrite Hc. destruct layer_sizes as [| size rest]; [discriminate |].
  rewrite <- Hlast.
  clear. revert size. induction rest as [| s rest IH]; intros size; [reflexivity |].
  change (last (size :: s :: rest) (n_cols joined)) with (last (s :: rest) (n_cols joined)).
  change (last (size :: s :: rest) 0%nat) with (last (s :: rest) 0%nat).
  apply IH.
Qed.

(** X20: When the translation network or the scale network of [build] returns,
    its output has the shape of [inputs], whatever the hidden sizes and the
    width of the observations, which is what the layers need to multiply it
    by the mask; [inputs] and [observations] then have the same number of
    rows. *)
Theorem wrappers_return_the_shape_of_their_inputs
  (config : RealNVPBijector.Config) (l2_regularizer : R -> regularizer_fn)
  (scope : variable_scope) (initializer : string -> list nat -> list (list num))
  (inputs observations out : matrix) (g g' : graph) :
  translation_wrapper config scope initializer inputs observations g = Ok (out, g') \/
  scale_wrapper config l2_regularizer scope initializer inputs observations g
    = Ok (out, g') ->
  n_cols out = n_cols inputs /\
  length (m_rows out) = length (m_rows inputs) /\
  length (m_rows inputs) = length (m_rows observations).
Proof.
  unfold translation_wrapper, scale_wrapper.
  intros [H | H]; apply wrapper_shape in H as (Hc & Hr & Hb & _); auto.
Qed.

Lemma wrappers_return_the_shape_of_their_inputs_witness :
  exists out g',
    translation_wrapper
      {| RealNVPBijector.num_coupling_layers := 2;
         RealNVPBijector.translation_hidden_sizes := [3%Z];
         RealNVPBijector.scale_hidden_sizes := [3%Z];
         RealNVPBijector.scale_regularization := 500 |}
      sharing_scope ones_and_twos two_by_two two_by_three empty_graph = Ok (out, g') /\
    n_cols out = 2%nat /\ length (m_rows out) = 2%nat.
Proof.
  destruct (translation_wrapper
              {| RealNVPBijector.num_coupling_layers := 2;
                 RealNVPBijector.translation_hidden_sizes := [3%Z];
                 RealNVPBijector.scale_hidden_sizes := [3%Z];
                 RealNVPBijector.scale_regularization := 500 |}
              sharing_scope ones_and_twos two_by_two two_by_three empty_graph)
    as [[out g'] | e] eqn:E;
    [| cbv -[Rmult Rplus tanh IZR] in E; discriminate E].
  exists out, g'. split; [reflexivity |].
  destruct (wrappers_return_the_shape_of_their_inputs _ (fun _ => unit_loss)
              _ _ _ _ _ _ _ (or_introl E)) as (Hc & Hr & _).
  split; [exact Hc | exact Hr].
Defined.

(** ** The variants of an experiment *)

Lemma lookup_dict_set {A : Type} (key key' : string) (val : A) (d : dict A) :
  lookup key' (dict_set key val d)
  = if String.eqb key key' then Some val else lookup key' d.
Proof.
  induction d as [| [k v] rest IH]; cbn [dict_set lookup].
  - reflexivity.
  - destruct (String.eqb_spec k key) as [-> | Hk]; cbn [lookup].
    + destruct (String.eqb key key'); reflexivity.
    + rewrite IH. destruct (String.eqb_spec k key') as [-> | Hk'].
      * destruct (String.eqb_spec key key') as [E | _]; [congruence | reflexivity].
      * reflexivity.
Qed.

Lemma lookup_not_in {A : Type} (key : string) (d : dict A) :
  ~ In key (map fst d) -> lookup key d = None.
Proof.
  induction d as [| [k v] rest IH]; cbn [map fst In lookup]; intros H.
  - reflexivity.
  - destruct (String.eqb_spec k key) as [E | _]; [tauto |].
    apply IH. tauto.
Qed.

Lemma lookup_in_keys {A : Type} (key : string) (d : dict A) :
  In key (map fst d) <-> exists val, lookup key d = Some val.
Proof.
  induction d as [| [k v] rest IH]; cbn [map fst In lookup].
  - split; [tauto | intros [val H]; discriminate].
  - destruct (String.eqb_spec k key) as [E | N].
    + split; [intros _; now exists v | auto].
    + rewrite <- IH. tauto.
Qed.

Lemma lookup_dict_update {A : Type} (key : string) (other : dict A) :
  NoDup (map fst other) ->
  forall d,
    lookup key (dict_update d other)
    = match lookup key other with
      | Some val => Some val
      | None => lookup key d
      end.
Proof.
  unfold dict_update.
  induction other as [| [k v] rest IH]; cbn [map fst fold_left snd lookup];
    intros Hkeys d.
  - reflexivity.
  - inversion Hkeys as [| ? ? Hk Hrest]; subst.
    rewrite (IH Hrest), lookup_dict_set.
    destruct (String.eqb_spec k key) as [<- | _]; [| reflexivity].
    now rewrite (lookup_not_in k rest Hk).
Qed.

Lemma distinct_NoDup (keys : list string) : distinct keys = true -> NoDup keys.
Proof.
  induction keys as [| key rest IH]; cbn [distinct]; intros H.
  - constructor.
  - apply andb_true_iff in H as [Hk Hrest]. constructor; [| auto].
    intros Hin. apply negb_true_iff in Hk.
    assert (E : existsb (String.eqb key) rest = true)
      by (apply existsb_exists; exists key; split; [auto | apply String.eqb_refl]).
    congruence.
Qed.

Lemma lookup_In {A : Type} (key : string) (val : A) (d : dict A) :
  lookup key d = Some val -> In (key, val) d.
Proof.
  induction d as [| [k v] rest IH]; cbn [lookup In]; [discriminate |].
  destruct (String.eqb_spec k key) as [-> | _]; [| auto].
  intros H. injection H as ->. now left.
Qed.

(** The keys of the parameters of every environment are pairwise different. *)
Lemma ENV_PARAMS_keys (env : string) (env_params : dict value) :
  lookup env ENV_PARAMS = Some env_params -> NoDup (map fst env_params).
Proof.
  intros H. apply lookup_In in H.
  assert (All : forallb (fun item => distinct (map fst (snd item))) ENV_PARAMS = true)
    by reflexivity.
  rewrite forallb_forall in All.
  apply distinct_NoDup, (All _ H).
Qed.

Lemma variants_loop (params : dict value) :
  forall vg,
    fold_left (fun vg item =>
                 match snd item with
                 | VList val => vg_add (fst item) val vg
                 | val => vg_add (fst item) [val] vg
                 end)
              params vg
    = (vg ++ map (fun item => (fst item, values_of (snd item))) params)%list.
Proof.
  induction params as [| [k v] rest IH]; intros vg; cbn [fold_left map fst snd].
  - now rewrite app_nil_r.
  - rewrite IH. destruct v; unfold vg_add; now rewrite <- app_assoc.
Qed.

Lemma lookup_values (key : string) (params : dict value) :
  lookup key (map (fun item => (fst item, values_of (snd item))) params)
  = option_map values_of (lookup key params).
Proof.
  induction params as [| [k v] rest IH]; cbn [map lookup fst snd]; [reflexivity |].
  now destruct (String.eqb k key).
Qed.

Lemma get_variants_eq (env : string) (env_params common_params : dict value) :
  lookup env ENV_PARAMS = Some env_params ->
  get_variants env common_params
  = Returns (map (fun item => (fst item, values_of (snd item)))
                 (dict_update common_params env_params),
             dict_update common_params env_params).
Proof.
  intros H. unfold get_variants. rewrite H. cbv zeta.
  now rewrite variants_loop.
Qed.

(** X21: [get_variants] returns for the environments of [AVAILABLE_ENVS] and
    raises [KeyError] for every other one; the default environment of the
    script is one that raises. *)
Theorem get_variants_needs_an_available_environment
  (env : string) (common_params : dict value) :
  ((exists vg params, get_variants env common_params = Returns (vg, params))
   <-> In env AVAILABLE_ENVS) /\
  (~ In env AVAILABLE_ENVS -> get_variants env common_params = KeyError env) /\
  get_variants DEFAULT_ENV common_params = KeyError DEFAULT_ENV.
Proof.
  unfold AVAILABLE_ENVS. repeat split.
  - intros (vg & params & H). apply lookup_in_keys.
    unfold get_variants in H.
    destruct (lookup env ENV_PARAMS) as [env_params |]; [eauto | discriminate].
  - intros H. apply lookup_in_keys in H as [env_params H].
    rewrite (get_variants_eq _ _ _ H). eauto.
  - intros H. unfold get_variants. now rewrite (lookup_not_in _ _ H).
Qed.

(** X22: For an available environment, [get_variants] adds every parameter of
    the environment with the environment's value, and every other common
    parameter with its common value: the environment overrides the common
    parameters.  A value that is a list is added as it is, any other value
    as a list of one element.  The dictionary of the common parameters is
    left holding the merged parameters. *)
Theorem environment_parameters_override_the_common_ones
  (env : string) (env_params common_params : dict value) :
  lookup env ENV_PARAMS = Some env_params ->
  exists vg params,
    get_variants env common_params = Returns (vg, params) /\
    (forall key,
        lookup key params
        = match lookup key env_params with
          | Some val => Some val
          | None => lookup key common_params
          end) /\
    (forall key, lookup key vg = option_map values_of (lookup key params)).
Proof.
  intros H. eexists _, _. split; [apply (get_variants_eq _ _ _ H) |]. split.
  - intros key. apply lookup_dict_update, (ENV_PARAMS_keys _ _ H).
  - intros key. apply lookup_values.
Qed.

Lemma environment_parameters_override_the_common_ones_witness :
  exists vg params,
    get_variants "multi-direction-ant" (COMMON_PARAMS VNone) = Returns (vg, params) /\
    lookup "snapshot_gap" vg = Some [VInt 1000] /\
    lookup "scale_reward" vg = Some [VFloat 3.0] /\
    lookup "seed" vg = Some [VInt 10; VInt 11; VInt 12; VInt 13; VInt 14].
Proof.
  destruct (environment_parameters_override_the_common_ones
              "multi-direction-ant" _ (COMMON_PARAMS VNone) eq_refl)
    as (vg & params & E & Hparams & Hvg).
  exists vg, params. split; [exact E |].
  rewrite !Hvg, !Hparams. repeat split.
Defined.

(** X23: A second call of [get_variants] starts from the parameters that the
    first call left: a parameter of the first environment that the second
    environment does not set is added for the second one with the value of
    the first. *)
Theorem get_variants_changes_the_common_parameters
  (env env' key : string) (env_params env_params' common_params : dict value)
  (val : value) :
  lookup env ENV_PARAMS = Some env_params ->
  lookup env' ENV_PARAMS = Some env_params' ->
  lookup key env_params = Some val ->
  lookup key env_params' = None ->
  exists vg params vg' params',
    get_variants env common_params = Returns (vg, params) /\
    get_variants env' params = Returns (vg', params') /\
    lookup key vg' = Some (values_of val).
Proof.
  intros H H' Hkey Hkey'.
  eexists _, _, _, _.
  split; [apply (get_variants_eq _ _ _ H) |].
  split; [apply (get_variants_eq _ _ _ H') |].
  rewrite lookup_values.
  rewrite (lookup_dict_update key env_params' (ENV_PARAMS_keys _ _ H')), Hkey'.
  rewrite (lookup_dict_update key env_params (ENV_PARAMS_keys _ _ H)), Hkey.
  reflexivity.
Qed.

Lemma get_variants_changes_the_common_parameters_witness :
  lookup "env_goal_radius" (COMMON_PARAMS VNone) = None /\
  exists vg params vg' params',
    get_variants "random-goal-swimmer" (COMMON_PARAMS VNone) = Returns (vg, params) /\
    get_variants "multi-direction-swimmer" params = Returns (vg', params') /\
    lookup "env_goal_radius" vg' = Some [VFloat 0.25].
Proof.
  split; [reflexivity |].
  exact (get_variants_changes_the_common_parameters
           "random-goal-swimmer" "multi-direction-swimmer" "env_goal_radius"
           _ _ (COMMON_PARAMS VNone) (VFloat 0.25) eq_refl eq_refl eq_refl eq_refl).
Defined.
